(** * Collaborative document synchronisation: translator and structural commands

    A shallow embedding of the two core files of the synchronisation layer:

    - the Tree Translator ([translateYEvents], [applyBlocksYEvent],
      [handleNewBlock], [handleDeleteNode], [applyUpdateBlockYEvent]), which
      patches the editable (Slate) tree from shared-tree (Yjs) change events;
    - the Structural Command Layer ([CustomEditor.deleteBlockBackward],
      [CustomEditor.deleteBlockForward], [CustomEditor.tabEvent],
      [CustomEditor.deleteBlock], [CustomEditor.hasMark],
      [CustomEditor.isMarkActive]).

    The editable tree is a rose tree addressed by paths of JavaScript numbers
    (modelled as [Z], so that the [-1] of [findIndex] can be followed through
    the code).  Operations that throw in the editable-tree library return
    [None]; a [try]/[catch] around them becomes a [match] on that option.
    The library's normalisation pass and void elements are outside the model:
    the tree is what the operations of the two files leave.  The one rule of
    normalisation that a property needs, the empty text leaf given to an
    element without children, is stated apart ([fillEmptyElement]).  The way
    the library shifts the selection when a node is inserted or removed is
    outside the model too: the properties of the translator speak of the
    tree, the log and the shared root. *)

From Stdlib Require Import ZArith List Bool Lia.
From stdpp Require Import base option numbers list strings gmap.

Local Open Scope string_scope.
Local Open Scope list_scope.
Local Open Scope Z_scope.

(** ** Block kinds and shared-tree records *)

(** Modelled from the spec: the enumerated block kinds of the data model
    ("paragraph, heading, list item variants, quote, todo, toggle,
    embedded-database views, AI-chat, etc."); the declaration itself lives in
    [@/application/types].  [OtherBlock] stands for the remaining kinds. *)
Inductive BlockType : Type :=
| Page
| Paragraph
| HeadingBlock
| TodoListBlock
| BulletedListBlock
| NumberedListBlock
| ToggleListBlock
| QuoteBlock
| GridBlock
| BoardBlock
| CalendarBlock
| AIChatBlock
| OtherBlock (tag : string).

#[global] Instance BlockType_eq_dec : EqDecision BlockType.
Proof. solve_decision. Defined.

(** The parsed [data] attribute map of a block. *)
Definition BlockData : Type := list (string * string).

(** One run of a rich-text delta ([yText.toDelta()]). *)
Record YDelta : Type := mkDelta {
  insert : string;
  attributes : list (string * string)
}.

(** A block record of the shared tree ([YBlock]), read through
    [block.get(YjsEditorKey.block_...)]. *)
Record YBlock : Type := mkBlock {
  block_id : string;
  block_type : BlockType;
  block_parent : string;
  block_children : string;
  block_external_id : option string;
  block_data : string
}.

(** The shared root: page id, block map, children map, text map. *)
Record YSharedRoot : Type := mkRoot {
  page_id : string;
  blocks : gmap string YBlock;
  children_map : gmap string (list string);
  text_map : gmap string (list YDelta)
}.

(** Modelled from the spec: [getBlock(id)] of the Shared Tree Store API;
    the definition lives in [@/application/slate-yjs/utils/yjs]. *)
Definition getBlock (id : string) (sharedRoot : YSharedRoot) : option YBlock :=
  blocks sharedRoot !! id.

(** Modelled from the spec: [getPageId] of [utils/yjs], the id of the "root
    page node". *)
Definition getPageId (sharedRoot : YSharedRoot) : string := page_id sharedRoot.

(** Modelled from the spec: [getChildrenArray] of [utils/yjs], the
    [getChildrenOrder] of the Shared Tree Store API.  Every block owns an
    "ordered list of child block ids", so a key without a recorded sequence
    has no children. *)
Definition getChildrenArray (childrenId : string) (sharedRoot : YSharedRoot)
  : list string :=
  default [] (children_map sharedRoot !! childrenId).

(** Modelled from the spec: [getText(textId)] of the Shared Tree Store API;
    an absent id or an id without Text entity gives nothing. *)
Definition getText (textId : option string) (sharedRoot : YSharedRoot)
  : option (list YDelta) :=
  match textId with
  | Some t => text_map sharedRoot !! t
  | None => None
  end.

(** Modelled from the spec: [getParent(id)] of the Shared Tree Store API,
    the block that the [parentId] of the block references. *)
Definition getParent (id : string) (sharedRoot : YSharedRoot) : option YBlock :=
  match getBlock id sharedRoot with
  | Some b => getBlock (block_parent b) sharedRoot
  | None => None
  end.

(** [Array.prototype.findIndex]: the first index whose element satisfies
    [f], or [-1]. *)
Fixpoint findIndex_from {A : Type} (f : A -> bool) (l : list A) (i : Z) : Z :=
  match l with
  | [] => -1
  | x :: l' => if f x then i else findIndex_from f l' (i + 1)
  end.

Definition findIndex {A : Type} (f : A -> bool) (l : list A) : Z :=
  findIndex_from f l 0.

(** ** The editable tree *)

Module Slate.

(** The [type] of an element is either the text wrapper
    ([YjsEditorKey.text]) or a block kind. *)
Inductive NodeType : Type :=
| TextType
| BlockNode (ty : BlockType).

#[global] Instance NodeType_eq_dec : EqDecision NodeType.
Proof. solve_decision. Defined.

Record ElementProps : Type := mkProps {
  type : NodeType;
  blockId : option string;
  textId : option string;
  data : BlockData
}.

#[global] Instance ElementProps_eq_dec : EqDecision ElementProps.
Proof. solve_decision. Defined.

(** A node is a text leaf (a run) or an element with children. *)
#[warnings="-register-all"]
Inductive Node : Type :=
| Text (text : string) (marks : list (string * string))
| Element (props : ElementProps) (children : list Node).

Definition Path : Type := list Z.

Record Point : Type := mkPoint { path : Path; offset : Z }.
Record Range : Type := mkRange { anchor : Point; focus : Point }.

#[global] Instance Point_eq_dec : EqDecision Point.
Proof. solve_decision. Defined.
#[global] Instance Range_eq_dec : EqDecision Range.
Proof. solve_decision. Defined.

Definition children_of (n : Node) : list Node :=
  match n with
  | Text _ _ => []
  | Element _ ks => ks
  end.

Definition isText (n : Node) : bool :=
  match n with Text _ _ => true | Element _ _ => false end.

(** [arr[i]] for a JavaScript number [i]: [undefined] out of range. *)
Definition at_index {A : Type} (l : list A) (i : Z) : option A :=
  if i <? 0 then None else l !! Z.to_nat i.

(** Where [Array.prototype.splice(start, ...)] begins for a list of
    length [len]. *)
Definition splice_start (len : nat) (start : Z) : nat :=
  if start <? 0 then Z.to_nat (Z.max (Z.of_nat len + start) 0)
  else Z.to_nat (Z.min start (Z.of_nat len)).

(** [l.splice(start, 0, x)] and [l.splice(start, 1)]. *)
Definition splice_insert {A : Type} (l : list A) (start : Z) (x : A) : list A :=
  let k := splice_start (length l) start in
  take k l ++ x :: drop k l.

Definition splice_remove {A : Type} (l : list A) (start : Z) : list A :=
  let k := splice_start (length l) start in
  take k l ++ drop (S k) l.

(** [Node.get(editor, path)] below the root; the root itself is the list
    of top-level nodes. *)
Fixpoint get (kids : list Node) (p : Path) : option Node :=
  match p with
  | [] => None
  | i :: rest =>
      match at_index kids i, rest with
      | Some n, [] => Some n
      | Some (Element _ ks), _ => get ks rest
      | _, _ => None
      end
  end.

(** [Editor.hasPath] ([Node.has]): every index along the path exists and
    no text leaf is descended into. *)
Fixpoint hasPath (kids : list Node) (p : Path) : bool :=
  match p with
  | [] => true
  | i :: rest =>
      match at_index kids i with
      | Some (Element _ ks) => hasPath ks rest
      | Some (Text _ _) => match rest with [] => true | _ => false end
      | None => false
      end
  end.

(** The [insert_node] operation: the parent must exist and be an element,
    and an index past the end of its children is refused (the library
    throws); otherwise the node is spliced in. *)
Fixpoint insert_node (kids : list Node) (p : Path) (node : Node)
  : option (list Node) :=
  match p with
  | [] => None
  | i :: rest =>
      match rest with
      | [] =>
          if Z.of_nat (length kids) <? i then None
          else Some (splice_insert kids i node)
      | _ =>
          match at_index kids i with
          | Some (Element pr ks) =>
              match insert_node ks rest node with
              | Some ks' => Some (<[Z.to_nat i := Element pr ks']> kids)
              | None => None
              end
          | _ => None
          end
      end
  end.

(** The [remove_node] operation: the parent must exist and be an element;
    the child at the last index is spliced out. *)
Fixpoint remove_node (kids : list Node) (p : Path) : option (list Node) :=
  match p with
  | [] => None
  | i :: rest =>
      match rest with
      | [] => Some (splice_remove kids i)
      | _ =>
          match at_index kids i with
          | Some (Element pr ks) =>
              match remove_node ks rest with
              | Some ks' => Some (<[Z.to_nat i := Element pr ks']> kids)
              | None => None
              end
          | _ => None
          end
      end
  end.

(** The [set_node] operation restricted to the [data] property. *)
Definition set_data (n : Node) (d : BlockData) : Node :=
  match n with
  | Text _ _ => n
  | Element pr ks =>
      Element {| type := type pr; blockId := blockId pr;
                 textId := textId pr; data := d |} ks
  end.

Fixpoint set_node_data (kids : list Node) (p : Path) (d : BlockData)
  : option (list Node) :=
  match p with
  | [] => None
  | i :: rest =>
      match at_index kids i, rest with
      | Some n, [] => Some (<[Z.to_nat i := set_data n d]> kids)
      | Some (Element pr ks), _ =>
          match set_node_data ks rest d with
          | Some ks' => Some (<[Z.to_nat i := Element pr ks']> kids)
          | None => None
          end
      | _, _ => None
      end
  end.

(** [editor.nodes({ at: [], match })] destructured as [[entry]]: the first
    element, in document order, whose properties satisfy [m], with its
    path. *)
Fixpoint first_in_node (m : ElementProps -> bool) (n : Node)
  : option (Node * Path) :=
  match n with
  | Text _ _ => None
  | Element pr ks =>
      if m pr then Some (n, [])
      else
        (fix scan (l : list Node) (i : Z) : option (Node * Path) :=
           match l with
           | [] => None
           | k :: l' =>
               match first_in_node m k with
               | Some (x, q) => Some (x, i :: q)
               | None => scan l' (i + 1)
               end
           end) ks 0
  end.

Fixpoint first_from (m : ElementProps -> bool) (l : list Node) (i : Z)
  : option (Node * Path) :=
  match l with
  | [] => None
  | k :: l' =>
      match first_in_node m k with
      | Some (x, q) => Some (x, i :: q)
      | None => first_from m l' (i + 1)
      end
  end.

Definition nodes_first (m : ElementProps -> bool) (kids : list Node)
  : option (Node * Path) :=
  first_from m kids 0.

(** The match used throughout: an element carrying the given block id. *)
Definition hasBlockId (id : string) (pr : ElementProps) : bool :=
  bool_decide (blockId pr = Some id).

(** Induction over nodes, with the hypothesis available for every child. *)
Fixpoint Node_forall_ind (P : Node -> Prop)
    (Htext : forall t m, P (Text t m))
    (Helem : forall pr ks, Forall P ks -> P (Element pr ks))
    (n : Node) : P n :=
  match n with
  | Text t m => Htext t m
  | Element pr ks =>
      Helem pr ks
        ((fix all (l : list Node) : Forall P l :=
            match l with
            | [] => @List.Forall_nil _ P
            | k :: l' =>
                @List.Forall_cons _ P k l'
                  (Node_forall_ind P Htext Helem k) (all l')
            end) ks)
  end.

(** No element of the forest satisfies [m]. *)
Definition absent (m : ElementProps -> bool) (l : list Node) : Prop :=
  first_from m l 0 = None.

(** A position in the editable tree: the list of children of the root
    ([Top]) or of an element reached through [outer], with the siblings to
    the [left] and [right] of that element. *)
Inductive Ctx : Type :=
| Top
| Under (outer : Ctx) (left : list Node) (pr : ElementProps) (right : list Node).

(** The tree that has [kids] at the position. *)
Fixpoint plug (c : Ctx) (kids : list Node) : list Node :=
  match c with
  | Top => kids
  | Under outer l pr r => plug outer (l ++ Element pr kids :: r)
  end.

(** The path of the element whose children the position designates. *)
Fixpoint hole_path (c : Ctx) : Path :=
  match c with
  | Top => []
  | Under outer l _ _ => hole_path outer ++ [Z.of_nat (length l)]
  end.

(** Nothing that document order visits before the position satisfies
    [m]. *)
Fixpoint clean (m : ElementProps -> bool) (c : Ctx) : Prop :=
  match c with
  | Top => True
  | Under outer l pr _ => clean m outer /\ absent m l /\ m pr = false
  end.

(** Setting the data of the node that a search returned below [n] goes
    through, and reading the same path gives that node with the new data. *)
Definition settable (m : ElementProps -> bool) (d : BlockData) (n : Node) : Prop :=
  forall x j q,
    first_in_node m n = Some (x, j :: q) ->
    exists ks',
      set_node_data (children_of n) (j :: q) d = Some ks'
      /\ get ks' (j :: q) = Some (set_data x d).

(** How many elements of a node, of a forest, satisfy [m]. *)
Fixpoint count_in_node (m : ElementProps -> bool) (n : Node) : nat :=
  match n with
  | Text _ _ => 0
  | Element pr ks =>
      ((if m pr then 1 else 0)
       + (fix sum (l : list Node) : nat :=
            match l with
            | [] => 0
            | k :: l' => count_in_node m k + sum l'
            end) ks)%nat
  end.

Fixpoint count_in (m : ElementProps -> bool) (l : list Node) : nat :=
  match l with
  | [] => 0
  | k :: l' => (count_in_node m k + count_in m l')%nat
  end.

(** Removing the node that a search for [m] returned below [n] goes
    through, takes away at least one element satisfying [m], and adds no
    element satisfying any other predicate. *)
Definition removable (m : ElementProps -> bool) (n : Node) : Prop :=
  forall x j q,
    first_in_node m n = Some (x, j :: q) ->
    exists ks',
      remove_node (children_of n) (j :: q) = Some ks'
      /\ (count_in m ks' < count_in m (children_of n))%nat
      /\ forall m', (count_in m' ks' <= count_in m' (children_of n))%nat.

End Slate.

Import Slate.

(** ** Editor state and logging *)

(** What [Log.warn] / [Log.error] / [console.error] leave behind
    ([Log.debug] and [Log.trace] are not recorded). *)
Inductive LogEntry : Type :=
| Warn (msg : string)
| Error (msg : string).

(** The editor as the two files see it: the editable tree, the selection,
    the shared root it is bound to, and the log written so far. *)
Record YjsEditor : Type := mkEditor {
  children : list Node;
  selection : option Range;
  sharedRoot : YSharedRoot;
  console : list LogEntry
}.

Definition with_children (editor : YjsEditor) (ks : list Node) : YjsEditor :=
  {| children := ks; selection := selection editor;
     sharedRoot := sharedRoot editor; console := console editor |}.

Definition with_selection (editor : YjsEditor) (s : option Range) : YjsEditor :=
  {| children := children editor; selection := s;
     sharedRoot := sharedRoot editor; console := console editor |}.

Definition with_sharedRoot (editor : YjsEditor) (r : YSharedRoot) : YjsEditor :=
  {| children := children editor; selection := selection editor;
     sharedRoot := r; console := console editor |}.

Definition Log_warn (editor : YjsEditor) (msg : string) : YjsEditor :=
  {| children := children editor; selection := selection editor;
     sharedRoot := sharedRoot editor;
     console := console editor ++ [Warn msg] |}.

Definition Log_error (editor : YjsEditor) (msg : string) : YjsEditor :=
  {| children := children editor; selection := selection editor;
     sharedRoot := sharedRoot editor;
     console := console editor ++ [Error msg] |}.

(** Modelled from the spec: [findSlateEntryByBlockId] of
    [@/application/slate-yjs/utils/editor], the "find node by predicate"
    query for the element tagged with a block id. *)
Definition findSlateEntryByBlockId (editor : YjsEditor) (blockId : string)
  : option (Node * Path) :=
  nodes_first (hasBlockId blockId) (children editor).

(** ** Change events *)

Record YBlockChange : Type := mkChange {
  action : string;
  oldValue : option YBlock
}.

(** A change event: its path into the shared structure, and, for a map
    event, the changed keys in the order the set exposes them together with
    [changes.keys]; [target] is the block a single-block event fired on. *)
Record YEvent : Type := mkEvent {
  event_path : list string;
  keysChanged : list string;
  changes_keys : gmap string YBlockChange;
  target : option YBlock
}.

Record BlockUpdate : Type := mkUpdate {
  upd_key : string;
  upd_action : string;
  upd_value : YBlockChange
}.

(** [Array.prototype.sort(cmp)]: a stable sort; an element moves in front of
    an earlier one only where the comparator puts it strictly first. *)
Fixpoint sort_insert {A : Type} (cmp : A -> A -> Z) (x : A) (l : list A) : list A :=
  match l with
  | [] => [x]
  | y :: l' => if 0 <? cmp x y then y :: sort_insert cmp x l' else x :: y :: l'
  end.

Fixpoint Array_sort {A : Type} (cmp : A -> A -> Z) (l : list A) : list A :=
  match l with
  | [] => []
  | x :: l' => sort_insert cmp x (Array_sort cmp l')
  end.

Definition isDelete (u : BlockUpdate) : bool :=
  bool_decide (upd_action u = "delete").

(** The comparator of [applyBlocksYEvent]: delete first, then add/update. *)
Definition deleteFirst (a b : BlockUpdate) : Z :=
  if isDelete a && negb (isDelete b) then -1
  else if negb (isDelete a) && isDelete b then 1
  else 0.

(** ** The Tree Translator *)

Section Translator.

(** Conversions that live in [@/application/slate-yjs/utils/convert] and
    [utils/yjs]; the translator is verified for any such functions. *)
Variable deltaInsertToSlateNode : YDelta -> list Node.
Variable dataStringTOJson : string -> BlockData.
Variable applyTextYEvent : YjsEditor -> string -> YEvent -> YjsEditor.

(** Modelled from the spec: [blockToSlateNode] of [utils/convert]; the
    editable node "mirrors a Block 1:1", "tagged with the originating block
    id for reverse lookup", and carries the block's kind and data. *)
Definition blockToSlateNode (block : YBlock) : ElementProps :=
  {| type := BlockNode (block_type block);
     blockId := Some (block_id block);
     textId := None;
     data := dataStringTOJson (block_data block) |}.

(** The text element built for a block whose Text entity was found. *)
Definition textNodeOf (textId : option string) (delta : list YDelta) : Node :=
  let slateDelta := flat_map deltaInsertToSlateNode delta in
  let slateDelta :=
    if (List.length slateDelta =? 0)%nat then slateDelta ++ [Text "" []]
    else slateDelta in
  Element {| type := TextType; blockId := None; textId := textId; data := [] |}
          slateDelta.

(** [parentHasTextNode] of [handleNewBlock]. *)
Definition parentHasTextNode (silblings : list Node) : bool :=
  if (List.length silblings =? 0)%nat then true
  else match silblings !! 0%nat with
       | Some (Element pr _) => bool_decide (type pr = TextType)
       | _ => false
       end.

(** The insertion path computed by [handleNewBlock]; [None] is the logged
    [return []] when the parent is neither in the tree nor cached. *)
Definition newBlockPath (editor : YjsEditor) (keyPath : gmap string Path)
    (parentId pageId : string) (index : Z) : option Path :=
  if bool_decide (parentId <> pageId) then
    match nodes_first (hasBlockId parentId) (children editor) with
    | None =>
        match keyPath !! parentId with
        | Some cached => Some (cached ++ [index + 1])
        | None => None
        end
    | Some (parentNode, parentPath) =>
        let silblings := children_of parentNode in
        let childrenLength := Z.of_nat (List.length silblings) in
        Some (parentPath ++
              [Z.min (index + (if parentHasTextNode silblings then 1 else 0))
                     childrenLength])
    end
  else Some [index].

(** The node handed to [insert_node]: the block's properties with the text
    element as only child when the Text entity exists, no child otherwise. *)
Definition newBlockNode (sharedRoot : YSharedRoot) (block : YBlock) : Node :=
  let slateNode := blockToSlateNode block in
  let textId := block_external_id block in
  match getText textId sharedRoot with
  | Some delta => Element slateNode [textNodeOf textId delta]
  | None => Element slateNode []
  end.

Definition handleNewBlock (editor : YjsEditor) (key : string)
    (keyPath : gmap string Path) : YjsEditor * gmap string Path :=
  match getBlock key (sharedRoot editor) with
  | None => (Log_error editor "Block not found in Yjs", keyPath)
  | Some block =>
      let parentId := block_parent block in
      let pageId := getPageId (sharedRoot editor) in
      match getBlock parentId (sharedRoot editor) with
      | None => (Log_error editor "Parent block not found", keyPath)
      | Some parent =>
          let parentChildren :=
            getChildrenArray (block_children parent) (sharedRoot editor) in
          let index := findIndex (String.eqb key) parentChildren in
          match newBlockPath editor keyPath parentId pageId index with
          | None =>
              (Log_error editor "Parent block not found in Slate editor",
               keyPath)
          | Some path =>
              match insert_node (children editor) path
                      (newBlockNode (sharedRoot editor) block) with
              | Some ks => (with_children editor ks, <[key := path]> keyPath)
              | None => (Log_error editor "Failed to insert block", keyPath)
              end
          end
      end
  end.

Definition handleDeleteNode (editor : YjsEditor) (key : string) : YjsEditor :=
  match nodes_first (hasBlockId key) (children editor) with
  | None => Log_error editor "Block not found for deletion"
  | Some (node, path) =>
      match remove_node (children editor) path with
      | Some ks => with_children editor ks
      | None => Log_error editor "Failed to delete block"
      end
  end.

(** The [keysChanged.forEach] that collects the updates: a key without a
    change record is warned about and skipped. *)
Fixpoint collectUpdates (editor : YjsEditor) (keys : gmap string YBlockChange)
    (keysChanged : list string) : YjsEditor * list BlockUpdate :=
  match keysChanged with
  | [] => (editor, [])
  | k :: rest =>
      match keys !! k with
      | None => collectUpdates (Log_warn editor "No value found for key") keys rest
      | Some v =>
          let '(editor', updates) := collectUpdates editor keys rest in
          (editor', {| upd_key := k; upd_action := action v; upd_value := v |} :: updates)
      end
  end.

(** One iteration of [updates.forEach]. *)
Definition processUpdate (st : YjsEditor * gmap string Path) (u : BlockUpdate)
  : YjsEditor * gmap string Path :=
  let '(editor, keyPath) := st in
  if bool_decide (upd_action u = "add") then handleNewBlock editor (upd_key u) keyPath
  else if bool_decide (upd_action u = "delete") then
    (handleDeleteNode editor (upd_key u), keyPath)
  else if bool_decide (upd_action u = "update") then (editor, keyPath)
  else (editor, keyPath).

Definition processUpdates (editor : YjsEditor) (keyPath : gmap string Path)
    (updates : list BlockUpdate) : YjsEditor * gmap string Path :=
  fold_left processUpdate updates (editor, keyPath).

Definition applyBlocksYEvent (editor : YjsEditor) (event : YEvent) : YjsEditor :=
  let '(editor1, updates) :=
    collectUpdates editor (changes_keys event) (keysChanged event) in
  let updates := Array_sort deleteFirst updates in
  fst (processUpdates editor1 ∅ updates).

Definition applyUpdateBlockYEvent (editor : YjsEditor) (blockId : string)
    (event : YEvent) : YjsEditor :=
  match target event with
  | None => editor
  | Some block =>
      let newData := dataStringTOJson (block_data block) in
      match findSlateEntryByBlockId editor blockId with
      | None => Log_error editor "Block node not found in Slate editor"
      | Some (node, path) =>
          match set_node_data (children editor) path newData with
          | Some ks => with_children editor ks
          | None => Log_error editor "Failed to update block data"
          end
      end
  end.

(** [isEqual(event.path, [...])] for the three shapes that are handled. *)
Definition isBlocksPath (p : list string) : bool :=
  bool_decide (p = ["document"; "blocks"]).

Definition blockPathId (p : list string) : option string :=
  match p with
  | [a; b; blockId] =>
      if bool_decide (a = "document") && bool_decide (b = "blocks")
      then Some blockId else None
  | _ => None
  end.

Definition textPathId (p : list string) : option string :=
  match p with
  | [a; b; c; textId] =>
      if bool_decide (a = "document") && bool_decide (b = "meta")
         && bool_decide (c = "text_map")
      then Some textId else None
  | _ => None
  end.

Definition translateYEvent (editor : YjsEditor) (event : YEvent) : YjsEditor :=
  let editor :=
    if isBlocksPath (event_path event) then applyBlocksYEvent editor event
    else editor in
  let editor :=
    match blockPathId (event_path event) with
    | Some blockId => applyUpdateBlockYEvent editor blockId event
    | None => editor
    end in
  match textPathId (event_path event) with
  | Some textId => applyTextYEvent editor textId event
  | None => editor
  end.

Definition translateYEvents (editor : YjsEditor) (events : list YEvent)
  : YjsEditor :=
  fold_left translateYEvent events editor.

End Translator.


(** ** Vocabulary for the statements about batches *)

(** A change that is neither an add nor a delete. *)
Definition isNoop (u : BlockUpdate) : bool :=
  negb (bool_decide (upd_action u = "add"))
  && negb (bool_decide (upd_action u = "delete")).

Definition isUpdate (u : BlockUpdate) : bool :=
  bool_decide (upd_action u = "update").

(** The update collected for a changed key, when it has a change record. *)
Definition updateOf (keys : gmap string YBlockChange) (k : string)
  : option BlockUpdate :=
  (fun v => {| upd_key := k; upd_action := action v; upd_value := v |}) <$> keys !! k.

(** A block-map event none of whose collected changes is an add. *)
Definition addFree (event : YEvent) : Prop :=
  event_path event = ["document"; "blocks"]
  /\ Forall (fun u => upd_action u <> "add")
            (omap (updateOf (changes_keys event)) (keysChanged event)).

(** The batch without the keys whose change is tagged 'update'. *)
Definition dropUpdates (event : YEvent) : YEvent :=
  {| event_path := event_path event;
     keysChanged :=
       List.filter
         (fun k => negb (from_option isUpdate false
                           (updateOf (changes_keys event) k)))
         (keysChanged event);
     changes_keys := changes_keys event;
     target := target event |}.

(** The index at which the code looks for a block among its parent's shared
    children. *)
Definition sharedIndex (sharedRoot : YSharedRoot) (parent : YBlock) (k : string)
  : Z :=
  findIndex (String.eqb k) (getChildrenArray (block_children parent) sharedRoot).

(** The editable tree and the shared tree agree on where a child of the
    position's parent goes: at top level the shared index is the tree index;
    under a located parent the tree index is one more exactly when the parent
    shows a text element first. *)
Definition parent_in_sync (pageId : string) (c : Ctx) (siblings : list Node)
    (parentId : string) (index slot : Z) : Prop :=
  match c with
  | Top => parentId = pageId /\ index = slot
  | Under outer l pr _ =>
      parentId <> pageId /\ blockId pr = Some parentId
      /\ clean (hasBlockId parentId) outer /\ absent (hasBlockId parentId) l
      /\ index + (if parentHasTextNode siblings then 1 else 0) = slot
  end.

(** A batch whose only delete is [A] and whose only add is [B]: the keys are
    distinct (they come from a set), and every other key has no change record
    or one that is neither an add nor a delete. *)
Definition onlySwap (event : YEvent) (A B : string) : bool :=
  bool_decide (NoDup (keysChanged event))
  && bool_decide (A ∈ keysChanged event)
  && bool_decide (B ∈ keysChanged event)
  && bool_decide (action <$> changes_keys event !! A = Some "delete")
  && bool_decide (action <$> changes_keys event !! B = Some "add")
  && forallb (fun k => bool_decide (k = A) || bool_decide (k = B)
                       || from_option isNoop true (updateOf (changes_keys event) k))
             (keysChanged event).

(** In the words of the claim about nested adds: the parent's first child is
    a text element. *)
Definition firstChildIsText (silblings : list Node) : bool :=
  match silblings with
  | Element pr _ :: _ => bool_decide (type pr = TextType)
  | _ => false
  end.


(** ** Composition of positions *)



(** A path that none of the three tests of [translateYEvents] accepts: the
    event of a child sequence, of the text map itself, of the children
    map. *)
Definition ignoredPath (p : list string) : Prop :=
  p <> ["document"; "blocks"]
  /\ (forall blockId, p <> ["document"; "blocks"; blockId])
  /\ (forall textId, p <> ["document"; "meta"; "text_map"; textId]).

(** An event of a batch without adds: a block-map event none of whose
    changes is an add, or an event the translator ignores. *)
Definition withoutAdds (event : YEvent) : Prop :=
  addFree event \/ ignoredPath (event_path event).

(** ** Positions in the editable tree *)

Module Positions.

(** The position [inner], taken below the position [outer]. *)
Fixpoint ctx_app (outer inner : Ctx) : Ctx :=
  match inner with
  | Top => outer
  | Under o l pr r => Under (ctx_app outer o) l pr r
  end.

(** Every index of the path is a non-negative number. *)

(** The last index of a path ([path[path.length - 1]]). *)
Definition last_index (p : Path) : Z := List.last p 0.

(** Where a search succeeds: the tree is a position filled with the found
    node among its siblings, nothing before it in document order matches,
    and the path is the path of that slot. *)
Definition located (m : ElementProps -> bool) (kids : list Node)
    (n : Node) (p : Path) : Prop :=
  exists c pre post,
    kids = plug c (pre ++ n :: post)
    /\ p = hole_path c ++ [Z.of_nat (List.length pre)]
    /\ clean m c /\ absent m pre
    /\ exists pr ks, n = Element pr ks /\ m pr = true.

(** Every search below [n0] that does not stop at [n0] itself is located
    among the children of [n0]. *)
Definition locating (m : ElementProps -> bool) (n0 : Node) : Prop :=
  forall n j q,
    first_in_node m n0 = Some (n, j :: q) ->
    located m (children_of n0) n (j :: q).

End Positions.

Import Positions.

(** The block map is keyed by block id: the block stored under a key names
    that key as its id. *)
Definition keyed_by_id (sharedRoot : YSharedRoot) : Prop :=
  forall key block, getBlock key sharedRoot = Some block -> block_id block = key.

(** The path cache holds a key only while some node of the tree carries
    it. *)
Definition cache_in_tree (editor : YjsEditor) (keyPath : gmap string Path)
  : Prop :=
  forall key,
    absent (hasBlockId key) (children editor) -> keyPath !! key = None.

(** ** Editable-tree queries used by the commands *)

Module SlateQuery.

(** [Node.first] / [Node.last] below a node: follow first (last) children
    down to a text leaf or to an element without children. *)
Fixpoint first_leaf (n : Node) : Node * Path :=
  match n with
  | Text _ _ => (n, [])
  | Element _ [] => (n, [])
  | Element _ (k :: _) => let '(x, q) := first_leaf k in (x, 0 :: q)
  end.

Fixpoint last_leaf (n : Node) : Node * Path :=
  match n with
  | Text _ _ => (n, [])
  | Element _ ks =>
      (fix go (l : list Node) (i : Z) : Node * Path :=
         match l with
         | [] => (n, [])
         | [k] => let '(x, q) := last_leaf k in (x, i :: q)
         | _ :: l' => go l' (i + 1)
         end) ks 0
  end.

Definition text_length (n : Node) : Z :=
  match n with
  | Text t _ => Z.of_nat (String.length t)
  | Element _ _ => 0
  end.

(** The node a query starts from: the node at the path, or, for the empty
    path, the editor itself seen as an element over the top-level nodes. *)
Definition editorRoot (kids : list Node) : Node :=
  Element {| type := TextType; blockId := None; textId := None; data := [] |}
          kids.

Definition getOrRoot (kids : list Node) (p : Path) : option Node :=
  match p with
  | [] => Some (editorRoot kids)
  | _ => get kids p
  end.

(** [Editor.start(editor, path)] and [Editor.end(editor, path)]: the edge
    leaf must be a text leaf, otherwise the library throws. *)
Definition start (kids : list Node) (p : Path) : option Point :=
  match getOrRoot kids p with
  | Some n =>
      let '(x, q) := first_leaf n in
      if isText x then Some {| path := p ++ q; offset := 0 |} else None
  | None => None
  end.

Definition end_ (kids : list Node) (p : Path) : option Point :=
  match getOrRoot kids p with
  | Some n =>
      let '(x, q) := last_leaf n in
      if isText x then Some {| path := p ++ q; offset := text_length x |}
      else None
  | None => None
  end.

(** The text of all leaves of a node, in document order. *)
Fixpoint node_string (n : Node) : string :=
  match n with
  | Text t _ => t
  | Element _ ks =>
      (fix go (l : list Node) : string :=
         match l with
         | [] => ""
         | k :: l' => String.append (node_string k) (go l')
         end) ks
  end.

(** [Editor.string(editor, path)]: throws unless both edges of the node
    are text leaves.  Lengths of strings are counted in characters of the
    model's strings. *)
Definition string_at (kids : list Node) (p : Path) : option string :=
  match start kids p, end_ kids p, getOrRoot kids p with
  | Some _, Some _, Some n => Some (node_string n)
  | _, _, _ => None
  end.

End SlateQuery.

(** ** Text nodes as the mark queries see them *)

(** The value of a property of a text node: a mark is a boolean or a string
    (a colour, a link), a mention is an object. *)
Inductive JsValue : Type :=
| JsBool (b : bool)
| JsString (s : string)
| JsObject.

(** [Boolean(v)] and [!!v]; [None] is [undefined]. *)
Definition Boolean (v : option JsValue) : bool :=
  match v with
  | Some (JsBool b) => b
  | Some (JsString s) => negb (String.eqb s "")
  | Some JsObject => true
  | None => false
  end.

(** A text node as the object it is: its [text] and its marks, each under
    its key. *)
Definition TextObject : Type := gmap string JsValue.

(** ** The Structural Command Layer *)

(** [Transforms.select] and [editor.deselect]. *)
Definition Transforms_select (editor : YjsEditor) (target : Range) : YjsEditor :=
  with_selection editor (Some target).

Definition Transforms_select_point (editor : YjsEditor) (p : Point) : YjsEditor :=
  with_selection editor (Some {| anchor := p; focus := p |}).

Definition Transforms_deselect (editor : YjsEditor) : YjsEditor :=
  with_selection editor None.

(** [Range.isCollapsed]. *)
Definition isCollapsed (r : Range) : bool := bool_decide (anchor r = focus r).

(** [getBlock(node.blockId as string, sharedRoot)] for a node of the
    editable tree; a node without block id resolves to nothing. *)
Definition nodeBlockId (n : Node) : option string :=
  match n with
  | Text _ _ => None
  | Element pr _ => blockId pr
  end.

Definition getBlockOfNode (n : Node) (sharedRoot : YSharedRoot) : option YBlock :=
  match nodeBlockId n with
  | Some id => getBlock id sharedRoot
  | None => None
  end.

Definition getParentOfNode (n : Node) (sharedRoot : YSharedRoot) : option YBlock :=
  match nodeBlockId n with
  | Some id => getParent id sharedRoot
  | None => None
  end.

(** "The first strategy that succeeds wins": the first selection produced. *)
Fixpoint firstSuccess (strategies : list (option Range)) : option Range :=
  match strategies with
  | [] => None
  | Some r :: _ => Some r
  | None :: rest => firstSuccess rest
  end.

Module CustomEditor.
Section Commands.

(** Declared in [@/application/slate-yjs/command/const]. *)
Variable LIST_BLOCK_TYPES : list BlockType.

(** Helpers of [@/application/slate-yjs/utils/editor]; each one runs its
    own transaction and is taken as a transformer of the editor state. *)
Variable getBlockEntry : YjsEditor -> Point -> option (Node * Path).
Variable handleNonParagraphBlockBackspaceAndEnterWithTxn :
  YjsEditor -> YBlock -> Point -> YjsEditor.
Variable handleLiftBlockOnBackspaceAndEnterWithTxn :
  YjsEditor -> YBlock -> Point -> YjsEditor * bool.
Variable handleMergeBlockBackwardWithTxn : YjsEditor -> Node -> Point -> YjsEditor.
Variable removeRangeWithTxn : YjsEditor -> Range -> YjsEditor.
Variable Transforms_collapse_start : YjsEditor -> YjsEditor.

(** [getSelectionOrThrow(editor, at)] of the same file; [None] stands for
    its exception. *)
Variable getSelectionOrThrow : YjsEditor -> option Range -> option Range.

(** Helpers of [@/application/slate-yjs/utils/transformSelection]. *)
Variable findNearestValidSelection : YjsEditor -> option Range -> option Range.
Variable isValidSelection : YjsEditor -> Range -> bool.

(** The guard of the special case of delete-backward: a non-paragraph
    list-type block whose parent is a quote. *)
Definition quoteListGuard (block : YBlock) (parent : option YBlock) : Prop :=
  block_type block <> Paragraph
  /\ block_type <$> parent = Some QuoteBlock
  /\ block_type block ∈ LIST_BLOCK_TYPES.

(** Which call settled a collapsed delete-backward. *)
Inductive BackwardStep : Type :=
| EntryNotFound
| BlockNotFound
| QuoteListConversion
| Lifted
| ParagraphConversion
| MergedBackward
| RangeRemoved.

(** [CustomEditor.deleteBlockBackward]; [None] is the exception of
    [getSelectionOrThrow].  The second component names the branch that
    returned. *)
Definition deleteBlockBackward_step (editor : YjsEditor) (at_ : option Range)
  : option (YjsEditor * BackwardStep) :=
  match getSelectionOrThrow editor at_ with
  | None => None
  | Some newAt =>
      if isCollapsed newAt then
        let point := anchor newAt in
        match getBlockEntry editor point with
        | None => Some (Log_warn editor "Block not found", EntryNotFound)
        | Some (node, path) =>
            match getBlockOfNode node (sharedRoot editor) with
            | None =>
                Some (Log_warn editor "Block no longer exists in shared root",
                      BlockNotFound)
            | Some block =>
                let blockType := block_type block in
                let parent := getParentOfNode node (sharedRoot editor) in
                if bool_decide (blockType <> Paragraph)
                   && bool_decide (block_type <$> parent = Some QuoteBlock)
                   && bool_decide (blockType ∈ LIST_BLOCK_TYPES)
                then
                  Some (handleNonParagraphBlockBackspaceAndEnterWithTxn
                          editor block point, QuoteListConversion)
                else
                  let '(editor1, lifted) :=
                    if bool_decide (1 < Z.of_nat (List.length path)) then
                      handleLiftBlockOnBackspaceAndEnterWithTxn editor block point
                    else (editor, false) in
                  if lifted then Some (editor1, Lifted)
                  else if bool_decide (blockType <> Paragraph) then
                    Some (handleNonParagraphBlockBackspaceAndEnterWithTxn
                            editor1 block point, ParagraphConversion)
                  else
                    Some (handleMergeBlockBackwardWithTxn editor1 node point,
                          MergedBackward)
            end
        end
      else
        Some (removeRangeWithTxn (Transforms_collapse_start editor) newAt,
              RangeRemoved)
  end.

Definition deleteBlockBackward (editor : YjsEditor) (at_ : option Range)
  : option YjsEditor :=
  fst <$> deleteBlockBackward_step editor at_.

(** *** The selection repair at the end of [tabEvent] *)

(** The recombined selection: new block paths followed by the captured
    sub-paths, offsets clamped to the text found there; [None] when a path
    is missing or reading the text throws. *)
Definition recombineSelection (editor : YjsEditor)
    (newStartBlockPath newEndBlockPath startAtPath endAtPath : Path)
    (startAtOffset endAtOffset : Z) : option Range :=
  let newStartPath := newStartBlockPath ++ startAtPath in
  let newEndPath := newEndBlockPath ++ endAtPath in
  if hasPath (children editor) newStartPath
     && hasPath (children editor) newEndPath then
    match SlateQuery.string_at (children editor) newStartPath,
          SlateQuery.string_at (children editor) newEndPath with
    | Some startText, Some endText =>
        Some {| anchor := {| path := newStartPath;
                             offset := Z.max 0 (Z.min startAtOffset
                                         (Z.of_nat (String.length startText))) |};
                focus := {| path := newEndPath;
                            offset := Z.max 0 (Z.min endAtOffset
                                        (Z.of_nat (String.length endText))) |} |}
    | _, _ => None
    end
  else None.

(** Strategy 1 is attempted only when a selection could be calculated. *)
Definition nearestFromCalculated (editor : YjsEditor) (newSelection : option Range)
  : option Range :=
  match newSelection with
  | Some sel => findNearestValidSelection editor (Some sel)
  | None => None
  end.

Definition calculatedIsValid (editor : YjsEditor) (newSelection : option Range)
  : bool :=
  match newSelection with
  | Some sel => isValidSelection editor sel
  | None => false
  end.

(** [CustomEditor.tabEvent] from "Try to apply the new selection" (l.394)
    on.  Strategy 3 runs inside a [try]: when [Editor.start] throws, the
    [catch] logs its warning and strategy 4 is tried; [selected] tells
    whether strategy 3 returned. *)
Definition applyTabSelection (editor : YjsEditor) (newSelection : option Range)
    (originalSelection : Range) (newStartBlockPath : Path) : YjsEditor :=
  if calculatedIsValid editor newSelection then
    with_selection editor newSelection
  else
    let editor := Log_warn editor "Calculated selection invalid" in
    match nearestFromCalculated editor newSelection with
    | Some nearest => Transforms_select editor nearest
    | None =>
        match findNearestValidSelection editor (Some originalSelection) with
        | Some nearestFromOriginal => Transforms_select editor nearestFromOriginal
        | None =>
            let '(editor, selected) :=
              if bool_decide (0 < Z.of_nat (List.length newStartBlockPath)) then
                match SlateQuery.start (children editor) newStartBlockPath with
                | Some startOfBlock =>
                    if isValidSelection editor
                         {| anchor := startOfBlock; focus := startOfBlock |}
                    then (Transforms_select_point editor startOfBlock, true)
                    else (editor, false)
                | None =>
                    (Log_warn editor "Failed to select start of block", false)
                end
              else (editor, false) in
            if selected then editor
            else
              match findNearestValidSelection editor None with
              | Some documentSelection =>
                  Transforms_select editor documentSelection
              | None =>
                  Log_warn editor "Could not establish any valid selection"
              end
        end
    end.

(** [CustomEditor.tabEvent] from "Safely construct new selection paths"
    (l.360) on.  The recombination runs inside a [try]: when both paths
    exist and reading the text throws, the [catch] logs its warning and no
    selection is calculated. *)
Definition restoreTabSelection (editor : YjsEditor)
    (newStartBlockPath newEndBlockPath startAtPath endAtPath : Path)
    (startAtOffset endAtOffset : Z) (originalSelection : Range) : YjsEditor :=
  let newSelection :=
    recombineSelection editor newStartBlockPath newEndBlockPath
      startAtPath endAtPath startAtOffset endAtOffset in
  let threw :=
    hasPath (children editor) (newStartBlockPath ++ startAtPath)
    && hasPath (children editor) (newEndBlockPath ++ endAtPath)
    && bool_decide (newSelection = None) in
  let editor :=
    if threw then Log_warn editor "Error constructing new selection paths"
    else editor in
  applyTabSelection editor newSelection originalSelection newStartBlockPath.

(** The fallback order in the words of the spec: "(1) nearest valid
    selection derived from the freshly computed target selection, (2)
    nearest valid selection derived from the pre-mutation original
    selection, (3) start-of-block of the new start block, (4) any valid
    selection in the document".  A strategy succeeds when it yields a
    selection; the start of the block does when it exists and is a valid
    selection. *)
Definition fallbackOrder (editor : YjsEditor) (target : option Range)
    (original : Range) (newStartBlock : Path) : list (option Range) :=
  [ match target with
    | Some t => findNearestValidSelection editor (Some t)
    | None => None
    end;
    findNearestValidSelection editor (Some original);
    match SlateQuery.start (children editor) newStartBlock with
    | Some p =>
        if isValidSelection editor {| anchor := p; focus := p |}
        then Some {| anchor := p; focus := p |} else None
    | None => None
    end;
    findNearestValidSelection editor None ].

(** *** [CustomEditor.deleteBlock] *)

(** [getPreviousSiblingBlock] of [utils/yjs], [ReactEditor.hasRange], the
    transaction [executeOperations(sharedRoot, [deleteBlock], 'deleteBlock')]
    as observed once its change events are translated, and [addBlock] of
    [utils/editor]. *)
Variable getPreviousSiblingBlock : YSharedRoot -> option YBlock -> option string.
Variable hasRange : YjsEditor -> Range -> bool.
Variable executeDeleteBlock : YjsEditor -> string -> YjsEditor.
Variable addBlock :
  YjsEditor -> BlockType -> BlockData -> YBlock -> Z -> YjsEditor * option string.

(** The cursor target computed before the deletion: the function returns
    early when the entry that should carry the cursor is missing; an
    exception inside the [try] is swallowed. *)
Inductive CursorTarget : Type :=
| ReturnEarly
| Swallowed
| Target (point : option Point).

Definition deleteBlockCursor (editor : YjsEditor) (blockId : string)
    (parent : YBlock) : CursorTarget :=
  match getPreviousSiblingBlock (sharedRoot editor)
          (getBlock blockId (sharedRoot editor)) with
  | None =>
      if bool_decide (block_type parent <> Page) then
        match findSlateEntryByBlockId editor (block_id parent) with
        | None => ReturnEarly
        | Some (_, path) =>
            match SlateQuery.start (children editor) path with
            | Some point => Target (Some point)
            | None => Swallowed
            end
        end
      else Target None
  | Some prevBlockId =>
      match findSlateEntryByBlockId editor prevBlockId with
      | None => ReturnEarly
      | Some (_, path) =>
          match SlateQuery.end_ (children editor) path with
          | Some point => Target (Some point)
          | None => Swallowed
          end
      end
  end.

Definition placeCursor (editor : YjsEditor) (cursor : CursorTarget) : YjsEditor :=
  match cursor with
  | Target (Some point) =>
      if hasRange editor {| anchor := point; focus := point |}
      then Transforms_select_point editor point
      else Transforms_deselect editor
  | Target None => Transforms_deselect editor
  | _ => editor
  end.

(** What follows the cursor placement: the delete transaction, then the
    placeholder when the editable tree is left without top-level node. *)
Definition removeAndRefill (editor : YjsEditor) (blockId : string)
    (parent : YBlock) : YjsEditor :=
  let editor := executeDeleteBlock editor blockId in
  if (List.length (children editor) =? 0)%nat then
    fst (addBlock editor Paragraph [] parent 0)
  else editor.

Definition deleteBlock (editor : YjsEditor) (blockId : string) : YjsEditor :=
  match getParent blockId (sharedRoot editor) with
  | None => Log_warn editor "Parent block not found"
  | Some parent =>
      match deleteBlockCursor editor blockId parent with
      | ReturnEarly => editor
      | cursor => removeAndRefill (placeCursor editor cursor) blockId parent
      end
  end.

(** *** [CustomEditor.deleteBlockForward] *)

Variable handleMergeBlockForwardWithTxn : YjsEditor -> Node -> Point -> YjsEditor.

(** [None] is the exception of [getSelectionOrThrow]. *)
Definition deleteBlockForward (editor : YjsEditor) (at_ : option Range)
  : option YjsEditor :=
  match getSelectionOrThrow editor at_ with
  | None => None
  | Some newAt =>
      if isCollapsed newAt then
        let point := anchor newAt in
        match getBlockEntry editor point with
        | None => Some (Log_warn editor "Block not found")
        | Some (node, _) =>
            Some (handleMergeBlockForwardWithTxn editor node point)
        end
      else
        Some (removeRangeWithTxn (Transforms_collapse_start editor) newAt)
  end.

(** *** The capture at the head of [tabEvent] *)

(** [point.path.slice(blockPath.length)]: what is left of the path of a
    point below the path of its block. *)
Definition subPathBelow (point : Point) (blockPath : Path) : Path :=
  drop (List.length blockPath) (path point).

(** *** Mark queries *)

(** [getSelectionTexts] of [utils/editor] and [Editor.marks]; the outer
    [None] stands for an exception, the inner one of [Editor_marks] for
    [null]. *)
Variable getSelectionTexts : YjsEditor -> option (list TextObject).
Variable Editor_marks : YjsEditor -> option (option TextObject).

(** The callback of [texts.some] and [texts.every]: a node without text
    counts as carrying the mark; otherwise the mark is looked up among the
    properties other than [text]. *)
Definition textCarries (key : string) (node : TextObject) : bool :=
  if negb (Boolean (node !! "text")) then true
  else Boolean (delete "text" node !! key).

(** [CustomEditor.hasMark]: the answer, and the editor with the warning of
    a caught exception. *)
Definition hasMark (editor : YjsEditor) (key : string) : YjsEditor * bool :=
  match selection editor with
  | None => (editor, false)
  | Some selection =>
      if negb (isCollapsed selection) then
        match getSelectionTexts editor with
        | Some texts => (editor, existsb (textCarries key) texts)
        | None =>
            (Log_warn editor "Error checking mark in expanded selection", false)
        end
      else
        match Editor_marks editor with
        | Some (Some marks) => (editor, Boolean (marks !! key))
        | Some None => (editor, false)
        | None =>
            (Log_warn editor "Error checking mark at collapsed selection", false)
        end
  end.

(** [CustomEditor.isMarkActive]; every exception gives [false]. *)
Definition isMarkActive (editor : YjsEditor) (key : string) : bool :=
  match selection editor with
  | None => false
  | Some selection =>
      if negb (isCollapsed selection) then
        match getSelectionTexts editor with
        | Some texts => forallb (textCarries key) texts
        | None => false
        end
      else
        match Editor_marks editor with
        | Some (Some marks) => Boolean (marks !! key)
        | Some None => false
        | None => false
        end
  end.

End Commands.
End CustomEditor.

(** ** A model of the delete transaction *)

Module StoreModel.

(** Modelled from the spec: [deleteBlock] of [utils/yjs], the "delete
    transaction that also detaches" the block: it leaves its parent's child
    sequence and the block map. *)
Definition deleteBlock (sharedRoot : YSharedRoot) (blockId : string)
  : YSharedRoot :=
  match getBlock blockId sharedRoot with
  | None => sharedRoot
  | Some block =>
      match getBlock (block_parent block) sharedRoot with
      | None => sharedRoot
      | Some parent =>
          {| page_id := page_id sharedRoot;
             blocks := delete blockId (blocks sharedRoot);
             children_map :=
               <[block_children parent :=
                   List.filter (fun id => negb (String.eqb id blockId))
                     (getChildrenArray (block_children parent) sharedRoot)]>
                 (children_map sharedRoot);
             text_map := text_map sharedRoot |}
      end
  end.

(** Modelled from the spec: [executeOperations] around that delete; the
    transaction is "observed by the Translator as a single batch", here the
    block-map event that tags the key as deleted. *)
Definition executeDeleteBlock
    (deltaInsertToSlateNode : YDelta -> list Node)
    (dataStringTOJson : string -> BlockData)
    (applyTextYEvent : YjsEditor -> string -> YEvent -> YjsEditor)
    (editor : YjsEditor) (blockId : string) : YjsEditor :=
  match getBlock blockId (sharedRoot editor) with
  | None => editor
  | Some old =>
      translateYEvents deltaInsertToSlateNode dataStringTOJson applyTextYEvent
        (with_sharedRoot editor (deleteBlock (sharedRoot editor) blockId))
        [ {| event_path := ["document"; "blocks"];
             keysChanged := [blockId];
             changes_keys := {[ blockId := {| action := "delete";
                                              oldValue := Some old |} ]};
             target := None |} ]
  end.

(** Modelled from the spec: [getPreviousSiblingBlock] of [utils/yjs], the
    "previous sibling if one exists" in the parent's child order. *)
Definition getPreviousSiblingBlock (sharedRoot : YSharedRoot)
    (block : option YBlock) : option string :=
  match block with
  | None => None
  | Some b =>
      match getBlock (block_parent b) sharedRoot with
      | None => None
      | Some parent =>
          let siblings := getChildrenArray (block_children parent) sharedRoot in
          let index := findIndex (String.eqb (block_id b)) siblings in
          if index <=? 0 then None else at_index siblings (index - 1)
      end
  end.

(** Modelled from the spec: [addBlock] of [utils/editor], the "insert
    transaction (assigns id, sets parent+position)" observed through the
    block-map event that tags the new key as added.  [newId] is the id the
    generator hands out and [stringify] the serialisation of the data. *)
Definition addBlock
    (deltaInsertToSlateNode : YDelta -> list Node)
    (dataStringTOJson : string -> BlockData)
    (applyTextYEvent : YjsEditor -> string -> YEvent -> YjsEditor)
    (stringify : BlockData -> string) (newId : string)
    (editor : YjsEditor) (ty : BlockType) (data : BlockData)
    (parent : YBlock) (index : Z) : YjsEditor * option string :=
  let root := sharedRoot editor in
  let newBlock :=
    {| block_id := newId; block_type := ty; block_parent := block_id parent;
       block_children := newId; block_external_id := Some newId;
       block_data := stringify data |} in
  let root' :=
    {| page_id := page_id root;
       blocks := <[newId := newBlock]> (blocks root);
       children_map :=
         <[block_children parent :=
             splice_insert (getChildrenArray (block_children parent) root)
               index newId]>
           (<[newId := []]> (children_map root));
       text_map := <[newId := []]> (text_map root) |} in
  (translateYEvents deltaInsertToSlateNode dataStringTOJson applyTextYEvent
     (with_sharedRoot editor root')
     [ {| event_path := ["document"; "blocks"];
          keysChanged := [newId];
          changes_keys := {[ newId := {| action := "add"; oldValue := None |} ]};
          target := None |} ],
   Some newId).

End StoreModel.

(** ** Concrete documents *)

Module Fixtures.

(** Stand-ins for the conversions of [utils/convert] and [utils/yjs]. *)
Definition runOf (d : YDelta) : list Node := [Text (insert d) (attributes d)].
Definition rawData (s : string) : BlockData :=
  if bool_decide (s = "") then [] else [("json", s)].
Definition ignoreText (editor : YjsEditor) (textId : string) (event : YEvent)
  : YjsEditor := editor.

Definition block (id : string) (ty : BlockType) (parent : string)
    (textId : option string) : YBlock :=
  {| block_id := id; block_type := ty; block_parent := parent;
     block_children := id; block_external_id := textId; block_data := "" |}.

Definition textElement (t s : string) : Node :=
  Element {| type := TextType; blockId := None; textId := Some t; data := [] |}
          [Text s []].

Definition blockElement (id : string) (ty : BlockType) (ks : list Node) : Node :=
  Element {| type := BlockNode ty; blockId := Some id; textId := None;
             data := [] |} ks.

Definition paragraph (id s : string) : Node :=
  blockElement id Paragraph [textElement ("t" ++ id)%string s].

Definition blocksEvent (changes : list (string * string)) : YEvent :=
  {| event_path := ["document"; "blocks"];
     keysChanged := changes.*1;
     changes_keys :=
       list_to_map ((fun c => (c.1, {| action := c.2; oldValue := None |}))
                      <$> changes);
     target := None |}.

Definition editorOf (ks : list Node) (root : YSharedRoot) : YjsEditor :=
  {| children := ks; selection := None; sharedRoot := root; console := [] |}.

Definition blockIds (ks : list Node) : list (option string) :=
  nodeBlockId <$> ks.

(** The page had [X; A; Z]; one transaction deleted [X] and [A] and
    created [B], then [Y] in front of it: the page now has [Y; B; Z]. *)
Definition interleavedRoot : YSharedRoot :=
  {| page_id := "page";
     blocks := list_to_map
       [("page", block "page" Page "" None);
        ("Y", block "Y" Paragraph "page" (Some "tY"));
        ("B", block "B" Paragraph "page" (Some "tB"));
        ("Z", block "Z" Paragraph "page" (Some "tZ"))];
     children_map := list_to_map [("page", ["Y"; "B"; "Z"])];
     text_map := list_to_map
       [("tY", [mkDelta "y" []]); ("tB", [mkDelta "b" []]);
        ("tZ", [mkDelta "z" []])] |}.

Definition interleavedEditor : YjsEditor :=
  editorOf [paragraph "X" "x"; paragraph "A" "a"; paragraph "Z" "z"]
           interleavedRoot.

Definition interleavedEvent : YEvent :=
  blocksEvent [("X", "delete"); ("A", "delete"); ("B", "add"); ("Y", "add")].

(** A toggle list [P] held [A; Z] below its text; [A] was replaced by
    [B], and an unrelated key was updated in the same transaction. *)
Definition swapRoot : YSharedRoot :=
  {| page_id := "page";
     blocks := list_to_map
       [("page", block "page" Page "" None);
        ("P", block "P" ToggleListBlock "page" (Some "tP"));
        ("B", block "B" Paragraph "P" (Some "tB"));
        ("Z", block "Z" Paragraph "P" (Some "tZ"))];
     children_map := list_to_map [("page", ["P"]); ("P", ["B"; "Z"])];
     text_map := list_to_map
       [("tP", [mkDelta "p" []]); ("tB", []); ("tZ", [mkDelta "z" []])] |}.

Definition swapProps : ElementProps :=
  {| type := BlockNode ToggleListBlock; blockId := Some "P"; textId := None;
     data := [] |}.

Definition swapEditor : YjsEditor :=
  editorOf [Element swapProps
              [textElement "tP" "p"; paragraph "A" "a"; paragraph "Z" "z"]]
           swapRoot.

Definition swapEvent : YEvent :=
  blocksEvent [("B", "add"); ("U", "update"); ("A", "delete")].


(** A page with the single paragraph [B], whose Text entity has no run. *)
Definition singleRoot (dataB : string) : YSharedRoot :=
  {| page_id := "page";
     blocks := list_to_map
       [("page", block "page" Page "" None);
        ("B", {| block_id := "B"; block_type := Paragraph;
                 block_parent := "page"; block_children := "B";
                 block_external_id := Some "tB"; block_data := dataB |})];
     children_map := list_to_map [("page", ["B"])];
     text_map := list_to_map [("tB", [])] |}.

Definition singleEditor (dataB : string) : YjsEditor :=
  editorOf [paragraph "B" ""] (singleRoot dataB).

(** The parent [P] of [K] is in the shared tree; the editable tree does
    not show it.  In [unlistedRoot] the block [K] names the parent [Q] but
    is not in [Q]'s child sequence, and [Q] shows a block first. *)
Definition orphanRoot : YSharedRoot :=
  {| page_id := "page";
     blocks := list_to_map
       [("page", block "page" Page "" None);
        ("P", block "P" ToggleListBlock "page" None);
        ("K", block "K" Paragraph "P" None);
        ("L", block "L" Paragraph "page" None)];
     children_map := list_to_map [("page", ["P"; "L"]); ("P", ["K"])];
     text_map := ∅ |}.

Definition orphanEditor : YjsEditor := editorOf [] orphanRoot.

Definition unlistedRoot : YSharedRoot :=
  {| page_id := "page";
     blocks := list_to_map
       [("page", block "page" Page "" None);
        ("Q", block "Q" (OtherBlock "columns") "page" None);
        ("X", block "X" Paragraph "Q" (Some "tX"));
        ("K", block "K" Paragraph "Q" None)];
     children_map := list_to_map [("page", ["Q"]); ("Q", ["X"])];
     text_map := list_to_map [("tX", [mkDelta "x" []])] |}.

Definition unlistedEditor : YjsEditor :=
  editorOf [blockElement "Q" (OtherBlock "columns") [paragraph "X" "x"]]
           unlistedRoot.

(** A toggle list [T] whose only child is the paragraph [C]. *)
Definition nestedRoot : YSharedRoot :=
  {| page_id := "page";
     blocks := list_to_map
       [("page", block "page" Page "" None);
        ("T", block "T" ToggleListBlock "page" (Some "tT"));
        ("C", block "C" Paragraph "T" (Some "tC"))];
     children_map := list_to_map [("page", ["T"]); ("T", ["C"]); ("C", [])];
     text_map := list_to_map
       [("tT", [mkDelta "t" []]); ("tC", [mkDelta "c" []])] |}.

Definition nestedEditor : YjsEditor :=
  editorOf [blockElement "T" ToggleListBlock
              [textElement "tT" "t"; paragraph "C" "c"]]
           nestedRoot.

(** A page whose only block is the paragraph [B]. *)
Definition lonelyEditor : YjsEditor := singleEditor "".

(** Stand-ins for the helpers of the command layer: the entry above a
    point is the deepest element with a block id along its path, and each
    handler leaves its name in the log. *)
Definition listTypes : list BlockType :=
  [TodoListBlock; BulletedListBlock; NumberedListBlock].

Fixpoint entryAlong (kids : list Node) (p prefix : Path)
    (best : option (Node * Path)) : option (Node * Path) :=
  match p with
  | [] => best
  | i :: rest =>
      match at_index kids i with
      | Some (Element pr ks) =>
          entryAlong ks rest (prefix ++ [i])
            (match blockId pr with
             | Some _ => Some (Element pr ks, prefix ++ [i])
             | None => best
             end)
      | _ => best
      end
  end.

Definition blockEntry (editor : YjsEditor) (point : Point)
  : option (Node * Path) :=
  entryAlong (children editor) (path point) [] None.

Definition convertHandler (editor : YjsEditor) (b : YBlock) (p : Point)
  : YjsEditor := Log_warn editor "converted".
Definition liftHandler (editor : YjsEditor) (b : YBlock) (p : Point)
  : YjsEditor * bool :=
  if bool_decide (block_type b = Paragraph) then (Log_warn editor "lifted", true)
  else (editor, false).
Definition mergeHandler (editor : YjsEditor) (n : Node) (p : Point)
  : YjsEditor := Log_warn editor "merged".
Definition rangeHandler (editor : YjsEditor) (r : Range) : YjsEditor :=
  Log_warn editor "range removed".
Definition collapseStart (editor : YjsEditor) : YjsEditor :=
  with_selection editor
    ((fun r => {| anchor := anchor r; focus := anchor r |}) <$> selection editor).

(** A selection is taken as valid when both of its paths exist; the
    nearest valid selection is the candidate itself when valid, else the
    start of the first top-level node. *)
Definition pathsExist (editor : YjsEditor) (r : Range) : bool :=
  hasPath (children editor) (path (anchor r))
  && hasPath (children editor) (path (focus r)).

Definition nearestOrStart (editor : YjsEditor) (candidate : option Range)
  : option Range :=
  match candidate with
  | Some r =>
      if pathsExist editor r then Some r
      else (fun p => {| anchor := p; focus := p |})
             <$> SlateQuery.start (children editor) [0]
  | None =>
      (fun p => {| anchor := p; focus := p |})
        <$> SlateQuery.start (children editor) [0]
  end.

(** The range given to the command, else the editor's selection. *)
Definition givenOrSelection (editor : YjsEditor) (at_ : option Range)
  : option Range :=
  match at_ with
  | Some r => Some r
  | None => selection editor
  end.

Definition cursorAt (p : Path) (o : Z) : Range :=
  {| anchor := {| path := p; offset := o |};
     focus := {| path := p; offset := o |} |}.

Definition emptyStringify (d : BlockData) : string := "".

(** The event that a change of the block [b] raises on the block itself. *)
Definition updateEvent (b : YBlock) : YEvent :=
  {| event_path := ["document"; "blocks"; block_id b];
     keysChanged := ["data"];
     changes_keys := ∅;
     target := Some b |}.

(** A page that gained [B] and [Z] behind [Y], which the tree shows. *)
Definition grownEditor : YjsEditor :=
  editorOf [paragraph "Y" "y"] interleavedRoot.

Definition mergeForwardHandler (editor : YjsEditor) (n : Node) (p : Point)
  : YjsEditor := Log_warn editor "merged forward".

(** Stand-ins for the mark queries: the selection covers a bold run and a
    run without text; no marks are pending at the cursor. *)
Definition boldRun : TextObject :=
  {[ "text" := JsString "ab"; "bold" := JsBool true ]}.
Definition emptyRun : TextObject := {[ "text" := JsString "" ]}.
Definition selectedTexts (texts : list TextObject) (editor : YjsEditor)
  : option (list TextObject) := Some texts.
Definition noMarks (editor : YjsEditor) : option (option TextObject) :=
  Some None.

Definition rangeOver (p : Path) (from to : Z) : Range :=
  {| anchor := {| path := p; offset := from |};
     focus := {| path := p; offset := to |} |}.

(** The events that accompany a block-map event in a batch and that the
    translator ignores: the change of a parent's child sequence and the
    change of the text map itself. *)
Definition childrenEvent (parent : string) : YEvent :=
  {| event_path := ["document"; "meta"; "children_map"; parent];
     keysChanged := []; changes_keys := ∅; target := None |}.

Definition textMapEvent (changes : list (string * string)) : YEvent :=
  {| event_path := ["document"; "meta"; "text_map"];
     keysChanged := changes.*1;
     changes_keys :=
       list_to_map ((fun c => (c.1, {| action := c.2; oldValue := None |}))
                      <$> changes);
     target := None |}.

(** A document without any node. *)
Definition emptyEditor : YjsEditor := editorOf [] (singleRoot "").

End Fixtures.

(** * Properties *)

(** ** Facts about the editable tree *)

Module SlateFacts.

Lemma first_in_node_element m pr ks :
  first_in_node m (Element pr ks) =
  if m pr then Some (Element pr ks, []) else first_from m ks 0.
Proof.
  simpl. destruct (m pr); [reflexivity |].
  generalize 0. induction ks as [| k ks IH]; intros i; simpl; [reflexivity |].
  destruct (first_in_node m k) as [[x q] |]; [reflexivity | apply IH].
Qed.

Lemma at_index_of_nat {A : Type} (l : list A) (k : nat) :
  at_index l (Z.of_nat k) = l !! k.
Proof.
  unfold at_index. destruct (Z.ltb_spec (Z.of_nat k) 0); [lia |].
  by rewrite Nat2Z.id.
Qed.

Lemma at_index_middle {A : Type} (l r : list A) (x : A) :
  at_index (l ++ x :: r) (Z.of_nat (List.length l)) = Some x.
Proof. rewrite at_index_of_nat. by rewrite list_lookup_middle. Qed.

Lemma first_from_None_shift m l i j :
  first_from m l i = None -> first_from m l j = None.
Proof.
  revert i j. induction l as [| k l IH]; intros i j; simpl; [done |].
  destruct (first_in_node m k) as [[x q] |]; [done |]. apply IH.
Qed.

(** Searching a forest split around a node: matches on the left win, then
    the node itself, then the right. *)
Lemma first_from_app_absent m l r i :
  absent m l ->
  first_from m (l ++ r) i = first_from m r (i + Z.of_nat (List.length l)).
Proof.
  unfold absent. revert i. induction l as [| k l IH]; intros i H; simpl.
  - f_equal. lia.
  - simpl in H. destruct (first_in_node m k) as [[x q] |]; [done |].
    rewrite IH; [| by apply (first_from_None_shift m l 1)].
    f_equal. rewrite Nat2Z.inj_succ. lia.
Qed.

Lemma absent_app m l r : absent m l -> absent m r -> absent m (l ++ r).
Proof.
  intros Hl Hr. unfold absent. rewrite first_from_app_absent by done.
  by apply (first_from_None_shift m r 0).
Qed.

Lemma absent_app_inv m l r : absent m (l ++ r) -> absent m l /\ absent m r.
Proof.
  unfold absent. induction l as [| k l IH]; simpl; intros H; [done |].
  destruct (first_in_node m k) as [[x q] |]; [done |].
  destruct IH as [Hl Hr]; [by apply (first_from_None_shift m _ 1) |].
  split; [by apply (first_from_None_shift m _ 0) | done].
Qed.

Lemma absent_cons_inv m k l :
  absent m (k :: l) -> first_in_node m k = None /\ absent m l.
Proof.
  unfold absent. simpl. destruct (first_in_node m k) as [[x q] |]; [done |].
  intros H. split; [done | by apply (first_from_None_shift m _ 1)].
Qed.

End SlateFacts.

Import SlateFacts.

Module CtxFacts.

Lemma first_from_hit m l r n x q i :
  absent m l -> first_in_node m n = Some (x, q) ->
  first_from m (l ++ n :: r) i = Some (x, (i + Z.of_nat (List.length l)) :: q).
Proof.
  intros Hl Hn. rewrite first_from_app_absent by done. simpl. by rewrite Hn.
Qed.

Lemma first_from_plug m c kids n q j :
  clean m c -> first_from m kids 0 = Some (n, j :: q) ->
  nodes_first m (plug c kids) = Some (n, hole_path c ++ j :: q).
Proof.
  revert kids n q j. induction c as [| outer IH l pr r]; intros kids n q j Hc Hk.
  - exact Hk.
  - destruct Hc as (Ho & Hl & Hpr). simpl.
    rewrite <- app_assoc. simpl. apply IH; [done |].
    rewrite (first_from_hit m l r (Element pr kids) n (j :: q)); [| done |].
    + do 3 f_equal.
    + rewrite first_in_node_element, Hpr. done.
Qed.

Lemma remove_node_step kids i j rest :
  remove_node kids (i :: j :: rest) =
  match at_index kids i with
  | Some (Element pr ks) =>
      match remove_node ks (j :: rest) with
      | Some ks' => Some (<[Z.to_nat i := Element pr ks']> kids)
      | None => None
      end
  | _ => None
  end.
Proof. reflexivity. Qed.

Lemma insert_node_step kids i j rest x :
  insert_node kids (i :: j :: rest) x =
  match at_index kids i with
  | Some (Element pr ks) =>
      match insert_node ks (j :: rest) x with
      | Some ks' => Some (<[Z.to_nat i := Element pr ks']> kids)
      | None => None
      end
  | _ => None
  end.
Proof. reflexivity. Qed.

Lemma insert_middle {A : Type} (l r : list A) (x y : A) :
  <[Z.to_nat (Z.of_nat (List.length l)) := y]> (l ++ x :: r) = l ++ y :: r.
Proof.
  rewrite Nat2Z.id. rewrite insert_app_r_alt; [| lia].
  replace (List.length l - List.length l)%nat with 0%nat by lia. done.
Qed.

Lemma remove_node_plug c kids j q :
  remove_node (plug c kids) (hole_path c ++ j :: q) =
  plug c <$> remove_node kids (j :: q).
Proof.
  revert kids j q. induction c as [| outer IH l pr r]; intros kids j q.
  - cbn [plug hole_path app]. by destruct (remove_node kids (j :: q)).
  - cbn [plug hole_path]. rewrite <- app_assoc. cbn [app]. rewrite IH.
    rewrite remove_node_step, at_index_middle.
    destruct (remove_node kids (j :: q)) as [ks' |]; simpl; [| done].
    by rewrite insert_middle.
Qed.

Lemma insert_node_plug c kids j q x :
  insert_node (plug c kids) (hole_path c ++ j :: q) x =
  plug c <$> insert_node kids (j :: q) x.
Proof.
  revert kids j q. induction c as [| outer IH l pr r]; intros kids j q.
  - cbn [plug hole_path app]. by destruct (insert_node kids (j :: q) x).
  - cbn [plug hole_path]. rewrite <- app_assoc. cbn [app]. rewrite IH.
    rewrite insert_node_step, at_index_middle.
    destruct (insert_node kids (j :: q) x) as [ks' |]; simpl; [| done].
    by rewrite insert_middle.
Qed.

Lemma splice_start_length (l r : list Node) :
  splice_start (List.length (l ++ r)) (Z.of_nat (List.length l)) = List.length l.
Proof.
  unfold splice_start. rewrite length_app.
  destruct (Z.ltb_spec (Z.of_nat (List.length l)) 0); lia.
Qed.

Lemma remove_node_middle (l r : list Node) (x : Node) :
  remove_node (l ++ x :: r) [Z.of_nat (List.length l)] = Some (l ++ r).
Proof.
  simpl. unfold splice_remove. f_equal.
  rewrite (splice_start_length l (x :: r)).
  rewrite take_app_length. f_equal.
  replace (S (List.length l)) with (List.length l + 1)%nat by lia.
  by rewrite drop_app_add.
Qed.

Lemma insert_node_middle (l r : list Node) (x : Node) :
  insert_node (l ++ r) [Z.of_nat (List.length l)] x = Some (l ++ x :: r).
Proof.
  simpl. rewrite length_app.
  destruct (Z.ltb_spec (Z.of_nat (List.length l + List.length r)) (Z.of_nat (List.length l))); [lia |].
  unfold splice_insert. rewrite splice_start_length.
  by rewrite take_app_length, drop_app_length.
Qed.

End CtxFacts.

Import CtxFacts.

Module PathFacts.

Lemma first_from_inv m l i x p :
  first_from m l i = Some (x, p) ->
  exists (k : nat) nk q,
    p = (i + Z.of_nat k) :: q /\ l !! k = Some nk
    /\ first_in_node m nk = Some (x, q).
Proof.
  revert i. induction l as [| n l IH]; intros i; simpl; [done |].
  destruct (first_in_node m n) as [[y q] |] eqn:Hn.
  - intros [= -> <-]. exists 0%nat, n, q. split; [f_equal; lia | done].
  - intros H. destruct (IH _ H) as (k & nk & q & -> & Hk & Hq).
    exists (S k), nk, q. split; [f_equal; lia | done].
Qed.

Lemma first_in_node_is_element m n x q :
  first_in_node m n = Some (x, q) -> exists pr ks, n = Element pr ks.
Proof. destruct n as [t a | pr ks]; [done | eauto]. Qed.

(** Below the node that a search returned, an insertion at any index up to
    the number of its children goes through. *)
Lemma first_in_node_insertable m n :
  forall x q idx y,
    first_in_node m n = Some (x, q) ->
    idx <= Z.of_nat (List.length (children_of x)) ->
    is_Some (insert_node (children_of n) (q ++ [idx]) y).
Proof.
  induction n as [t a | pr ks IH] using Node_forall_ind; intros x q idx y; [done |].
  rewrite first_in_node_element. destruct (m pr).
  - intros [= <- <-] Hidx. cbn [children_of app insert_node] in *.
    destruct (Z.ltb_spec (Z.of_nat (List.length ks)) idx); [lia | eauto].
  - intros Hf Hidx. apply first_from_inv in Hf as (k & nk & q' & -> & Hk & Hq).
    rewrite Z.add_0_l. cbn [children_of].
    destruct (first_in_node_is_element _ _ _ _ Hq) as (pr' & ks' & ->).
    rewrite Forall_forall in IH.
    assert (Hin : Element pr' ks' ∈ ks) by (eapply list_elem_of_lookup_2; eauto).
    destruct (IH _ Hin x q' idx y Hq Hidx) as [ks'' Hks'']. cbn [children_of] in Hks''.
    change ((Z.of_nat k :: q') ++ [idx]) with (Z.of_nat k :: (q' ++ [idx])).
    destruct (q' ++ [idx]) as [| j rest] eqn:Hrest; [by destruct q' |].
    rewrite insert_node_step, at_index_of_nat, Hk, Hks''. eauto.
Qed.

Lemma nodes_first_insertable m kids n p idx y :
  nodes_first m kids = Some (n, p) ->
  idx <= Z.of_nat (List.length (children_of n)) ->
  is_Some (insert_node kids (p ++ [idx]) y).
Proof.
  unfold nodes_first. intros Hf Hidx.
  apply first_from_inv in Hf as (k & nk & q & -> & Hk & Hq).
  rewrite Z.add_0_l.
  destruct (first_in_node_is_element _ _ _ _ Hq) as (pr & ks & ->).
  destruct (first_in_node_insertable m _ n q idx y Hq Hidx) as [ks' Hks'].
  cbn [children_of] in Hks'.
  change ((Z.of_nat k :: q) ++ [idx]) with (Z.of_nat k :: (q ++ [idx])).
  destruct (q ++ [idx]) as [| j rest] eqn:Hrest; [by destruct q |].
  rewrite insert_node_step, at_index_of_nat, Hk, Hks'. eauto.
Qed.

End PathFacts.

Import PathFacts.

Module DataFacts.

Lemma get_step kids i j rest :
  get kids (i :: j :: rest) =
  match at_index kids i with
  | Some (Element _ ks) => get ks (j :: rest)
  | _ => None
  end.
Proof. simpl. by destruct (at_index kids i) as [[t a | pr ks] |]. Qed.

Lemma set_node_data_step kids i j rest d :
  set_node_data kids (i :: j :: rest) d =
  match at_index kids i with
  | Some (Element pr ks) =>
      match set_node_data ks (j :: rest) d with
      | Some ks' => Some (<[Z.to_nat i := Element pr ks']> kids)
      | None => None
      end
  | _ => None
  end.
Proof. simpl. by destruct (at_index kids i) as [[t a | pr ks] |]. Qed.

Lemma at_index_insert {A : Type} (l : list A) (k : nat) (x y : A) :
  l !! k = Some x ->
  at_index (<[Z.to_nat (Z.of_nat k) := y]> l) (Z.of_nat k) = Some y.
Proof.
  intros H. rewrite at_index_of_nat, Nat2Z.id.
  apply list_lookup_insert_eq. by eapply lookup_lt_Some.
Qed.

Lemma first_from_set_data m d ks x p :
  Forall (settable m d) ks ->
  first_from m ks 0 = Some (x, p) ->
  exists ks', set_node_data ks p d = Some ks' /\ get ks' p = Some (set_data x d).
Proof.
  intros IH Hf. apply first_from_inv in Hf as (k & nk & q & -> & Hk & Hq).
  rewrite Z.add_0_l.
  destruct (first_in_node_is_element _ _ _ _ Hq) as (pr' & ks' & ->).
  destruct q as [| j q'].
  - rewrite first_in_node_element in Hq. destruct (m pr') eqn:Hm.
    + injection Hq as <-.
      exists (<[Z.to_nat (Z.of_nat k) := set_data (Element pr' ks') d]> ks).
      cbn [set_node_data get]. rewrite at_index_of_nat, Hk.
      split; [done |]. by rewrite (at_index_insert ks k (Element pr' ks')).
    + apply first_from_inv in Hq as (? & ? & ? & [=] & _).
  - rewrite Forall_forall in IH.
    assert (Hin : Element pr' ks' ∈ ks) by (eapply list_elem_of_lookup_2; eauto).
    destruct (IH _ Hin x j q' Hq) as (ks0 & Hset & Hget). cbn [children_of] in Hset.
    exists (<[Z.to_nat (Z.of_nat k) := Element pr' ks0]> ks).
    rewrite set_node_data_step, at_index_of_nat, Hk, Hset. split; [done |].
    rewrite get_step, (at_index_insert ks k (Element pr' ks')) by done. done.
Qed.

Lemma settable_all m d n : settable m d n.
Proof.
  induction n as [t a | pr ks IH] using Node_forall_ind; intros x j q; [done |].
  rewrite first_in_node_element. destruct (m pr); [done |].
  cbn [children_of]. by apply first_from_set_data.
Qed.

Lemma nodes_first_set_data m d kids n p :
  nodes_first m kids = Some (n, p) ->
  exists ks',
    set_node_data kids p d = Some ks' /\ get ks' p = Some (set_data n d).
Proof.
  apply first_from_set_data. apply Forall_forall. intros k _. apply settable_all.
Qed.

End DataFacts.

Import DataFacts.

Module CountFacts.

Lemma count_in_node_element m pr ks :
  count_in_node m (Element pr ks) = ((if m pr then 1 else 0) + count_in m ks)%nat.
Proof.
  cbn [count_in_node]. f_equal.
  induction ks as [| k ks IH]; [done |]. cbn [count_in]. by rewrite IH.
Qed.

Lemma count_in_app m l r :
  count_in m (l ++ r) = (count_in m l + count_in m r)%nat.
Proof. induction l as [| k l IH]; cbn [app count_in]; [done | lia]. Qed.

Lemma first_in_node_count m n :
  count_in_node m n = 0%nat -> first_in_node m n = None.
Proof.
  induction n as [t a | pr ks IH] using Node_forall_ind; [done |].
  rewrite count_in_node_element, first_in_node_element.
  destruct (m pr); [lia |]. cbn [Nat.add]. generalize 0.
  induction IH as [| k ks Hk Hks IHks]; intros i Hc; [done |].
  cbn [count_in first_from] in *.
  rewrite Hk by lia. apply IHks. lia.
Qed.

(** A predicate that counts zero elements is absent. *)
Lemma count_zero_absent m l : count_in m l = 0%nat -> absent m l.
Proof.
  unfold absent. generalize 0. induction l as [| k l IH]; intros i Hc; [done |].
  cbn [count_in first_from] in *.
  rewrite first_in_node_count by lia. apply IH. lia.
Qed.

Lemma first_in_node_positive m n x q :
  first_in_node m n = Some (x, q) -> (0 < count_in_node m n)%nat.
Proof.
  intros Hf. destruct (count_in_node m n) eqn:Hc; [| lia].
  by rewrite first_in_node_count in Hf.
Qed.

Lemma lookup_split {A : Type} (l : list A) (k : nat) (x : A) :
  l !! k = Some x -> exists l1 l2, l = l1 ++ x :: l2 /\ List.length l1 = k.
Proof.
  intros H. exists (take k l), (drop (S k) l). split.
  - by rewrite take_drop_middle.
  - rewrite length_take. apply lookup_lt_Some in H. lia.
Qed.

Lemma first_from_remove m ks x p :
  Forall (removable m) ks ->
  first_from m ks 0 = Some (x, p) ->
  exists ks',
    remove_node ks p = Some ks'
    /\ (count_in m ks' < count_in m ks)%nat
    /\ forall m', (count_in m' ks' <= count_in m' ks)%nat.
Proof.
  intros IH Hf. apply first_from_inv in Hf as (k & nk & q & -> & Hk & Hq).
  rewrite Z.add_0_l.
  destruct (lookup_split ks k nk Hk) as (l1 & l2 & -> & <-).
  destruct q as [| j q'].
  - exists (l1 ++ l2). rewrite remove_node_middle. split; [done |].
    pose proof (first_in_node_positive _ _ _ _ Hq).
    split; [| intros m']; rewrite !count_in_app; cbn [count_in]; lia.
  - destruct (first_in_node_is_element _ _ _ _ Hq) as (pr' & ks0 & ->).
    rewrite Forall_forall in IH.
    assert (Hin : Element pr' ks0 ∈ l1 ++ Element pr' ks0 :: l2).
    { apply elem_of_app. right. apply list_elem_of_here. }
    destruct (IH _ Hin x j q' Hq) as (ks0' & Hrem & Hlt & Hle).
    cbn [children_of] in *.
    exists (l1 ++ Element pr' ks0' :: l2).
    rewrite remove_node_step, at_index_middle, Hrem, insert_middle.
    split; [done |].
    split; [| intros m'; specialize (Hle m')];
      rewrite !count_in_app; cbn [count_in];
      rewrite !count_in_node_element; lia.
Qed.

Lemma removable_all m n : removable m n.
Proof.
  induction n as [t a | pr ks IH] using Node_forall_ind; intros x j q; [done |].
  rewrite first_in_node_element. destruct (m pr); [done |].
  cbn [children_of]. by apply first_from_remove.
Qed.

Lemma nodes_first_remove m kids n p :
  nodes_first m kids = Some (n, p) ->
  exists ks',
    remove_node kids p = Some ks'
    /\ (count_in m ks' < count_in m kids)%nat
    /\ forall m', (count_in m' ks' <= count_in m' kids)%nat.
Proof.
  apply first_from_remove. apply Forall_forall. intros k _. apply removable_all.
Qed.

Lemma first_in_node_None_count m n :
  first_in_node m n = None -> count_in_node m n = 0%nat.
Proof.
  induction n as [t a | pr ks IH] using Node_forall_ind; [done |].
  rewrite count_in_node_element, first_in_node_element.
  destruct (m pr); [done |]. cbn [Nat.add]. generalize 0.
  induction IH as [| k ks Hk Hks IHks]; intros i Hf; [done |].
  cbn [count_in first_from] in *.
  destruct (first_in_node m k) as [[x q] |] eqn:Hn; [done |].
  rewrite Hk by done. by rewrite (IHks _ Hf).
Qed.

(** ... and conversely. *)
Lemma absent_count_zero m l : absent m l -> count_in m l = 0%nat.
Proof.
  unfold absent. generalize 0. induction l as [| k l IH]; intros i Hf; [done |].
  cbn [count_in first_from] in *.
  destruct (first_in_node m k) as [[x q] |] eqn:Hn; [done |].
  by rewrite (first_in_node_None_count _ _ Hn), (IH _ Hf).
Qed.

End CountFacts.

Import CountFacts.

Module SortFacts.

Lemma sort_insert_delete (x : BlockUpdate) (l : list BlockUpdate) :
  isDelete x = true -> sort_insert deleteFirst x l = x :: l.
Proof.
  intros Hx. destruct l as [| y l]; simpl; [done |].
  unfold deleteFirst. rewrite Hx. simpl.
  by destruct (isDelete y).
Qed.

Lemma sort_insert_other (x : BlockUpdate) (ds os : list BlockUpdate) :
  isDelete x = false ->
  Forall (fun d => isDelete d = true) ds ->
  Forall (fun o => isDelete o = false) os ->
  sort_insert deleteFirst x (ds ++ os) = ds ++ x :: os.
Proof.
  intros Hx Hds Hos. induction Hds as [| d ds Hd Hds IH]; simpl.
  - destruct Hos as [| o os Ho Hos]; simpl; [done |].
    unfold deleteFirst. by rewrite Hx, Ho.
  - unfold deleteFirst at 1. rewrite Hx, Hd. simpl. by rewrite IH.
Qed.

Lemma filter_isDelete_all (l : list BlockUpdate) :
  Forall (fun d => isDelete d = true) (List.filter isDelete l).
Proof.
  apply List.Forall_forall. intros x Hx.
  by apply List.filter_In in Hx as [_ Hx].
Qed.

Lemma filter_notDelete_all (l : list BlockUpdate) :
  Forall (fun o => isDelete o = false)
         (List.filter (fun u => negb (isDelete u)) l).
Proof.
  apply List.Forall_forall. intros x Hx.
  apply List.filter_In in Hx as [_ Hx]. by destruct (isDelete x).
Qed.

(** The sort of [applyBlocksYEvent] is the stable partition: deletes in
    their order, then the rest in theirs. *)
Lemma Array_sort_deleteFirst (l : list BlockUpdate) :
  Array_sort deleteFirst l =
  List.filter isDelete l ++ List.filter (fun u => negb (isDelete u)) l.
Proof.
  induction l as [| x l IH]; simpl; [done |]. rewrite IH.
  destruct (isDelete x) eqn:Hx; simpl.
  - by apply sort_insert_delete.
  - apply sort_insert_other; [done | apply filter_isDelete_all
                              | apply filter_notDelete_all].
Qed.

End SortFacts.

Import SortFacts.

Module TranslatorFacts.
Section WithConversions.

Variable deltaInsertToSlateNode : YDelta -> list Node.
Variable dataStringTOJson : string -> BlockData.

Local Abbreviation handleNewBlock :=
  (handleNewBlock deltaInsertToSlateNode dataStringTOJson).
Local Abbreviation processUpdate :=
  (processUpdate deltaInsertToSlateNode dataStringTOJson).
Local Abbreviation processUpdates :=
  (processUpdates deltaInsertToSlateNode dataStringTOJson).
Local Abbreviation applyBlocksYEvent :=
  (applyBlocksYEvent deltaInsertToSlateNode dataStringTOJson).
Local Abbreviation newBlockNode :=
  (newBlockNode deltaInsertToSlateNode dataStringTOJson).

Lemma collectUpdates_snd editor keys ks :
  snd (collectUpdates editor keys ks) = omap (updateOf keys) ks.
Proof.
  revert editor. induction ks as [| k ks IH]; intros editor; simpl; [done |].
  unfold updateOf at 1. destruct (keys !! k) as [v |]; simpl.
  - specialize (IH editor).
    destruct (collectUpdates editor keys ks) as [e us]. simpl in *. by rewrite IH.
  - apply IH.
Qed.

Lemma collectUpdates_fst editor keys ks :
  children (fst (collectUpdates editor keys ks)) = children editor
  /\ sharedRoot (fst (collectUpdates editor keys ks)) = sharedRoot editor
  /\ selection (fst (collectUpdates editor keys ks)) = selection editor.
Proof.
  revert editor. induction ks as [| k ks IH]; intros editor; simpl; [done |].
  destruct (keys !! k) as [v |]; simpl.
  - specialize (IH editor).
    by destruct (collectUpdates editor keys ks) as [e us].
  - apply (IH (Log_warn editor _)).
Qed.

Lemma collectUpdates_all_found editor keys ks :
  Forall (fun k => is_Some (keys !! k)) ks ->
  fst (collectUpdates editor keys ks) = editor.
Proof.
  induction 1 as [| k ks [v Hv] Hks IH]; simpl; [done |].
  rewrite Hv. by destruct (collectUpdates editor keys ks) as [e us].
Qed.

Lemma processUpdates_app editor keyPath l1 l2 :
  processUpdates editor keyPath (l1 ++ l2) =
  let '(e, kp) := processUpdates editor keyPath l1 in processUpdates e kp l2.
Proof.
  unfold processUpdates. rewrite fold_left_app.
  by destruct (fold_left _ l1 _).
Qed.

Lemma processUpdate_noop st u : isNoop u = true -> processUpdate st u = st.
Proof.
  unfold isNoop, processUpdate. destruct st as [e kp].
  destruct (bool_decide (upd_action u = "add")); [done |].
  destruct (bool_decide (upd_action u = "delete")); [done |].
  by destruct (bool_decide (upd_action u = "update")).
Qed.

Lemma processUpdates_noops editor keyPath l :
  Forall (fun u => isNoop u = true) l ->
  processUpdates editor keyPath l = (editor, keyPath).
Proof.
  intros H. revert editor keyPath.
  induction H as [| u l Hu Hl IH]; intros editor keyPath; [done |].
  unfold processUpdates. cbn [fold_left].
  rewrite (processUpdate_noop (editor, keyPath) u Hu). apply IH.
Qed.

Lemma handleDeleteNode_sharedRoot editor k :
  sharedRoot (handleDeleteNode editor k) = sharedRoot editor.
Proof.
  unfold handleDeleteNode.
  destruct (nodes_first _ _) as [[n p] |]; [| done].
  by destruct (remove_node _ _).
Qed.

(** A delete of an id that no element carries changes nothing but the log. *)
Lemma handleDeleteNode_absent editor k :
  absent (hasBlockId k) (children editor) ->
  handleDeleteNode editor k = Log_error editor "Block not found for deletion".
Proof. unfold absent, handleDeleteNode, nodes_first. by intros ->. Qed.

Lemma hasBlockId_true id pr : blockId pr = Some id -> hasBlockId id pr = true.
Proof. intros H. unfold hasBlockId. by apply bool_decide_eq_true. Qed.

(** Deleting the first node that carries the id, found in a hole. *)
Lemma handleDeleteNode_plug editor c pre post pr ks k :
  children editor = plug c (pre ++ Element pr ks :: post) ->
  blockId pr = Some k ->
  clean (hasBlockId k) c -> absent (hasBlockId k) pre ->
  handleDeleteNode editor k = with_children editor (plug c (pre ++ post)).
Proof.
  intros Hch Hid Hc Hpre. unfold handleDeleteNode. rewrite Hch.
  rewrite (first_from_plug _ c _ (Element pr ks) [] (Z.of_nat (List.length pre)) Hc).
  - rewrite remove_node_plug, remove_node_middle. done.
  - rewrite (first_from_hit _ pre post (Element pr ks) (Element pr ks) []);
      [done | done |].
    rewrite first_in_node_element. by rewrite hasBlockId_true.
Qed.

(** Adding a block whose parent is the hole's parent, at the slot the two
    trees agree on. *)
Lemma handleNewBlock_plug editor keyPath c pre post k block parent :
  children editor = plug c (pre ++ post) ->
  getBlock k (sharedRoot editor) = Some block ->
  getBlock (block_parent block) (sharedRoot editor) = Some parent ->
  parent_in_sync (getPageId (sharedRoot editor)) c (pre ++ post)
    (block_parent block) (sharedIndex (sharedRoot editor) parent k)
    (Z.of_nat (List.length pre)) ->
  fst (handleNewBlock editor k keyPath) =
  with_children editor
    (plug c (pre ++ newBlockNode (sharedRoot editor) block :: post)).
Proof.
  intros Hch Hb Hp Hsync. unfold handleNewBlock.
  rewrite Hb, Hp. fold (sharedIndex (sharedRoot editor) parent k).
  destruct c as [| outer l pr r]; simpl in Hsync.
  - destruct Hsync as [Hpage Hidx]. unfold newBlockPath.
    rewrite bool_decide_eq_false_2 by (intros H; by apply H).
    rewrite Hidx, Hch. cbn [plug]. by rewrite insert_node_middle.
  - destruct Hsync as (Hne & Hid & Hc & Hl & Hidx). unfold newBlockPath.
    rewrite bool_decide_eq_true_2 by done.
    rewrite Hch. cbn [plug].
    rewrite (first_from_plug _ outer _ (Element pr (pre ++ post)) []
               (Z.of_nat (List.length l)) Hc).
    + cbn [children_of]. rewrite Hidx.
      rewrite Z.min_l by (rewrite length_app; lia).
      change (plug outer (l ++ Element pr (pre ++ post) :: r))
        with (plug (Under outer l pr r) (pre ++ post)).
      change (hole_path outer ++ [Z.of_nat (List.length l)])
        with (hole_path (Under outer l pr r)).
      rewrite insert_node_plug, insert_node_middle. done.
    + rewrite (first_from_hit _ l r (Element pr (pre ++ post))
                 (Element pr (pre ++ post)) []); [done | done |].
      rewrite first_in_node_element. by rewrite hasBlockId_true.
Qed.

End WithConversions.
End TranslatorFacts.

Import TranslatorFacts.

Module BatchFacts.

Lemma filter_none {A : Type} (f : A -> bool) (l : list A) :
  Forall (fun x => f x = false) l -> List.filter f l = [].
Proof. induction 1 as [| x l Hx Hl IH]; simpl; [done |]. by rewrite Hx. Qed.

Lemma filter_all {A : Type} (f : A -> bool) (l : list A) :
  Forall (fun x => f x = true) l -> List.filter f l = l.
Proof. induction 1 as [| x l Hx Hl IH]; simpl; [done |]. by rewrite Hx, IH. Qed.

Lemma isNoop_not_delete u : isNoop u = true -> isDelete u = false.
Proof.
  unfold isNoop, isDelete.
  destruct (bool_decide (upd_action u = "add")); [done |].
  by destruct (bool_decide (upd_action u = "delete")).
Qed.

Lemma omap_noops (keys : gmap string YBlockChange) (l : list string) :
  Forall (fun k => from_option isNoop true (updateOf keys k) = true) l ->
  Forall (fun u => isNoop u = true) (omap (updateOf keys) l).
Proof.
  induction 1 as [| k l Hk Hl IH]; simpl; [constructor |].
  destruct (updateOf keys k) as [u |]; [by constructor | done].
Qed.

(** Around the single add: everything else collected from the keys is
    neither an add nor a delete. *)
Lemma omap_single (keys : gmap string YBlockChange) (B : string)
    (vB : YBlockChange) (ks : list string) :
  NoDup ks -> B ∈ ks -> keys !! B = Some vB ->
  Forall (fun k => k = B \/ from_option isNoop true (updateOf keys k) = true) ks ->
  exists n1 n2,
    omap (updateOf keys) ks =
      n1 ++ {| upd_key := B; upd_action := action vB; upd_value := vB |} :: n2
    /\ Forall (fun u => isNoop u = true) n1
    /\ Forall (fun u => isNoop u = true) n2.
Proof.
  intros Hnd HB HvB Hall.
  apply list_elem_of_split in HB as (l1 & l2 & ->).
  apply NoDup_app in Hnd as (Hnd1 & Hnot & Hnd2).
  apply NoDup_cons in Hnd2 as [HB2 _].
  apply Forall_app in Hall as [H1 H2]. apply Forall_cons in H2 as [_ H2].
  exists (omap (updateOf keys) l1), (omap (updateOf keys) l2).
  split; [| split].
  - rewrite omap_app. simpl. unfold updateOf at 2. by rewrite HvB.
  - apply omap_noops. apply Forall_forall. intros k Hk.
    rewrite Forall_forall in H1. destruct (H1 k Hk) as [-> | H]; [| done].
    exfalso. apply (Hnot B Hk). by left.
  - apply omap_noops. apply Forall_forall. intros k Hk.
    rewrite Forall_forall in H2. destruct (H2 k Hk) as [-> | H]; [| done].
    by exfalso.
Qed.

(** What the sorted updates of such a batch are: the delete, then the add
    among changes that touch nothing. *)
Lemma onlySwap_sorted (event : YEvent) (A B : string) :
  onlySwap event A B = true ->
  exists vA vB n1 n2,
    changes_keys event !! A = Some vA /\ action vA = "delete"
    /\ changes_keys event !! B = Some vB /\ action vB = "add"
    /\ Array_sort deleteFirst
         (omap (updateOf (changes_keys event)) (keysChanged event)) =
       {| upd_key := A; upd_action := action vA; upd_value := vA |}
       :: n1 ++ {| upd_key := B; upd_action := action vB; upd_value := vB |} :: n2
    /\ Forall (fun u => isNoop u = true) n1
    /\ Forall (fun u => isNoop u = true) n2.
Proof.
  unfold onlySwap. intros H.
  repeat (apply andb_true_iff in H as [H ?]).
  match goal with Hf : forallb _ _ = true |- _ => rename Hf into Hall end.
  repeat match goal with
         | Hb : bool_decide _ = true |- _ => apply bool_decide_eq_true in Hb
         end.
  match goal with Hx : NoDup _ |- _ => rename Hx into Hnd end.
  match goal with Hx : A ∈ _ |- _ => rename Hx into HA end.
  match goal with Hx : B ∈ _ |- _ => rename Hx into HB end.
  match goal with Hx : _ = Some "delete" |- _ => rename Hx into HdA end.
  match goal with Hx : _ = Some "add" |- _ => rename Hx into HaB end.
  set (keys := changes_keys event) in *.
  destruct (keys !! A) as [vA |] eqn:HvA; [| done].
  destruct (keys !! B) as [vB |] eqn:HvB; [| done].
  simpl in HdA, HaB. injection HdA as HdA. injection HaB as HaB.
  assert (HAB : A <> B) by (intros ->; congruence).
  rewrite forallb_forall in Hall.
  apply list_elem_of_split in HA as (k1 & k2 & Hks).
  rewrite Hks in *. clear Hks.
  apply NoDup_app in Hnd as (Hnd1 & Hnot & Hnd2).
  apply NoDup_cons in Hnd2 as [HA2 Hnd2].
  assert (Hnd12 : NoDup (k1 ++ k2)).
  { apply NoDup_app. split; [done |]. split; [| done].
    intros k Hk1 Hk2. apply (Hnot k Hk1). by right. }
  assert (HB12 : B ∈ k1 ++ k2).
  { apply elem_of_app in HB as [HB | HB]; [apply elem_of_app; by left |].
    apply elem_of_cons in HB as [HB | HB]; [congruence |].
    apply elem_of_app; by right. }
  assert (Hall12 : Forall (fun k => k = B \/
            from_option isNoop true (updateOf keys k) = true) (k1 ++ k2)).
  { apply Forall_forall. intros k Hk.
    assert (HkA : k <> A).
    { intros ->. apply elem_of_app in Hk as [Hk | Hk];
        [apply (Hnot A Hk); by left | done]. }
    assert (Hin : In k (k1 ++ A :: k2)).
    { apply list_elem_of_In. apply elem_of_app in Hk as [Hk | Hk];
        apply elem_of_app; [by left | right; by right]. }
    specialize (Hall k Hin).
    apply orb_true_iff in Hall as [Hall | Hall]; [| by right].
    apply orb_true_iff in Hall as [Hall | Hall];
      apply bool_decide_eq_true in Hall; [done | by left]. }
  destruct (omap_single keys B vB (k1 ++ k2) Hnd12 HB12 HvB Hall12)
    as (n1 & n2 & Hsplit & Hn1 & Hn2).
  exists vA, vB, n1, n2. repeat (split; [done |]). split; [| done].
  set (uA := {| upd_key := A; upd_action := action vA; upd_value := vA |}).
  assert (HfA : updateOf keys A = Some uA) by (unfold updateOf; by rewrite HvA).
  rewrite Array_sort_deleteFirst, omap_app. cbn [omap list_omap].
  rewrite HfA.
  set (uB := {| upd_key := B; upd_action := action vB; upd_value := vB |}) in *.
  assert (HuA : isDelete uA = true) by (by apply bool_decide_eq_true).
  assert (HuB : isDelete uB = false).
  { apply bool_decide_eq_false. unfold uB. simpl. rewrite HaB. done. }
  assert (Hrest : Forall (fun u => isDelete u = false)
                    (omap (updateOf keys) k1 ++ omap (updateOf keys) k2)).
  { rewrite <- omap_app, Hsplit. apply Forall_app. split.
    - eapply Forall_impl; [exact Hn1 |]. apply isNoop_not_delete.
    - constructor; [done |].
      eapply Forall_impl; [exact Hn2 |]. apply isNoop_not_delete. }
  apply Forall_app in Hrest as [Hr1 Hr2].
  rewrite !List.filter_app. cbn [List.filter]. rewrite HuA. cbn [negb].
  rewrite (filter_none isDelete _ Hr1), (filter_none isDelete _ Hr2).
  rewrite (filter_all (fun u => negb (isDelete u)) (omap (updateOf keys) k1)),
          (filter_all (fun u => negb (isDelete u)) (omap (updateOf keys) k2)).
  - cbn [app]. f_equal. by rewrite <- omap_app.
  - eapply Forall_impl; [exact Hr2 |]. by intros u ->.
  - eapply Forall_impl; [exact Hr1 |]. by intros u ->.
Qed.

End BatchFacts.

Import BatchFacts.

(** ** Facts about positions *)

Module PositionFacts.

Lemma plug_ctx_app outer inner kids :
  plug (ctx_app outer inner) kids = plug outer (plug inner kids).
Proof.
  revert kids. induction inner as [| o IH l pr r]; intros kids; [done |].
  cbn [ctx_app plug]. apply IH.
Qed.

Lemma hole_path_ctx_app outer inner :
  hole_path (ctx_app outer inner) = hole_path outer ++ hole_path inner.
Proof.
  induction inner as [| o IH l pr r]; cbn [ctx_app hole_path].
  - by rewrite app_nil_r.
  - by rewrite IH, app_assoc.
Qed.

Lemma clean_ctx_app m outer inner :
  clean m outer -> clean m inner -> clean m (ctx_app outer inner).
Proof.
  intros Ho. induction inner as [| o IH l pr r]; cbn [ctx_app clean]; [done |].
  intros (Hi & Hl & Hpr). auto.
Qed.

Lemma first_from_split m l i x p :
  first_from m l i = Some (x, p) ->
  exists l1 nk l2 q,
    l = l1 ++ nk :: l2 /\ absent m l1
    /\ p = (i + Z.of_nat (List.length l1)) :: q
    /\ first_in_node m nk = Some (x, q).
Proof.
  revert i. induction l as [| n l IH]; intros i; cbn [first_from]; [done |].
  destruct (first_in_node m n) as [[y q] |] eqn:Hn.
  - intros [= -> <-]. exists [], n, l, q. repeat split; [| done].
    f_equal. cbn. lia.
  - intros H. destruct (IH _ H) as (l1 & nk & l2 & q & -> & Hl1 & -> & Hq).
    exists (n :: l1), nk, l2, q. repeat split; [| | done].
    + unfold absent. cbn [first_from]. rewrite Hn.
      by apply (first_from_None_shift m l1 0).
    + f_equal. cbn [List.length]. lia.
Qed.

Lemma first_from_located m ks n p :
  Forall (locating m) ks ->
  first_from m ks 0 = Some (n, p) -> located m ks n p.
Proof.
  intros IH Hf.
  apply first_from_split in Hf as (l1 & nk & l2 & q & -> & Hl1 & -> & Hq).
  rewrite Z.add_0_l.
  destruct (first_in_node_is_element _ _ _ _ Hq) as (pr0 & ks0 & ->).
  destruct q as [| j q'].
  - rewrite first_in_node_element in Hq. destruct (m pr0) eqn:Hm.
    + injection Hq as <-. exists Top, l1, l2. cbn [plug hole_path app].
      repeat split; try done. by exists pr0, ks0.
    + apply first_from_inv in Hq as (? & ? & ? & [=] & _).
  - rewrite Forall_forall in IH.
    assert (Hin : Element pr0 ks0 ∈ l1 ++ Element pr0 ks0 :: l2).
    { apply elem_of_app. right. apply list_elem_of_here. }
    destruct (IH _ Hin n j q' Hq)
      as (c & pre & post & Hks & Hp & Hc & Hpre & Hn).
    cbn [children_of] in Hks.
    assert (Hm : m pr0 = false).
    { rewrite first_in_node_element in Hq. by destruct (m pr0). }
    exists (ctx_app (Under Top l1 pr0 l2) c), pre, post.
    rewrite plug_ctx_app, hole_path_ctx_app. cbn [plug hole_path app].
    rewrite <- Hks, <- Hp. repeat split; try done.
    apply clean_ctx_app; [| done]. by cbn.
Qed.

Lemma locating_all m n0 : locating m n0.
Proof.
  induction n0 as [t a | pr ks IH] using Node_forall_ind; intros n j q; [done |].
  rewrite first_in_node_element. destruct (m pr); [done |].
  cbn [children_of]. by apply first_from_located.
Qed.

(** A successful search is located. *)
Lemma nodes_first_located m kids n p :
  nodes_first m kids = Some (n, p) -> located m kids n p.
Proof.
  apply first_from_located. apply Forall_forall. intros k _. apply locating_all.
Qed.

(** A tree without match: the position is clean and so is what fills it. *)
Lemma absent_plug_inv m c kids :
  absent m (plug c kids) -> clean m c /\ absent m kids.
Proof.
  revert kids. induction c as [| outer IH l pr r]; intros kids H; [done |].
  cbn [plug] in H. apply IH in H as [Ho H].
  apply absent_app_inv in H as [Hl H].
  apply absent_cons_inv in H as [H _].
  rewrite first_in_node_element in H. destruct (m pr) eqn:Hpr; [done |].
  cbn [clean]. done.
Qed.

(** Reading below a position. *)
Lemma get_plug c kids j q :
  get (plug c kids) (hole_path c ++ j :: q) = get kids (j :: q).
Proof.
  revert kids j q. induction c as [| outer IH l pr r]; intros kids j q; [done |].
  cbn [plug hole_path]. rewrite <- app_assoc. cbn [app]. rewrite IH.
  rewrite get_step, at_index_middle. reflexivity.
Qed.

Lemma get_middle (l r : list Node) (x : Node) :
  get (l ++ x :: r) [Z.of_nat (List.length l)] = Some x.
Proof. cbn [get]. rewrite at_index_middle. by destruct x. Qed.

Lemma set_node_data_plug c kids j q d :
  set_node_data (plug c kids) (hole_path c ++ j :: q) d =
  plug c <$> set_node_data kids (j :: q) d.
Proof.
  revert kids j q. induction c as [| outer IH l pr r]; intros kids j q.
  - cbn [plug hole_path app]. by destruct (set_node_data kids (j :: q) d).
  - cbn [plug hole_path]. rewrite <- app_assoc. cbn [app]. rewrite IH.
    rewrite set_node_data_step, at_index_middle.
    destruct (set_node_data kids (j :: q) d) as [ks' |]; simpl; [| done].
    by rewrite insert_middle.
Qed.

Lemma set_node_data_middle (l r : list Node) (x : Node) d :
  set_node_data (l ++ x :: r) [Z.of_nat (List.length l)] d =
  Some (l ++ set_data x d :: r).
Proof.
  cbn [set_node_data]. rewrite at_index_middle, insert_middle. by destruct x.
Qed.

(** Counting through a position: what fills it adds up. *)
Lemma count_in_plug m c kids :
  count_in m (plug c kids) = (count_in m (plug c []) + count_in m kids)%nat.
Proof.
  revert kids. induction c as [| outer IH l pr r]; intros kids; [done |].
  cbn [plug]. rewrite (IH (l ++ Element pr kids :: r)), (IH (l ++ Element pr [] :: r)).
  rewrite !count_in_app. cbn [count_in]. rewrite !count_in_node_element.
  cbn [count_in]. lia.
Qed.

(** Where an insertion lands: the tree was a position filled with
    [pre ++ post] and becomes the same position filled with the node between
    them; a non-negative last index is the number of nodes before it. *)
Lemma insert_node_located kids p x ks :
  insert_node kids p x = Some ks ->
  exists c pre post i,
    kids = plug c (pre ++ post)
    /\ ks = plug c (pre ++ x :: post)
    /\ p = hole_path c ++ [i]
    /\ List.length pre = splice_start (List.length (pre ++ post)) i
    /\ i <= Z.of_nat (List.length (pre ++ post)).
Proof.
  revert kids ks. induction p as [| i rest IH]; intros kids ks; [done |].
  destruct rest as [| j rest].
  - cbn [insert_node].
    destruct (Z.ltb_spec (Z.of_nat (List.length kids)) i); [done |].
    intros [= <-]. unfold splice_insert.
    set (k := splice_start (List.length kids) i).
    assert (Hk : (k <= List.length kids)%nat).
    { unfold k, splice_start. destruct (Z.ltb_spec i 0); lia. }
    exists Top, (take k kids), (drop k kids), i. cbn [plug hole_path app].
    rewrite take_drop. repeat split; [| done].
    rewrite length_take. fold k. lia.
  - rewrite insert_node_step.
    destruct (at_index kids i) as [[t a | pr ks0] |] eqn:Hat; [done | | done].
    destruct (insert_node ks0 (j :: rest) x) as [ks0' |] eqn:Hins; [| done].
    intros [= <-].
    destruct (IH _ _ Hins) as (c & pre & post & i' & -> & -> & Hp & Hlen & Hle).
    unfold at_index in Hat. destruct (Z.ltb_spec i 0); [done |].
    destruct (lookup_split _ _ _ Hat) as (l & r & -> & Hl).
    exists (ctx_app (Under Top l pr r) c), pre, post, i'.
    rewrite !plug_ctx_app, hole_path_ctx_app. cbn [plug hole_path app].
    rewrite Hl, Z2Nat.id by lia. rewrite <- Hp.
    repeat split; try done.
    rewrite <- Hl at 1. rewrite insert_app_r_alt by lia.
    by replace (List.length l - List.length l)%nat with 0%nat by lia.
Qed.

End PositionFacts.

Import PositionFacts.

(** ** Facts about edge leaves *)

Module QueryFacts.

Lemma nodes_first_get m kids n p :
  nodes_first m kids = Some (n, p) -> get kids p = Some n /\ p <> [].
Proof.
  intros Hf. apply nodes_first_located in Hf
    as (c & pre & post & -> & -> & _ & _ & _).
  split; [| by destruct (hole_path c)].
  rewrite get_plug. apply get_middle.
Qed.

Lemma get_app kids p q pr ks :
  get kids p = Some (Element pr ks) -> q <> [] ->
  get kids (p ++ q) = get ks q.
Proof.
  revert kids. induction p as [| i rest IH]; intros kids Hget Hq; [done |].
  destruct rest as [| j rest].
  - cbn [get] in Hget. cbn [app].
    destruct q as [| j q]; [done |]. rewrite get_step.
    destruct (at_index kids i) as [[t a | pr' ks'] |]; [done | | done].
    by injection Hget as -> ->.
  - rewrite get_step in Hget. change ((i :: j :: rest) ++ q)
      with (i :: j :: (rest ++ q)). rewrite get_step.
    destruct (at_index kids i) as [[t a | pr' ks'] |]; [done | | done].
    by apply IH.
Qed.

(** The first leaf of a node is the node itself or is read below it. *)
Lemma first_leaf_get n :
  forall x q,
    SlateQuery.first_leaf n = (x, q) -> isText x = true ->
    (q = [] /\ n = x) \/ (q <> [] /\ get (children_of n) q = Some x).
Proof.
  induction n as [t a | pr ks IH] using Node_forall_ind; intros x q.
  - cbn. intros [= <- <-] _. by left.
  - destruct ks as [| k rest]; cbn [SlateQuery.first_leaf].
    + by intros [= <- <-].
    + apply Forall_cons in IH as [IHk _].
      destruct (SlateQuery.first_leaf k) as [x' q'] eqn:Hk.
      intros [= <- <-] Hx. right. split; [done |].
      destruct (IHk x' q' eq_refl Hx) as [[-> ->] | [Hq' Hget]].
      * cbn [children_of get]. by destruct x'.
      * cbn [children_of]. destruct q' as [| j q']; [done |].
        rewrite get_step. cbn [at_index Z.ltb Z.compare Z.to_nat lookup].
        destruct k as [t a | pr' ks']; [done |]. exact Hget.
Qed.

Lemma last_leaf_element pr init k :
  SlateQuery.last_leaf (Element pr (init ++ [k])) =
  let '(x, q) := SlateQuery.last_leaf k in
  (x, Z.of_nat (List.length init) :: q).
Proof.
  cbn [SlateQuery.last_leaf].
  assert (H : forall i,
    (fix go (l : list Node) (i : Z) {struct l} : Node * Path :=
       match l with
       | [] => (Element pr (init ++ [k]), [])
       | [k0] => let '(x, q) := SlateQuery.last_leaf k0 in (x, i :: q)
       | _ :: (_ :: _) as l' => go l' (i + 1)
       end) (init ++ [k]) i
    = let '(x, q) := SlateQuery.last_leaf k in
      (x, (i + Z.of_nat (List.length init)) :: q)).
  { generalize (Element pr (init ++ [k])) as root.
    induction init as [| a init IHi]; intros root i.
    - cbn [app List.length]. destruct (SlateQuery.last_leaf k) as [x q].
      by rewrite Z.add_0_r.
    - cbn [app]. specialize (IHi root (i + 1)).
      remember (init ++ [k]) as l eqn:Hl.
      destruct l as [| b l]; [by destruct init |].
      rewrite IHi. destruct (SlateQuery.last_leaf k) as [x q].
      cbn [List.length]. do 2 f_equal. lia. }
  rewrite H. by destruct (SlateQuery.last_leaf k).
Qed.

(** ... and so is its last leaf. *)
Lemma last_leaf_get n :
  forall x q,
    SlateQuery.last_leaf n = (x, q) -> isText x = true ->
    (q = [] /\ n = x) \/ (q <> [] /\ get (children_of n) q = Some x).
Proof.
  induction n as [t a | pr ks IH] using Node_forall_ind; intros x q.
  - cbn. intros [= <- <-] _. by left.
  - destruct (decide (ks = [])) as [-> | Hne].
    + cbn. by intros [= <- <-].
    + destruct (exists_last Hne) as (init & k & ->).
      rewrite last_leaf_element.
      apply Forall_app in IH as [_ IHk]. apply Forall_cons in IHk as [IHk _].
      destruct (SlateQuery.last_leaf k) as [x' q'] eqn:Hk.
      intros [= <- <-] Hx. right. split; [done |].
      destruct (IHk x' q' eq_refl Hx) as [[-> ->] | [Hq' Hget]].
      * cbn [children_of get]. rewrite at_index_middle. by destruct x'.
      * cbn [children_of]. destruct q' as [| j q']; [done |].
        rewrite get_step, at_index_middle.
        destruct k as [t a | pr' ks']; [done |]. exact Hget.
Qed.

(** The edge points of an element reached by a path lie at text leaves
    below it. *)
Lemma edge_point_inside kids p pr ks leaf x q :
  get kids p = Some (Element pr ks) ->
  (leaf = SlateQuery.first_leaf \/ leaf = SlateQuery.last_leaf) ->
  leaf (Element pr ks) = (x, q) -> isText x = true ->
  q <> [] /\ get kids (p ++ q) = Some x.
Proof.
  intros Hget Hleaf Hx Htext.
  assert (H : q <> [] /\ get ks q = Some x).
  { destruct Hleaf as [-> | ->];
      [apply first_leaf_get in Hx | apply last_leaf_get in Hx]; try done;
      (destruct Hx as [[_ <-] | H]; [done | exact H]). }
  destruct H as [Hq Hks]. split; [done |].
  by rewrite (get_app kids p q pr ks).
Qed.

End QueryFacts.

Import QueryFacts.

Section OrderingClaims.

Variable deltaInsertToSlateNode : YDelta -> list Node.
Variable dataStringTOJson : string -> BlockData.

Local Abbreviation handleNewBlock :=
  (handleNewBlock deltaInsertToSlateNode dataStringTOJson).
Local Abbreviation processUpdate :=
  (processUpdate deltaInsertToSlateNode dataStringTOJson).
Local Abbreviation processUpdates :=
  (processUpdates deltaInsertToSlateNode dataStringTOJson).
Local Abbreviation applyBlocksYEvent :=
  (applyBlocksYEvent deltaInsertToSlateNode dataStringTOJson).
Local Abbreviation newBlockNode :=
  (newBlockNode deltaInsertToSlateNode dataStringTOJson).

Lemma applyBlocksYEvent_sorted editor event :
  applyBlocksYEvent editor event =
  fst (processUpdates
         (fst (collectUpdates editor (changes_keys event) (keysChanged event)))
         ∅
         (Array_sort deleteFirst
            (omap (updateOf (changes_keys event)) (keysChanged event)))).
Proof.
  unfold applyBlocksYEvent. rewrite <- (collectUpdates_snd editor).
  by destruct (collectUpdates _ _ _).
Qed.

(** X23.  Every batch is processed with all its deletes first, each group
    in the order the map exposes it.  For a batch whose only delete is [A]
    and whose only add is [B], with [A] the first node carrying its id, at
    slot [length pre] of its parent, and [B] assigned by the shared tree to
    that parent and that slot, the resulting editable tree has [B]'s node
    exactly where [A]'s was. *)
Theorem applyBlocksYEvent_deletes_first :
  (forall editor event,
     let updates :=
       omap (updateOf (changes_keys event)) (keysChanged event) in
     applyBlocksYEvent editor event =
     fst (processUpdates
            (fst (collectUpdates editor (changes_keys event) (keysChanged event)))
            ∅
            (List.filter isDelete updates
             ++ List.filter (fun u => negb (isDelete u)) updates)))
  /\
  (forall editor event c pre post prA ksA A B blockB parent,
     children editor = plug c (pre ++ Element prA ksA :: post) ->
     blockId prA = Some A ->
     clean (hasBlockId A) c ->
     absent (hasBlockId A) pre ->
     onlySwap event A B = true ->
     getBlock B (sharedRoot editor) = Some blockB ->
     getBlock (block_parent blockB) (sharedRoot editor) = Some parent ->
     parent_in_sync (getPageId (sharedRoot editor)) c (pre ++ post)
       (block_parent blockB) (sharedIndex (sharedRoot editor) parent B)
       (Z.of_nat (List.length pre)) ->
     children (applyBlocksYEvent editor event) =
     plug c (pre ++ newBlockNode (sharedRoot editor) blockB :: post)).
Proof.
  split.
  - intros editor event updates. rewrite applyBlocksYEvent_sorted.
    by rewrite Array_sort_deleteFirst.
  - intros editor event c pre post prA ksA A B blockB parent
      Hch Hid Hc Hpre Hswap HB Hparent Hsync.
    rewrite applyBlocksYEvent_sorted.
    destruct (onlySwap_sorted event A B Hswap)
      as (vA & vB & n1 & n2 & HvA & HaA & HvB & HaB & -> & Hn1 & Hn2).
    destruct (collectUpdates_fst editor (changes_keys event) (keysChanged event))
      as (Hch1 & Hroot1 & _).
    set (editor1 := fst (collectUpdates editor (changes_keys event)
                           (keysChanged event))) in *.
    unfold processUpdates. cbn [fold_left].
    unfold processUpdate at 2. cbn [upd_key upd_action]. rewrite HaA.
    rewrite (bool_decide_eq_false_2 ("delete" = "add")) by done.
    rewrite (bool_decide_eq_true_2 ("delete" = "delete")) by done.
    rewrite (handleDeleteNode_plug editor1 c pre post prA ksA A)
      by (try done; by rewrite Hch1).
    set (editor2 := with_children editor1 (plug c (pre ++ post))).
    fold (processUpdates editor2 ∅ (n1 ++ {| upd_key := B; upd_action := action vB;
                                             upd_value := vB |} :: n2)).
    rewrite processUpdates_app, (processUpdates_noops _ _ editor2 ∅ n1 Hn1).
    unfold processUpdates. cbn [fold_left].
    unfold processUpdate at 2. cbn [upd_key upd_action]. rewrite HaB.
    rewrite (bool_decide_eq_true_2 ("add" = "add")) by done.
    destruct (handleNewBlock editor2 B ∅) as [editor3 keyPath3] eqn:Hnew.
    fold (processUpdates editor3 keyPath3 n2).
    rewrite (processUpdates_noops _ _ editor3 keyPath3 n2 Hn2). cbn [fst].
    assert (H3 : editor3 = fst (handleNewBlock editor2 B ∅)) by (by rewrite Hnew).
    rewrite H3.
    rewrite (handleNewBlock_plug _ _ editor2 ∅ c pre post B blockB parent);
      unfold editor2; cbn [children sharedRoot with_children];
      rewrite ?Hroot1; done.
Qed.

End OrderingClaims.

(** ** What the translator does for one change *)

Section TranslatorClaims.

Variable deltaInsertToSlateNode : YDelta -> list Node.
Variable dataStringTOJson : string -> BlockData.
Variable applyTextYEvent : YjsEditor -> string -> YEvent -> YjsEditor.

Local Abbreviation blockToSlateNode := (blockToSlateNode dataStringTOJson).
Local Abbreviation handleNewBlock :=
  (handleNewBlock deltaInsertToSlateNode dataStringTOJson).
Local Abbreviation processUpdate :=
  (processUpdate deltaInsertToSlateNode dataStringTOJson).
Local Abbreviation processUpdates :=
  (processUpdates deltaInsertToSlateNode dataStringTOJson).
Local Abbreviation applyBlocksYEvent :=
  (applyBlocksYEvent deltaInsertToSlateNode dataStringTOJson).
Local Abbreviation newBlockNode :=
  (newBlockNode deltaInsertToSlateNode dataStringTOJson).
Local Abbreviation translateYEvent :=
  (translateYEvent deltaInsertToSlateNode dataStringTOJson applyTextYEvent).
Local Abbreviation translateYEvents :=
  (translateYEvents deltaInsertToSlateNode dataStringTOJson applyTextYEvent).

Lemma processUpdates_cons editor keyPath u l :
  processUpdates editor keyPath (u :: l) =
  processUpdates (fst (processUpdate (editor, keyPath) u))
                 (snd (processUpdate (editor, keyPath) u)) l.
Proof.
  unfold processUpdates. cbn [fold_left]. by destruct (processUpdate _ _).
Qed.



Lemma processUpdates_untouched ks0 l :
  Forall (fun u => upd_action u <> "add"
                   /\ (upd_action u = "delete" -> absent (hasBlockId (upd_key u)) ks0)) l ->
  forall editor keyPath,
    children editor = ks0 ->
    children (fst (processUpdates editor keyPath l)) = ks0
    /\ sharedRoot (fst (processUpdates editor keyPath l)) = sharedRoot editor.
Proof.
  induction 1 as [| u l [Hadd Hdel] Hl IH]; intros editor keyPath Hks; [done |].
  rewrite processUpdates_cons. unfold processUpdate.
  rewrite (bool_decide_eq_false_2 _ Hadd).
  destruct (decide (upd_action u = "delete")) as [Hd | Hd].
  - rewrite (bool_decide_eq_true_2 _ Hd).
    rewrite handleDeleteNode_absent by (rewrite Hks; auto).
    apply (IH (Log_error editor _) keyPath Hks).
  - rewrite (bool_decide_eq_false_2 _ Hd).
    assert (Hsame : (if bool_decide (upd_action u = "update")
                     then (editor, keyPath) else (editor, keyPath))
                    = (editor, keyPath)) by (by destruct (bool_decide _)).
    rewrite Hsame. apply (IH editor keyPath Hks).
Qed.

Lemma translateYEvent_blocks editor event :
  event_path event = ["document"; "blocks"] ->
  translateYEvent editor event = applyBlocksYEvent editor event.
Proof. intros H. unfold translateYEvent. by rewrite H. Qed.

(** One delete: the shared root stays, no count grows, and an id that the
    tree carried at most once is carried no more. *)
Lemma handleDeleteNode_counts editor k :
  sharedRoot (handleDeleteNode editor k) = sharedRoot editor
  /\ (forall m', (count_in m' (children (handleDeleteNode editor k))
                 <= count_in m' (children editor))%nat)
  /\ ((count_in (hasBlockId k) (children editor) <= 1)%nat ->
      count_in (hasBlockId k) (children (handleDeleteNode editor k)) = 0%nat).
Proof.
  split; [apply handleDeleteNode_sharedRoot |].
  unfold handleDeleteNode.
  destruct (nodes_first (hasBlockId k) (children editor)) as [[n p] |] eqn:Hf.
  - destruct (nodes_first_remove _ _ _ _ Hf) as (ks' & -> & Hlt & Hle).
    cbn [children with_children]. split; [done |]. lia.
  - cbn [children Log_error]. split; [done |]. intros _.
    by apply absent_count_zero.
Qed.

(** A run of changes without adds: no count grows, and every deleted id
    that the tree carried at most once is carried no more. *)
Lemma processUpdates_deletes l :
  Forall (fun u => upd_action u <> "add") l ->
  forall editor keyPath,
    let result := fst (processUpdates editor keyPath l) in
    sharedRoot result = sharedRoot editor
    /\ (forall m', (count_in m' (children result)
                   <= count_in m' (children editor))%nat)
    /\ Forall (fun u =>
                upd_action u = "delete" ->
                (count_in (hasBlockId (upd_key u)) (children editor) <= 1)%nat ->
                count_in (hasBlockId (upd_key u)) (children result) = 0%nat) l.
Proof.
  induction 1 as [| u l Hadd Hl IH]; intros editor keyPath; [done |].
  cbn zeta. rewrite processUpdates_cons. unfold processUpdate.
  rewrite (bool_decide_eq_false_2 _ Hadd).
  destruct (decide (upd_action u = "delete")) as [Hd | Hd].
  - rewrite (bool_decide_eq_true_2 _ Hd). cbn [fst snd].
    destruct (handleDeleteNode_counts editor (upd_key u)) as (Hr & Hle & Hzero).
    destruct (IH (handleDeleteNode editor (upd_key u)) keyPath)
      as (Hr' & Hle' & Hall').
    split; [by rewrite Hr' |]. split.
    + intros m'. specialize (Hle m'). specialize (Hle' m'). lia.
    + constructor.
      * intros _ H1. specialize (Hzero H1).
        specialize (Hle' (hasBlockId (upd_key u))). lia.
      * eapply Forall_impl; [exact Hall' |]. intros u' Hu' Hdu' H1.
        apply Hu'; [done |]. specialize (Hle (hasBlockId (upd_key u'))). lia.
  - rewrite (bool_decide_eq_false_2 _ Hd).
    assert (Hsame : (if bool_decide (upd_action u = "update")
                     then (editor, keyPath) else (editor, keyPath))
                    = (editor, keyPath)) by (by destruct (bool_decide _)).
    rewrite Hsame. cbn [fst snd].
    destruct (IH editor keyPath) as (Hr' & Hle' & Hall').
    split; [done |]. split; [done |]. constructor; done.
Qed.

Lemma sorted_Forall (P : BlockUpdate -> Prop) l :
  Forall P l <-> Forall P (Array_sort deleteFirst l).
Proof.
  rewrite Array_sort_deleteFirst, Forall_app, !Forall_forall.
  split.
  - intros H. split; intros u Hu; apply H;
      apply list_elem_of_In in Hu; apply List.filter_In in Hu as [Hu _];
      by apply list_elem_of_In.
  - intros [H1 H2] u Hu. apply list_elem_of_In in Hu.
    destruct (isDelete u) eqn:Hd.
    + apply H1. apply list_elem_of_In. apply List.filter_In. by split.
    + apply H2. apply list_elem_of_In. apply List.filter_In. split; [done |].
      by rewrite Hd.
Qed.

Lemma applyBlocksYEvent_deletes editor event :
  Forall (fun u => upd_action u <> "add")
         (omap (updateOf (changes_keys event)) (keysChanged event)) ->
  let result := applyBlocksYEvent editor event in
  sharedRoot result = sharedRoot editor
  /\ (forall m', (count_in m' (children result)
                 <= count_in m' (children editor))%nat)
  /\ Forall (fun u =>
              upd_action u = "delete" ->
              (count_in (hasBlockId (upd_key u)) (children editor) <= 1)%nat ->
              count_in (hasBlockId (upd_key u)) (children result) = 0%nat)
            (omap (updateOf (changes_keys event)) (keysChanged event)).
Proof.
  intros Hadd result. unfold result. rewrite applyBlocksYEvent_sorted.
  destruct (collectUpdates_fst editor (changes_keys event) (keysChanged event))
    as (Hc & Hr & _).
  apply sorted_Forall in Hadd.
  destruct (processUpdates_deletes _ Hadd
              (fst (collectUpdates editor (changes_keys event) (keysChanged event)))
              ∅) as (Hr' & Hle' & Hall').
  rewrite Hc, Hr in *. split; [done |]. split; [done |].
  by apply sorted_Forall.
Qed.

(** An event with an ignored path leaves the editor as it is. *)
Lemma translateYEvent_ignored editor event :
  ignoredPath (event_path event) -> translateYEvent editor event = editor.
Proof.
  intros (H2 & H3 & H4). unfold translateYEvent.
  rewrite (bool_decide_eq_false_2 _ H2 : isBlocksPath _ = false).
  destruct (event_path event) as [| a [| b [| c [| d [| e rest]]]]]; try done.
  - cbn [blockPathId textPathId].
    destruct (bool_decide_reflect (a = "document")) as [-> |]; [| done].
    destruct (bool_decide_reflect (b = "blocks")) as [-> |]; [| done].
    by destruct (H3 c).
  - cbn [blockPathId textPathId].
    destruct (bool_decide_reflect (a = "document")) as [-> |]; [| done].
    destruct (bool_decide_reflect (b = "meta")) as [-> |]; [| done].
    destruct (bool_decide_reflect (c = "text_map")) as [-> |]; [| done].
    by destruct (H4 d).
Qed.

Lemma translateYEvents_deletes events :
  Forall withoutAdds events ->
  forall editor,
    let result := translateYEvents editor events in
    sharedRoot result = sharedRoot editor
    /\ (forall m', (count_in m' (children result)
                   <= count_in m' (children editor))%nat)
    /\ Forall (fun event =>
                addFree event ->
                Forall (fun u =>
                  upd_action u = "delete" ->
                  (count_in (hasBlockId (upd_key u)) (children editor) <= 1)%nat ->
                  count_in (hasBlockId (upd_key u)) (children result) = 0%nat)
                  (omap (updateOf (changes_keys event)) (keysChanged event)))
              events.
Proof.
  induction 1 as [| event events Hevent Hevents IH]; intros editor; [done |].
  cbn zeta. unfold translateYEvents. cbn [fold_left].
  fold (translateYEvents (translateYEvent editor event) events).
  destruct Hevent as [[Hpath Hadd] | Hignored].
  - assert (Hstep : translateYEvent editor event = applyBlocksYEvent editor event).
    { unfold translateYEvent. by rewrite Hpath. }
    rewrite Hstep.
    destruct (applyBlocksYEvent_deletes editor event Hadd) as (Hr & Hle & Hall).
    destruct (IH (applyBlocksYEvent editor event)) as (Hr' & Hle' & Hall').
    split; [by rewrite Hr' |]. split.
    + intros m'. specialize (Hle m'). specialize (Hle' m'). lia.
    + constructor.
      * intros _. eapply Forall_impl; [exact Hall |]. intros u Hu Hd H1.
        specialize (Hu Hd H1). specialize (Hle' (hasBlockId (upd_key u))). lia.
      * eapply Forall_impl; [exact Hall' |]. intros event' Hev' Hfree'.
        eapply Forall_impl; [exact (Hev' Hfree') |]. intros u Hu Hd H1.
        apply Hu; [done |]. specialize (Hle (hasBlockId (upd_key u))). lia.
  - rewrite (translateYEvent_ignored editor event Hignored).
    destruct (IH editor) as (Hr' & Hle' & Hall').
    split; [done |]. split; [done |].
    constructor; [| done].
    intros [Hpath _]. destruct Hignored as [Hne _]. by destruct Hne.
Qed.

(** An add that is not refused puts a node carrying the block's id into
    the tree, whatever the tree shows already. *)
Lemma handleNewBlock_gains_node editor key keyPath block :
  getBlock key (sharedRoot editor) = Some block ->
  console (fst (handleNewBlock editor key keyPath)) = console editor ->
  (count_in (hasBlockId (block_id block)) (children editor)
   < count_in (hasBlockId (block_id block))
       (children (fst (handleNewBlock editor key keyPath))))%nat.
Proof.
  intros Hb. unfold handleNewBlock. rewrite Hb.
  assert (Hlog : forall msg, console (Log_error editor msg) = console editor ->
                             False).
  { intros msg H. unfold Log_error in H. cbn [console] in H.
    apply (f_equal (@List.length _)) in H. rewrite length_app in H.
    cbn in H. lia. }
  destruct (getBlock (block_parent block) (sharedRoot editor)) as [parent |];
    [| intros H; by destruct (Hlog _ H)].
  destruct (newBlockPath _ _ _ _ _) as [path |];
    [| intros H; by destruct (Hlog _ H)].
  destruct (insert_node _ _ _) as [ks |] eqn:Hins;
    [| intros H; by destruct (Hlog _ H)].
  intros _. cbn [fst children with_children].
  apply insert_node_located in Hins
    as (c & pre & post & i & -> & -> & _ & _ & _).
  rewrite (count_in_plug _ c (pre ++ _ :: post)), (count_in_plug _ c (pre ++ post)).
  rewrite !count_in_app. cbn [count_in].
  assert (Hnode : (1 <= count_in_node (hasBlockId (block_id block))
                          (newBlockNode (sharedRoot editor) block))%nat).
  { unfold newBlockNode.
    destruct (getText _ _); rewrite count_in_node_element;
      rewrite hasBlockId_true by done; lia. }
  lia.
Qed.

(** C4 (amended).  Translation is idempotent for batches without adds:
    block-map events none of whose changes is an add, together with the
    events the translator ignores.  A delete of a block id that no element
    of the editable tree carries leaves the tree as it is; hence, on a tree
    that carries every block id at most once, translating such a batch a
    second time produces no further change.  An add is not guarded by
    presence: whenever [handleNewBlock] does not refuse it, the tree gains
    a node carrying the block's id, also when it shows that id already. *)
Theorem translateYEvents_deletes_idempotent :
  (forall editor events,
     Forall (fun event =>
               ignoredPath (event_path event)
               \/ (event_path event = ["document"; "blocks"]
                   /\ Forall (fun u => upd_action u <> "add"
                                       /\ (upd_action u = "delete" ->
                                           absent (hasBlockId (upd_key u))
                                                  (children editor)))
                             (omap (updateOf (changes_keys event))
                                   (keysChanged event))))
            events ->
     children (translateYEvents editor events) = children editor
     /\ sharedRoot (translateYEvents editor events) = sharedRoot editor)
  /\ (forall editor events,
        Forall withoutAdds events ->
        (forall k, (count_in (hasBlockId k) (children editor) <= 1)%nat) ->
        children (translateYEvents (translateYEvents editor events) events)
        = children (translateYEvents editor events))
  /\ (forall editor key keyPath block,
        getBlock key (sharedRoot editor) = Some block ->
        console (fst (handleNewBlock editor key keyPath)) = console editor ->
        (count_in (hasBlockId (block_id block)) (children editor)
         < count_in (hasBlockId (block_id block))
             (children (fst (handleNewBlock editor key keyPath))))%nat).
Proof.
  assert (Hfirst : forall editor events,
     Forall (fun event =>
               ignoredPath (event_path event)
               \/ (event_path event = ["document"; "blocks"]
                   /\ Forall (fun u => upd_action u <> "add"
                                       /\ (upd_action u = "delete" ->
                                           absent (hasBlockId (upd_key u))
                                                  (children editor)))
                             (omap (updateOf (changes_keys event))
                                   (keysChanged event))))
            events ->
     children (translateYEvents editor events) = children editor
     /\ sharedRoot (translateYEvents editor events) = sharedRoot editor).
  { intros editor events.
    remember (children editor) as ks0 eqn:Hks0.
    remember (sharedRoot editor) as root0 eqn:Hroot0.
    intros H. revert editor Hks0 Hroot0.
    induction H as [| event events Hevent Hevents IH];
      intros editor Hks0 Hroot0; [done |].
    unfold translateYEvents. cbn [fold_left].
    fold (translateYEvents (translateYEvent editor event) events).
    destruct Hevent as [Hignored | [Hpath Hus]].
    - rewrite (translateYEvent_ignored editor event Hignored). by apply IH.
    - rewrite (translateYEvent_blocks editor event Hpath).
      assert (Hstep : children (applyBlocksYEvent editor event) = ks0
                      /\ sharedRoot (applyBlocksYEvent editor event) = root0).
      { rewrite applyBlocksYEvent_sorted.
        destruct (collectUpdates_fst editor (changes_keys event)
                    (keysChanged event)) as (Hc & Hr & _).
        rewrite Hroot0, <- Hr.
        apply processUpdates_untouched; [| by rewrite Hc].
        apply (proj1 (sorted_Forall _ _)). exact Hus. }
      destruct Hstep as [Hc Hr]. apply IH; by symmetry. }
  split; [exact Hfirst |]. split; [| apply handleNewBlock_gains_node].
  intros editor events Hfree Hdistinct.
  destruct (translateYEvents_deletes events Hfree editor) as (Hr & Hle & Hall).
  apply Hfirst.
  rewrite Forall_forall in *. intros event Hev.
  destruct (Hfree event Hev) as [[Hpath Hadd] | Hignored]; [right | by left].
  split; [done |].
  specialize (Hall event Hev (conj Hpath Hadd)).
  rewrite Forall_forall in *. intros u Hu. split; [by apply Hadd |].
  intros Hd. apply count_zero_absent. by apply Hall.
Qed.

Lemma processUpdates_skip_updates editor keyPath l :
  processUpdates editor keyPath l =
  processUpdates editor keyPath (List.filter (fun u => negb (isUpdate u)) l).
Proof.
  revert editor keyPath. induction l as [| u l IH]; intros editor keyPath; [done |].
  cbn [List.filter]. destruct (isUpdate u) eqn:Hu; cbn [negb].
  - rewrite processUpdates_cons, processUpdate_noop; [apply IH |].
    apply bool_decide_eq_true in Hu. unfold isNoop. rewrite Hu. done.
  - rewrite !processUpdates_cons. apply IH.
Qed.

Lemma filter_comm {A : Type} (f g : A -> bool) (l : list A) :
  List.filter f (List.filter g l) = List.filter g (List.filter f l).
Proof.
  induction l as [| x l IH]; [done |]. cbn [List.filter].
  destruct (f x) eqn:Hf, (g x) eqn:Hg; cbn [List.filter];
    rewrite ?Hf, ?Hg, IH; done.
Qed.

Lemma omap_dropUpdates keys ks :
  omap (updateOf keys)
    (List.filter (fun k => negb (from_option isUpdate false (updateOf keys k))) ks)
  = List.filter (fun u => negb (isUpdate u)) (omap (updateOf keys) ks).
Proof.
  induction ks as [| k ks IH]; [done |]. cbn [List.filter omap list_omap].
  destruct (updateOf keys k) as [u |] eqn:Hk; cbn [from_option].
  - destruct (isUpdate u) eqn:Hu; cbn [negb List.filter omap list_omap];
      rewrite ?Hk, ?Hu; cbn [negb]; by rewrite IH.
  - cbn [negb omap list_omap]. by rewrite Hk.
Qed.

Lemma collectUpdates_dropUpdates editor keys ks :
  fst (collectUpdates editor keys
         (List.filter (fun k => negb (from_option isUpdate false (updateOf keys k))) ks))
  = fst (collectUpdates editor keys ks).
Proof.
  revert editor. induction ks as [| k ks IH]; intros editor; [done |].
  cbn [List.filter]. unfold updateOf at 1.
  destruct (keys !! k) as [v |] eqn:Hk; cbn [fmap option_fmap option_map from_option].
  - destruct (isUpdate _); cbn [negb collectUpdates]; rewrite ?Hk.
    + specialize (IH editor). by destruct (collectUpdates editor keys ks).
    + specialize (IH editor).
      destruct (collectUpdates editor keys ks), (collectUpdates editor keys _).
      done.
  - cbn [negb collectUpdates]. rewrite Hk. apply IH.
Qed.

(** C6 (amended).  A block-map change tagged 'update' is skipped: the
    iteration leaves the editor and the path cache as they are, so a batch
    gives the same editor with or without its 'update' entries, and a batch
    of 'update' entries alone changes nothing, the [data] of the nodes
    included.  The refresh of [data] is what the single-block event does:
    the first node carrying the id gets the block's parsed data, at the same
    path and with the same children. *)
Theorem applyBlocksYEvent_skips_updates :
  (forall st u, upd_action u = "update" -> processUpdate st u = st)
  /\ (forall editor event,
        applyBlocksYEvent editor event
        = applyBlocksYEvent editor (dropUpdates event))
  /\ (forall editor event,
        Forall (fun u => upd_action u = "update")
               (omap (updateOf (changes_keys event)) (keysChanged event)) ->
        Forall (fun k => is_Some (changes_keys event !! k)) (keysChanged event) ->
        applyBlocksYEvent editor event = editor)
  /\ (forall editor blockId event block node path,
        target event = Some block ->
        findSlateEntryByBlockId editor blockId = Some (node, path) ->
        exists ks,
          applyUpdateBlockYEvent dataStringTOJson editor blockId event
          = with_children editor ks
          /\ get ks path
             = Some (set_data node (dataStringTOJson (block_data block)))).
Proof.
  split; [| split; [| split]].
  - intros st u Hu. apply processUpdate_noop. unfold isNoop. by rewrite Hu.
  - intros editor event. rewrite !applyBlocksYEvent_sorted.
    unfold dropUpdates. cbn [changes_keys keysChanged].
    rewrite collectUpdates_dropUpdates, omap_dropUpdates.
    rewrite !Array_sort_deleteFirst.
    rewrite (processUpdates_skip_updates _ _ (_ ++ _)).
    rewrite List.filter_app.
    by rewrite (filter_comm _ isDelete), (filter_comm _ (fun u => negb (isDelete u))).
  - intros editor event Hall Hfound. rewrite applyBlocksYEvent_sorted.
    rewrite collectUpdates_all_found by done.
    rewrite processUpdates_noops; [done |].
    rewrite Array_sort_deleteFirst. apply Forall_app.
    rewrite !Forall_forall in *. split; intros u Hu;
      apply list_elem_of_In in Hu; apply List.filter_In in Hu as [Hu _];
      apply list_elem_of_In in Hu; specialize (Hall u Hu);
      unfold isNoop; by rewrite Hall.
  - intros editor blockId event block node path Ht Hentry.
    destruct (nodes_first_set_data _ (dataStringTOJson (block_data block))
                _ _ _ Hentry) as (ks & Hset & Hget).
    exists ks. split; [| done].
    unfold applyUpdateBlockYEvent. rewrite Ht, Hentry. by rewrite Hset.
Qed.

(** C8.  An add whose parent is neither the page nor in the editable tree
    is decided by the path cache alone: without a cached path it is logged
    and skipped, leaving tree and cache untouched, and the remaining
    changes are processed from that state; with a cached path the block is
    inserted at that path extended by its shared index plus one. *)
Theorem handleNewBlock_parent_not_in_tree editor key keyPath block parent :
  getBlock key (sharedRoot editor) = Some block ->
  getBlock (block_parent block) (sharedRoot editor) = Some parent ->
  block_parent block <> getPageId (sharedRoot editor) ->
  absent (hasBlockId (block_parent block)) (children editor) ->
  let index := sharedIndex (sharedRoot editor) parent key in
  let skipped := Log_error editor "Parent block not found in Slate editor" in
  match keyPath !! block_parent block with
  | None =>
      handleNewBlock editor key keyPath = (skipped, keyPath)
      /\ children skipped = children editor
      /\ forall v rest,
           processUpdates editor keyPath
             ({| upd_key := key; upd_action := "add"; upd_value := v |} :: rest)
           = processUpdates skipped keyPath rest
  | Some cached =>
      handleNewBlock editor key keyPath =
      match insert_node (children editor) (cached ++ [index + 1])
              (newBlockNode (sharedRoot editor) block) with
      | Some ks =>
          (with_children editor ks, <[key := cached ++ [index + 1]]> keyPath)
      | None => (Log_error editor "Failed to insert block", keyPath)
      end
  end.
Proof.
  intros Hb Hp Hne Habs index skipped.
  assert (Hnew : handleNewBlock editor key keyPath =
            match keyPath !! block_parent block with
            | Some cached =>
                match insert_node (children editor) (cached ++ [index + 1])
                        (newBlockNode (sharedRoot editor) block) with
                | Some ks =>
                    (with_children editor ks,
                     <[key := cached ++ [index + 1]]> keyPath)
                | None => (Log_error editor "Failed to insert block", keyPath)
                end
            | None => (skipped, keyPath)
            end).
  { unfold handleNewBlock. rewrite Hb, Hp. unfold newBlockPath.
    rewrite (bool_decide_eq_true_2 _ Hne).
    unfold absent, nodes_first in *. rewrite Habs.
    fold (sharedIndex (sharedRoot editor) parent key). fold index.
    by destruct (keyPath !! block_parent block). }
  destruct (keyPath !! block_parent block) as [cached |] eqn:Hk; [done |].
  split; [done |]. split; [done |].
  intros v rest. rewrite processUpdates_cons. unfold processUpdate.
  cbn [upd_action upd_key]. rewrite (bool_decide_eq_true_2 ("add" = "add")) by done.
  by rewrite Hnew.
Qed.

Lemma findIndex_from_found (k : string) (l : list string) (i : Z) :
  k ∈ l -> i <= findIndex_from (String.eqb k) l i.
Proof.
  revert i. induction l as [| x l IH]; intros i Hin; [by apply elem_of_nil in Hin |].
  cbn [findIndex_from]. destruct (String.eqb_spec k x) as [-> | Hne]; [lia |].
  apply elem_of_cons in Hin as [-> | Hin]; [done |].
  specialize (IH (i + 1) Hin). lia.
Qed.

Lemma parentHasTextNode_first (silblings : list Node) :
  parentHasTextNode silblings =
  if (List.length silblings =? 0)%nat then true else firstChildIsText silblings.
Proof. by destruct silblings as [| [t a | pr ks] rest]. Qed.

(** C9 (amended).  For a nested add whose parent is located in the
    editable tree and whose block is listed among its parent's shared
    children, the child index is the shared index plus one exactly when the
    parent's first child is a text element, clamped to the number of the
    parent's children; it lies within the parent, and the insertion
    succeeds. *)
Theorem handleNewBlock_nested_index_in_bounds
    editor key keyPath block parent parentNode parentPath :
  getBlock key (sharedRoot editor) = Some block ->
  getBlock (block_parent block) (sharedRoot editor) = Some parent ->
  block_parent block <> getPageId (sharedRoot editor) ->
  nodes_first (hasBlockId (block_parent block)) (children editor)
    = Some (parentNode, parentPath) ->
  key ∈ getChildrenArray (block_children parent) (sharedRoot editor) ->
  let silblings := children_of parentNode in
  let childrenLength := Z.of_nat (List.length silblings) in
  let index := sharedIndex (sharedRoot editor) parent key in
  let child := Z.min (index + (if firstChildIsText silblings then 1 else 0))
                     childrenLength in
  0 <= child <= childrenLength
  /\ exists ks,
       insert_node (children editor) (parentPath ++ [child])
         (newBlockNode (sharedRoot editor) block) = Some ks
       /\ handleNewBlock editor key keyPath =
          (with_children editor ks, <[key := parentPath ++ [child]]> keyPath).
Proof.
  intros Hb Hp Hne Hfound Hin silblings childrenLength index child.
  assert (Hidx : 0 <= index) by (by apply findIndex_from_found).
  assert (Hchild : child = Z.min (index + (if parentHasTextNode silblings
                                           then 1 else 0)) childrenLength).
  { unfold child. rewrite parentHasTextNode_first. unfold childrenLength.
    destruct (Nat.eqb_spec (List.length silblings) 0) as [H0 | H0]; [| done].
    rewrite H0. clearbody index. destruct (firstChildIsText silblings); lia. }
  assert (Hbounds : 0 <= child <= childrenLength).
  { unfold child, childrenLength. clearbody index.
    destruct (firstChildIsText silblings); lia. }
  split; [done |].
  destruct (nodes_first_insertable _ _ _ _ child
              (newBlockNode (sharedRoot editor) block) Hfound)
    as [ks Hks]; [exact (proj2 Hbounds) |].
  exists ks. split; [done |].
  unfold handleNewBlock. rewrite Hb, Hp. unfold newBlockPath.
  rewrite (bool_decide_eq_true_2 _ Hne), Hfound.
  fold (sharedIndex (sharedRoot editor) parent key). fold index.
  fold silblings. fold childrenLength. rewrite <- Hchild. by rewrite Hks.
Qed.

End TranslatorClaims.

(** ** The structural commands *)

Section CommandClaims.

Variable LIST_BLOCK_TYPES : list BlockType.
Variable getBlockEntry : YjsEditor -> Point -> option (Node * Path).
Variable handleNonParagraphBlockBackspaceAndEnterWithTxn :
  YjsEditor -> YBlock -> Point -> YjsEditor.
Variable handleLiftBlockOnBackspaceAndEnterWithTxn :
  YjsEditor -> YBlock -> Point -> YjsEditor * bool.
Variable handleMergeBlockBackwardWithTxn : YjsEditor -> Node -> Point -> YjsEditor.
Variable removeRangeWithTxn : YjsEditor -> Range -> YjsEditor.
Variable Transforms_collapse_start : YjsEditor -> YjsEditor.
Variable getSelectionOrThrow : YjsEditor -> option Range -> option Range.
Variable findNearestValidSelection : YjsEditor -> option Range -> option Range.
Variable isValidSelection : YjsEditor -> Range -> bool.
Variable getPreviousSiblingBlock : YSharedRoot -> option YBlock -> option string.
Variable hasRange : YjsEditor -> Range -> bool.
Variable executeDeleteBlock : YjsEditor -> string -> YjsEditor.
Variable addBlock :
  YjsEditor -> BlockType -> BlockData -> YBlock -> Z -> YjsEditor * option string.

Local Abbreviation deleteBlockBackward_step :=
  (CustomEditor.deleteBlockBackward_step LIST_BLOCK_TYPES getBlockEntry
     handleNonParagraphBlockBackspaceAndEnterWithTxn
     handleLiftBlockOnBackspaceAndEnterWithTxn
     handleMergeBlockBackwardWithTxn removeRangeWithTxn
     Transforms_collapse_start getSelectionOrThrow).
Local Abbreviation deleteBlockBackward :=
  (CustomEditor.deleteBlockBackward LIST_BLOCK_TYPES getBlockEntry
     handleNonParagraphBlockBackspaceAndEnterWithTxn
     handleLiftBlockOnBackspaceAndEnterWithTxn
     handleMergeBlockBackwardWithTxn removeRangeWithTxn
     Transforms_collapse_start getSelectionOrThrow).
Local Abbreviation applyTabSelection :=
  (CustomEditor.applyTabSelection findNearestValidSelection isValidSelection).
Local Abbreviation restoreTabSelection :=
  (CustomEditor.restoreTabSelection findNearestValidSelection isValidSelection).
Local Abbreviation fallbackOrder :=
  (CustomEditor.fallbackOrder findNearestValidSelection isValidSelection).
Local Abbreviation deleteBlockCursor :=
  (CustomEditor.deleteBlockCursor getPreviousSiblingBlock).
Local Abbreviation placeCursor := (CustomEditor.placeCursor hasRange).
Local Abbreviation deleteBlock :=
  (CustomEditor.deleteBlock getPreviousSiblingBlock hasRange
     executeDeleteBlock addBlock).

Local Abbreviation quoteListGuard :=
  (CustomEditor.quoteListGuard LIST_BLOCK_TYPES).

(** C2.  With a collapsed cursor in a resolved block, the guards are tried
    in the order special case, lift, conversion, merge, and the first that
    matches produces the result: (1) a non-paragraph list-type block under
    a quote is handed to the non-paragraph handler; (2) otherwise a block
    at depth greater than one that the lift handler lifts is done;
    (3) otherwise a non-paragraph block is handed to the non-paragraph
    handler; (4) otherwise the block is merged backward.  In (3) and (4)
    the state is the one left by the lift attempt, if one was made. *)
Theorem deleteBlockBackward_guard_priority editor at_ newAt node path block :
  getSelectionOrThrow editor at_ = Some newAt ->
  anchor newAt = focus newAt ->
  getBlockEntry editor (anchor newAt) = Some (node, path) ->
  getBlockOfNode node (sharedRoot editor) = Some block ->
  let point := anchor newAt in
  let parent := getParentOfNode node (sharedRoot editor) in
  let nested := 1 < Z.of_nat (List.length path) in
  let attempt := handleLiftBlockOnBackspaceAndEnterWithTxn editor block point in
  let afterLift :=
    if bool_decide nested then fst attempt else editor in
  let lifted := nested /\ snd attempt = true in
  (quoteListGuard block parent ->
     deleteBlockBackward_step editor at_ =
     Some (handleNonParagraphBlockBackspaceAndEnterWithTxn editor block point,
           CustomEditor.QuoteListConversion))
  /\ (~ quoteListGuard block parent -> lifted ->
        deleteBlockBackward_step editor at_ =
        Some (fst attempt, CustomEditor.Lifted))
  /\ (~ quoteListGuard block parent -> ~ lifted ->
        block_type block <> Paragraph ->
        deleteBlockBackward_step editor at_ =
        Some (handleNonParagraphBlockBackspaceAndEnterWithTxn
                afterLift block point,
              CustomEditor.ParagraphConversion))
  /\ (~ quoteListGuard block parent -> ~ lifted ->
        block_type block = Paragraph ->
        deleteBlockBackward_step editor at_ =
        Some (handleMergeBlockBackwardWithTxn afterLift node point,
              CustomEditor.MergedBackward)).
Proof.
  intros Hsel Hcol Hentry Hblock point parent nested attempt afterLift lifted.
  unfold deleteBlockBackward_step, CustomEditor.deleteBlockBackward_step.
  rewrite Hsel. unfold isCollapsed. rewrite (bool_decide_eq_true_2 _ Hcol).
  rewrite Hentry, Hblock. fold point parent.
  unfold CustomEditor.quoteListGuard, lifted, afterLift. fold attempt. clearbody attempt.
  rewrite <- andb_assoc, <- !bool_decide_and.
  split; [| split; [| split]].
  - intros Hg. by rewrite (bool_decide_eq_true_2 _ Hg).
  - intros Hg [Hn Hl]. rewrite (bool_decide_eq_false_2 _ Hg).
    rewrite (bool_decide_eq_true_2 _ Hn).
    destruct attempt as [e1 l]. cbn [fst snd] in *. by rewrite Hl.
  - intros Hg Hnl Hnp. rewrite (bool_decide_eq_false_2 _ Hg).
    rewrite (bool_decide_eq_true_2 _ Hnp).
    destruct (decide nested) as [Hn | Hn].
    + rewrite !(bool_decide_eq_true_2 _ Hn).
      destruct attempt as [e1 [|]]; cbn [fst snd] in *; [| done].
      exfalso. apply Hnl. by split.
    + by rewrite !(bool_decide_eq_false_2 _ Hn).
  - intros Hg Hnl Hp. rewrite (bool_decide_eq_false_2 _ Hg).
    rewrite (bool_decide_eq_false_2 (block_type block <> Paragraph))
      by (intros H; by apply H).
    destruct (decide nested) as [Hn | Hn].
    + rewrite !(bool_decide_eq_true_2 _ Hn).
      destruct attempt as [e1 [|]]; cbn [fst snd] in *; [| done].
      exfalso. apply Hnl. by split.
    + by rewrite !(bool_decide_eq_false_2 _ Hn).
Qed.

(** C10.  With a collapsed cursor, when the block entry at the cursor
    cannot be resolved, or the resolved node's block is no longer in the
    shared root, delete-backward returns normally with one warning logged:
    editable tree, shared tree and selection are as before. *)
Theorem deleteBlockBackward_unresolved_returns editor at_ newAt :
  getSelectionOrThrow editor at_ = Some newAt ->
  anchor newAt = focus newAt ->
  (getBlockEntry editor (anchor newAt) = None
   \/ exists node path,
        getBlockEntry editor (anchor newAt) = Some (node, path)
        /\ getBlockOfNode node (sharedRoot editor) = None) ->
  exists result msg,
    deleteBlockBackward editor at_ = Some result
    /\ children result = children editor
    /\ sharedRoot result = sharedRoot editor
    /\ selection result = selection editor
    /\ console result = console editor ++ [Warn msg].
Proof.
  intros Hsel Hcol Hcase.
  unfold deleteBlockBackward, CustomEditor.deleteBlockBackward,
    CustomEditor.deleteBlockBackward_step.
  rewrite Hsel. unfold isCollapsed. rewrite (bool_decide_eq_true_2 _ Hcol).
  destruct Hcase as [Hnone | (node & path & Hentry & Hblock)].
  - rewrite Hnone. by exists (Log_warn editor "Block not found"), "Block not found".
  - rewrite Hentry, Hblock.
    by exists (Log_warn editor "Block no longer exists in shared root"),
              "Block no longer exists in shared root".
Qed.

(** C7.  The editor arrives at the tail of [tabEvent] deselected (l.270)
    and with a new start block path.  When the recombined selection is
    missing or fails the validity check, the selection that the tail sets
    is the first one that the four strategies yield in their order: nearest
    valid selection from the calculated one, nearest valid selection from
    the original one, start of the new start block, any valid selection of
    the document.  When none yields one, the selection stays unset and the
    last entry of the log is the warning about it.  Tree and shared root
    are not touched.  Logging is taken not to influence the two selection
    helpers. *)
Theorem restoreTabSelection_fallback_order
    editor newStartBlockPath newEndBlockPath startAtPath endAtPath
    startAtOffset endAtOffset originalSelection :
  (forall e msg candidate,
     findNearestValidSelection (Log_warn e msg) candidate
     = findNearestValidSelection e candidate) ->
  (forall e msg range,
     isValidSelection (Log_warn e msg) range = isValidSelection e range) ->
  selection editor = None ->
  newStartBlockPath <> [] ->
  let target :=
    CustomEditor.recombineSelection editor newStartBlockPath newEndBlockPath
      startAtPath endAtPath startAtOffset endAtOffset in
  (forall sel, target = Some sel -> isValidSelection editor sel = false) ->
  let result :=
    restoreTabSelection editor newStartBlockPath newEndBlockPath
      startAtPath endAtPath startAtOffset endAtOffset originalSelection in
  let order := fallbackOrder editor target originalSelection newStartBlockPath in
  children result = children editor
  /\ sharedRoot result = sharedRoot editor
  /\ selection result = firstSuccess order
  /\ (firstSuccess order = None ->
      exists earlier,
        console result
        = console editor ++ earlier
          ++ [Warn "Could not establish any valid selection"]).
Proof.
  intros Hnear Hvalid Hsel Hpath target Hinvalid result order.
  assert (Htail : forall editor0 pre,
            children editor0 = children editor ->
            sharedRoot editor0 = sharedRoot editor ->
            selection editor0 = None ->
            console editor0 = console editor ++ pre ->
            (forall candidate,
               findNearestValidSelection editor0 candidate
               = findNearestValidSelection editor candidate) ->
            (forall range,
               isValidSelection editor0 range = isValidSelection editor range) ->
            let r := applyTabSelection editor0 target originalSelection
                       newStartBlockPath in
            children r = children editor
            /\ sharedRoot r = sharedRoot editor
            /\ selection r = firstSuccess order
            /\ (firstSuccess order = None ->
                exists earlier,
                  console r
                  = console editor ++ earlier
                    ++ [Warn "Could not establish any valid selection"])).
  { intros editor0 pre Hc0 Hr0 Hs0 Hlog0 Hnear0 Hvalid0 r. subst r.
    unfold CustomEditor.applyTabSelection.
    assert (Hcalc : CustomEditor.calculatedIsValid isValidSelection editor0
                      target = false).
    { unfold CustomEditor.calculatedIsValid.
      destruct target as [sel |] eqn:Ht; [| done].
      rewrite Hvalid0. by apply Hinvalid. }
    rewrite Hcalc. unfold order, CustomEditor.fallbackOrder.
    cbn [firstSuccess].
    unfold CustomEditor.nearestFromCalculated.
    assert (H1 : match target with
                 | Some sel =>
                     findNearestValidSelection
                       (Log_warn editor0 "Calculated selection invalid")
                       (Some sel)
                 | None => None
                 end
                 = match target with
                   | Some t => findNearestValidSelection editor (Some t)
                   | None => None
                   end).
    { destruct target; [| done]. by rewrite Hnear, Hnear0. }
    rewrite H1.
    destruct (match target with
              | Some t => findNearestValidSelection editor (Some t)
              | None => None
              end) as [s1 |]; [done |].
    rewrite Hnear, Hnear0.
    destruct (findNearestValidSelection editor (Some originalSelection))
      as [s2 |]; [done |].
    rewrite bool_decide_eq_true_2
      by (destruct newStartBlockPath; [done | cbn [List.length]; lia]).
    cbn [children Log_warn]. rewrite Hc0.
    destruct (SlateQuery.start (children editor) newStartBlockPath)
      as [startOfBlock |].
    - rewrite Hvalid, Hvalid0.
      destruct (isValidSelection editor _); [done |].
      rewrite Hnear, Hnear0.
      destruct (findNearestValidSelection editor None) as [s4 |]; [done |].
      cbn [children sharedRoot selection console Log_warn].
      repeat split; try done.
      intros _. exists (pre ++ [Warn "Calculated selection invalid"]).
      rewrite Hlog0. by rewrite <- !app_assoc.
    - rewrite !Hnear, Hnear0.
      destruct (findNearestValidSelection editor None) as [s4 |]; [done |].
      cbn [children sharedRoot selection console Log_warn].
      repeat split; try done.
      intros _.
      exists (pre ++ [Warn "Calculated selection invalid";
                      Warn "Failed to select start of block"]).
      rewrite Hlog0. by rewrite <- !app_assoc. }
  subst result. unfold CustomEditor.restoreTabSelection. fold target.
  destruct (hasPath (children editor) (newStartBlockPath ++ startAtPath)
            && hasPath (children editor) (newEndBlockPath ++ endAtPath)
            && bool_decide (target = None)).
  - apply (Htail (Log_warn editor "Error constructing new selection paths")
             [Warn "Error constructing new selection paths"]);
      try done.
  - apply (Htail editor []); try done. by rewrite app_nil_r.
Qed.

(** C5 (amended).  Once the block is removed, the placeholder depends on
    the editable tree alone: when it is left without top-level node, a
    paragraph with empty data is added at index 0 of the deleted block's
    parent; when a top-level node remains, nothing is added. *)
Theorem deleteBlock_placeholder_when_tree_empty editor blockId parent :
  getParent blockId (sharedRoot editor) = Some parent ->
  deleteBlockCursor editor blockId parent <> CustomEditor.ReturnEarly ->
  let removed :=
    executeDeleteBlock
      (placeCursor editor (deleteBlockCursor editor blockId parent)) blockId in
  (children removed = [] ->
     deleteBlock editor blockId = fst (addBlock removed Paragraph [] parent 0))
  /\ (children removed <> [] -> deleteBlock editor blockId = removed).
Proof.
  intros Hparent Hcursor removed.
  assert (Hrun : deleteBlock editor blockId =
            CustomEditor.removeAndRefill executeDeleteBlock addBlock
              (placeCursor editor (deleteBlockCursor editor blockId parent))
              blockId parent).
  { unfold deleteBlock, CustomEditor.deleteBlock. rewrite Hparent.
    by destruct (deleteBlockCursor editor blockId parent). }
  rewrite Hrun. unfold CustomEditor.removeAndRefill. fold removed.
  split; intros H.
  - by rewrite H.
  - by destruct (children removed).
Qed.

End CommandClaims.

(** ** Further properties of the translator *)

Section TranslatorProperties.

Variable deltaInsertToSlateNode : YDelta -> list Node.
Variable dataStringTOJson : string -> BlockData.
Variable applyTextYEvent : YjsEditor -> string -> YEvent -> YjsEditor.

Local Abbreviation blockToSlateNode := (blockToSlateNode dataStringTOJson).
Local Abbreviation handleNewBlock :=
  (handleNewBlock deltaInsertToSlateNode dataStringTOJson).
Local Abbreviation processUpdate :=
  (processUpdate deltaInsertToSlateNode dataStringTOJson).
Local Abbreviation processUpdates :=
  (processUpdates deltaInsertToSlateNode dataStringTOJson).
Local Abbreviation applyBlocksYEvent :=
  (applyBlocksYEvent deltaInsertToSlateNode dataStringTOJson).
Local Abbreviation applyUpdateBlockYEvent :=
  (applyUpdateBlockYEvent dataStringTOJson).
Local Abbreviation newBlockNode :=
  (newBlockNode deltaInsertToSlateNode dataStringTOJson).
Local Abbreviation translateYEvent :=
  (translateYEvent deltaInsertToSlateNode dataStringTOJson applyTextYEvent).
Local Abbreviation translateYEvents :=
  (translateYEvents deltaInsertToSlateNode dataStringTOJson applyTextYEvent).

(** The node built for a block is an element that carries the block's id. *)
Lemma newBlockNode_element sharedRoot block :
  exists ks, newBlockNode sharedRoot block = Element (blockToSlateNode block) ks.
Proof.
  unfold newBlockNode. destruct (getText _ _); eauto.
Qed.

(** What one add does: it is refused with one error and touches neither the
    tree nor the cache, or it puts the new node into one slot of the tree and
    records the path it used. *)
Lemma handleNewBlock_cases editor key keyPath :
  (exists msg, handleNewBlock editor key keyPath = (Log_error editor msg, keyPath))
  \/ exists block c pre post i,
       getBlock key (sharedRoot editor) = Some block
       /\ children editor = plug c (pre ++ post)
       /\ List.length pre = splice_start (List.length (pre ++ post)) i
       /\ i <= Z.of_nat (List.length (pre ++ post))
       /\ handleNewBlock editor key keyPath =
          (with_children editor
             (plug c (pre ++ newBlockNode (sharedRoot editor) block :: post)),
           <[key := hole_path c ++ [i]]> keyPath).
Proof.
  unfold handleNewBlock.
  destruct (getBlock key (sharedRoot editor)) as [block |] eqn:Hb; [| eauto].
  destruct (getBlock (block_parent block) (sharedRoot editor)) as [parent |];
    [| eauto].
  destruct (newBlockPath _ _ _ _ _) as [path |]; [| eauto].
  destruct (insert_node _ _ _) as [ks |] eqn:Hins; [| eauto].
  right. apply insert_node_located in Hins
    as (c & pre & post & i & Hk & -> & -> & Hlen & Hle).
  exists block, c, pre, post, i. done.
Qed.

(** X1.  [handleDeleteNode] either finds no element carrying the key, logs
    the error and changes nothing else, or removes exactly the first
    element in document order that carries the key, with everything below
    it, and leaves every other node where it was; the removal itself never
    fails. *)
Theorem handleDeleteNode_removes_first_carrier editor key :
  (absent (hasBlockId key) (children editor)
   /\ handleDeleteNode editor key
      = Log_error editor "Block not found for deletion")
  \/ exists c pre pr ks post,
       children editor = plug c (pre ++ Element pr ks :: post)
       /\ blockId pr = Some key
       /\ clean (hasBlockId key) c /\ absent (hasBlockId key) pre
       /\ children (handleDeleteNode editor key) = plug c (pre ++ post)
       /\ console (handleDeleteNode editor key) = console editor.
Proof.
  destruct (nodes_first (hasBlockId key) (children editor)) as [[n p] |] eqn:Hf.
  - right. apply nodes_first_located in Hf
      as (c & pre & post & Hk & _ & Hc & Hpre & pr & ks & -> & Hm).
    apply bool_decide_eq_true in Hm.
    exists c, pre, pr, ks, post.
    rewrite (handleDeleteNode_plug _ c pre post pr ks key) by done.
    repeat split; done.
  - left. split; [done |]. by apply handleDeleteNode_absent.
Qed.

(** X2.  [handleNewBlock] never writes to the shared root and never removes
    or alters a node: either it logs one error and leaves tree and path
    cache as they were, or the new tree is the old one with the node built
    for the block put into one slot, nothing is logged, and the path is
    cached under the key. *)
Theorem handleNewBlock_only_inserts editor key keyPath :
  let result := handleNewBlock editor key keyPath in
  sharedRoot (fst result) = sharedRoot editor
  /\ ((exists msg,
         children (fst result) = children editor
         /\ console (fst result) = console editor ++ [Error msg]
         /\ snd result = keyPath)
      \/ exists block c pre post path,
           getBlock key (sharedRoot editor) = Some block
           /\ children editor = plug c (pre ++ post)
           /\ children (fst result)
              = plug c (pre ++ newBlockNode (sharedRoot editor) block :: post)
           /\ console (fst result) = console editor
           /\ snd result = <[key := path]> keyPath).
Proof.
  intros result. subst result.
  destruct (handleNewBlock_cases editor key keyPath)
    as [[msg ->] | (block & c & pre & post & i & Hb & Hk & _ & _ & ->)].
  - repeat split; try done. left. by exists msg.
  - repeat split; try done. right.
    exists block, c, pre, post, (hole_path c ++ [i]). done.
Qed.

(** X3.  When the block map stores the block under its own id and no
    element of the tree carries the key yet, adding the key and then
    deleting it gives back the tree as it was. *)
Theorem handleNewBlock_then_delete_restores editor key keyPath :
  (forall block, getBlock key (sharedRoot editor) = Some block ->
                 block_id block = key) ->
  absent (hasBlockId key) (children editor) ->
  children (handleDeleteNode (fst (handleNewBlock editor key keyPath)) key)
  = children editor.
Proof.
  intros Hid Habs.
  destruct (handleNewBlock_cases editor key keyPath)
    as [[msg ->] | (block & c & pre & post & i & Hb & Hk & _ & _ & ->)].
  - cbn [fst]. by rewrite handleDeleteNode_absent.
  - cbn [fst]. rewrite Hk in Habs.
    apply absent_plug_inv in Habs as [Hc Habs].
    apply absent_app_inv in Habs as [Hpre _].
    destruct (newBlockNode_element (sharedRoot editor) block) as [ks ->].
    rewrite (handleDeleteNode_plug _ c pre post (blockToSlateNode block) ks key);
      try done.
    cbn. f_equal. by apply Hid.
Qed.

(** [findIndex] on a list that holds the key after [before], and on one
    that does not hold it. *)
Lemma findIndex_from_middle (k : string) (before after : list string) (i : Z) :
  k ∉ before ->
  findIndex_from (String.eqb k) (before ++ k :: after) i
  = i + Z.of_nat (List.length before).
Proof.
  revert i. induction before as [| b before IH]; intros i Hk; cbn [app findIndex_from].
  - rewrite String.eqb_refl. cbn [List.length]. lia.
  - apply not_elem_of_cons in Hk as [Hb Hk].
    destruct (String.eqb_spec k b) as [-> | _]; [done |].
    rewrite IH by done. cbn [List.length]. lia.
Qed.

Lemma findIndex_from_missing (k : string) (l : list string) (i : Z) :
  k ∉ l -> findIndex_from (String.eqb k) l i = -1.
Proof.
  revert i. induction l as [| b l IH]; intros i Hk; cbn [findIndex_from]; [done |].
  apply not_elem_of_cons in Hk as [Hb Hk].
  destruct (String.eqb_spec k b) as [-> | _]; [done |]. by apply IH.
Qed.

(** An add whose parent is the page splices the node into the top level at
    the shared index, unless that index lies past the end. *)
Lemma handleNewBlock_top_level editor key keyPath block page :
  getBlock key (sharedRoot editor) = Some block ->
  block_parent block = getPageId (sharedRoot editor) ->
  getBlock (getPageId (sharedRoot editor)) (sharedRoot editor) = Some page ->
  let index := sharedIndex (sharedRoot editor) page key in
  handleNewBlock editor key keyPath =
  if Z.of_nat (List.length (children editor)) <? index
  then (Log_error editor "Failed to insert block", keyPath)
  else (with_children editor
          (splice_insert (children editor) index
             (newBlockNode (sharedRoot editor) block)),
        <[key := [index]]> keyPath).
Proof.
  intros Hb Hpage Hp index. unfold handleNewBlock.
  rewrite Hb, Hpage, Hp. fold (sharedIndex (sharedRoot editor) page key).
  fold index. unfold newBlockPath.
  rewrite bool_decide_eq_false_2 by (intros H; by apply H).
  cbn [insert_node].
  by destruct (Z.of_nat (List.length (children editor)) <? index).
Qed.

(** X4.  An add whose parent is the page is decided by the index of the
    key among the page's shared children: an index within the top level
    splices the node in at that index; an index past the end is refused
    with "Failed to insert block" and nothing changes; a key that the
    parent does not list has index -1, and the node goes in front of the
    last top-level node, cached under the path [[-1]]. *)
Theorem handleNewBlock_page_level_position editor key keyPath block page :
  getBlock key (sharedRoot editor) = Some block ->
  block_parent block = getPageId (sharedRoot editor) ->
  getBlock (getPageId (sharedRoot editor)) (sharedRoot editor) = Some page ->
  let index := sharedIndex (sharedRoot editor) page key in
  let node := newBlockNode (sharedRoot editor) block in
  let kids := children editor in
  let result := handleNewBlock editor key keyPath in
  (0 <= index <= Z.of_nat (List.length kids) ->
   children (fst result)
   = take (Z.to_nat index) kids ++ node :: drop (Z.to_nat index) kids
   /\ console (fst result) = console editor
   /\ snd result = <[key := [index]]> keyPath)
  /\ (Z.of_nat (List.length kids) < index ->
      result = (Log_error editor "Failed to insert block", keyPath))
  /\ (key ∉ getChildrenArray (block_children page) (sharedRoot editor) ->
      children (fst result)
      = take (List.length kids - 1) kids ++ node
          :: drop (List.length kids - 1) kids
      /\ console (fst result) = console editor
      /\ snd result = <[key := [-1]]> keyPath).
Proof.
  intros Hb Hpage Hp index node kids result. subst result.
  pose proof (handleNewBlock_top_level editor key keyPath block page Hb Hpage Hp)
    as H. cbn zeta in H. fold index node kids in H.
  split; [| split].
  - intros Hi. rewrite H.
    destruct (Z.ltb_spec (Z.of_nat (List.length kids)) index); [lia |].
    cbn [fst snd children console with_children].
    unfold splice_insert, splice_start.
    destruct (Z.ltb_spec index 0); [lia |].
    by rewrite Z.min_l by lia.
  - intros Hi. rewrite H.
    by destruct (Z.ltb_spec (Z.of_nat (List.length kids)) index); [| lia].
  - intros Hk. rewrite H.
    assert (Hidx : index = -1).
    { unfold index, sharedIndex, findIndex. by apply findIndex_from_missing. }
    rewrite Hidx.
    destruct (Z.ltb_spec (Z.of_nat (List.length kids)) (-1)); [lia |].
    cbn [fst snd children console with_children].
    unfold splice_insert, splice_start. cbn [Z.ltb Z.compare].
    replace (Z.to_nat (Z.max (Z.of_nat (List.length kids) + -1) 0))
      with (List.length kids - 1)%nat by lia.
    done.
Qed.

(** X5.  When [handleNewBlock] logs nothing, the path it caches under the
    key is the path of the new node: reading the resulting tree at that
    path gives the node built for the block, unless the last index is
    negative, in which case the path addresses nothing. *)
Theorem handleNewBlock_cached_path_reads_back editor key keyPath block :
  getBlock key (sharedRoot editor) = Some block ->
  let result := handleNewBlock editor key keyPath in
  console (fst result) = console editor ->
  exists path,
    snd result = <[key := path]> keyPath
    /\ (0 <= last_index path ->
        get (children (fst result)) path
        = Some (newBlockNode (sharedRoot editor) block))
    /\ (last_index path < 0 -> get (children (fst result)) path = None).
Proof.
  intros Hb result Hlog. subst result.
  destruct (handleNewBlock_cases editor key keyPath)
    as [[msg Hr] | (block' & c & pre & post & i & Hb' & Hk & Hlen & Hle & Hr)];
    rewrite Hr in *; cbn [fst snd] in *.
  - exfalso. unfold Log_error in Hlog. cbn [console] in Hlog.
    apply (f_equal (@List.length _)) in Hlog.
    rewrite length_app in Hlog. cbn in Hlog. lia.
  - rewrite Hb in Hb'. injection Hb' as <-.
    exists (hole_path c ++ [i]). split; [done |].
    unfold last_index. rewrite List.last_last. cbn [children with_children].
    rewrite get_plug. split; intros Hi.
    + assert (Hi' : i = Z.of_nat (List.length pre)).
      { rewrite Hlen. unfold splice_start.
        destruct (Z.ltb_spec i 0); [lia |]. lia. }
      rewrite Hi'. apply get_middle.
    + cbn [get]. unfold at_index. by destruct (Z.ltb_spec i 0); [| lia].
Qed.

(** What a single-block update does to the tree when the id is found. *)
Lemma applyUpdateBlockYEvent_located editor blockId event block :
  target event = Some block ->
  ~ absent (hasBlockId blockId) (children editor) ->
  exists c pre pr ks post,
    children editor = plug c (pre ++ Element pr ks :: post)
    /\ Slate.blockId pr = Some blockId
    /\ clean (hasBlockId blockId) c /\ absent (hasBlockId blockId) pre
    /\ applyUpdateBlockYEvent editor blockId event =
       with_children editor
         (plug c (pre ++ set_data (Element pr ks)
                           (dataStringTOJson (block_data block)) :: post)).
Proof.
  intros Ht Hpresent. unfold applyUpdateBlockYEvent, findSlateEntryByBlockId.
  rewrite Ht.
  destruct (nodes_first (hasBlockId blockId) (children editor))
    as [[n p] |] eqn:Hf; [| done].
  apply nodes_first_located in Hf
    as (c & pre & post & Hk & -> & Hc & Hpre & pr & ks & -> & Hm).
  apply bool_decide_eq_true in Hm.
  exists c, pre, pr, ks, post. repeat split; try done.
  rewrite Hk, set_node_data_plug, set_node_data_middle. done.
Qed.

(** X6.  A single-block update either finds no element carrying the block
    id and logs the error, or replaces the data of the first element that
    carries it by the converted data of the event's block; type, ids and
    children of that element and all other nodes stay as they were, and
    the operation never fails. *)
Theorem applyUpdateBlockYEvent_only_sets_data editor blockId event block :
  target event = Some block ->
  (absent (hasBlockId blockId) (children editor)
   /\ applyUpdateBlockYEvent editor blockId event
      = Log_error editor "Block node not found in Slate editor")
  \/ exists c pre pr ks post,
       children editor = plug c (pre ++ Element pr ks :: post)
       /\ Slate.blockId pr = Some blockId
       /\ clean (hasBlockId blockId) c /\ absent (hasBlockId blockId) pre
       /\ applyUpdateBlockYEvent editor blockId event =
          with_children editor
            (plug c (pre ++ Element
                       {| type := type pr; Slate.blockId := Slate.blockId pr;
                          textId := textId pr;
                          data := dataStringTOJson (block_data block) |} ks
                     :: post)).
Proof.
  intros Ht.
  destruct (nodes_first (hasBlockId blockId) (children editor))
    as [[n p] |] eqn:Hf.
  - right. apply applyUpdateBlockYEvent_located; [done |].
    unfold absent. fold (nodes_first (hasBlockId blockId) (children editor)).
    by rewrite Hf.
  - left. split; [done |].
    unfold applyUpdateBlockYEvent, findSlateEntryByBlockId. by rewrite Ht, Hf.
Qed.

(** X7.  Translating the same single-block update a second time leaves
    the tree as the first translation left it. *)
Theorem applyUpdateBlockYEvent_idempotent editor blockId event :
  children (applyUpdateBlockYEvent
              (applyUpdateBlockYEvent editor blockId event) blockId event)
  = children (applyUpdateBlockYEvent editor blockId event).
Proof.
  destruct (target event) as [block |] eqn:Ht;
    [| unfold applyUpdateBlockYEvent; by rewrite Ht].
  destruct (nodes_first (hasBlockId blockId) (children editor))
    as [[n p] |] eqn:Hf.
  - destruct (applyUpdateBlockYEvent_located editor blockId event block Ht)
      as (c & pre & pr & ks & post & Hk & Hid & Hc & Hpre & ->).
    { unfold absent. fold (nodes_first (hasBlockId blockId) (children editor)).
      by rewrite Hf. }
    set (pr' := {| type := type pr; Slate.blockId := Slate.blockId pr;
                   textId := textId pr;
                   data := dataStringTOJson (block_data block) |}).
    unfold applyUpdateBlockYEvent at 1. unfold findSlateEntryByBlockId.
    rewrite Ht. cbn [children with_children set_data]. fold pr'.
    rewrite (first_from_plug _ c _ (Element pr' ks) []
               (Z.of_nat (List.length pre)) Hc).
    + rewrite set_node_data_plug, set_node_data_middle. done.
    + rewrite (first_from_hit _ pre post (Element pr' ks) (Element pr' ks) []);
        [done | done |].
      rewrite first_in_node_element. by rewrite hasBlockId_true.
  - unfold applyUpdateBlockYEvent, findSlateEntryByBlockId.
    rewrite Ht, Hf. cbn [children Log_error].
    fold (nodes_first (hasBlockId blockId) (children editor)). by rewrite Hf.
Qed.

(** X8.  After a block-map batch without adds, a key that the batch tags
    'delete' and that at most one element carried is carried by no
    element. *)
Theorem applyBlocksYEvent_deleted_block_gone editor event key v :
  Forall (fun u => upd_action u <> "add")
         (omap (updateOf (changes_keys event)) (keysChanged event)) ->
  key ∈ keysChanged event ->
  changes_keys event !! key = Some v ->
  action v = "delete" ->
  (count_in (hasBlockId key) (children editor) <= 1)%nat ->
  absent (hasBlockId key) (children (applyBlocksYEvent editor event)).
Proof.
  intros Hadd Hkey Hv Hdel Hone.
  destruct (applyBlocksYEvent_deletes deltaInsertToSlateNode dataStringTOJson
              editor event Hadd) as (_ & _ & Hall).
  rewrite Forall_forall in Hall.
  apply count_zero_absent.
  apply (Hall {| upd_key := key; upd_action := action v; upd_value := v |});
    [| done | done].
  apply list_elem_of_omap. exists key. split; [done |].
  unfold updateOf. by rewrite Hv.
Qed.

(** X9.  The loop that collects the updates touches only the log: it
    appends one warning for each changed key without change record, in
    their order, and collects, in order, one update for every other key. *)
Theorem collectUpdates_warns_per_missing_key editor keys keysChanged :
  let result := collectUpdates editor keys keysChanged in
  let missing :=
    List.filter (fun k => bool_decide (keys !! k = None)) keysChanged in
  children (fst result) = children editor
  /\ console (fst result)
     = console editor ++ ((fun _ => Warn "No value found for key") <$> missing)
  /\ snd result = omap (updateOf keys) keysChanged.
Proof.
  cbn zeta. split; [apply collectUpdates_fst |].
  split; [| apply collectUpdates_snd].
  revert editor. induction keysChanged as [| k ks IH]; intros editor;
    cbn [collectUpdates List.filter].
  - cbn. by rewrite app_nil_r.
  - destruct (keys !! k) as [v |] eqn:Hk.
    + rewrite bool_decide_eq_false_2 by done. specialize (IH editor).
      by destruct (collectUpdates editor keys ks) as [e us].
    + rewrite bool_decide_eq_true_2 by done. rewrite IH.
      cbn [console Log_warn fmap list_fmap]. by rewrite <- app_assoc.
Qed.

(** The shared root is out of reach of the handlers. *)
Lemma handleNewBlock_sharedRoot editor key keyPath :
  sharedRoot (fst (handleNewBlock editor key keyPath)) = sharedRoot editor.
Proof.
  destruct (handleNewBlock_cases editor key keyPath)
    as [[msg ->] | (block & c & pre & post & i & _ & _ & _ & _ & ->)]; done.
Qed.

Lemma processUpdate_sharedRoot st u :
  sharedRoot (fst (processUpdate st u)) = sharedRoot (fst st).
Proof.
  destruct st as [e kp]. unfold processUpdate.
  destruct (bool_decide (upd_action u = "add"));
    [apply handleNewBlock_sharedRoot |].
  destruct (bool_decide (upd_action u = "delete"));
    [apply handleDeleteNode_sharedRoot |].
  by destruct (bool_decide (upd_action u = "update")).
Qed.

Lemma processUpdates_sharedRoot l editor keyPath :
  sharedRoot (fst (processUpdates editor keyPath l)) = sharedRoot editor.
Proof.
  revert editor keyPath. induction l as [| u l IH]; intros editor keyPath; [done |].
  rewrite (processUpdates_cons deltaInsertToSlateNode dataStringTOJson).
  rewrite IH. apply (processUpdate_sharedRoot (editor, keyPath)).
Qed.

Lemma applyBlocksYEvent_sharedRoot editor event :
  sharedRoot (applyBlocksYEvent editor event) = sharedRoot editor.
Proof.
  unfold applyBlocksYEvent.
  pose proof (collectUpdates_fst editor (changes_keys event) (keysChanged event))
    as (_ & Hroot & _).
  destruct (collectUpdates editor (changes_keys event) (keysChanged event))
    as [editor1 updates]. cbn [fst] in Hroot.
  by rewrite processUpdates_sharedRoot.
Qed.

Lemma applyUpdateBlockYEvent_sharedRoot editor blockId event :
  sharedRoot (applyUpdateBlockYEvent editor blockId event) = sharedRoot editor.
Proof.
  unfold applyUpdateBlockYEvent.
  destruct (target event); [| done].
  destruct (findSlateEntryByBlockId editor blockId) as [[n p] |]; [| done].
  by destruct (set_node_data _ _ _).
Qed.

(** X10.  Translation reads the shared root and never writes it: when the
    text handler leaves the shared root alone, so does the translation of
    any list of events. *)
Theorem translateYEvents_keeps_shared_root editor events :
  (forall e textId event,
     sharedRoot (applyTextYEvent e textId event) = sharedRoot e) ->
  sharedRoot (translateYEvents editor events) = sharedRoot editor.
Proof.
  intros Htext. revert editor.
  induction events as [| event events IH]; intros editor; [done |].
  unfold translateYEvents. cbn [fold_left].
  fold (translateYEvents (translateYEvent editor event) events).
  rewrite IH. unfold translateYEvent.
  destruct (textPathId (event_path event)); [rewrite Htext |];
    (destruct (blockPathId (event_path event));
       [rewrite applyUpdateBlockYEvent_sharedRoot |]);
    (destruct (isBlocksPath (event_path event));
       [apply applyBlocksYEvent_sharedRoot | done]).
Qed.

(** X11.  The three path shapes exclude one another, so an event is
    handled by exactly the handler its path names, the block map, a single
    block or a text, and an event with any other path changes nothing. *)
Theorem translateYEvent_routes editor event :
  (event_path event = ["document"; "blocks"] ->
   translateYEvent editor event = applyBlocksYEvent editor event)
  /\ (forall blockId,
        event_path event = ["document"; "blocks"; blockId] ->
        translateYEvent editor event
        = applyUpdateBlockYEvent editor blockId event)
  /\ (forall textId,
        event_path event = ["document"; "meta"; "text_map"; textId] ->
        translateYEvent editor event = applyTextYEvent editor textId event)
  /\ (event_path event <> ["document"; "blocks"] ->
      (forall blockId, event_path event <> ["document"; "blocks"; blockId]) ->
      (forall textId,
         event_path event <> ["document"; "meta"; "text_map"; textId]) ->
      translateYEvent editor event = editor).
Proof.
  unfold translateYEvent. repeat split.
  - by intros ->.
  - by intros blockId ->.
  - by intros textId ->.
  - intros H2 H3 H4.
    rewrite (bool_decide_eq_false_2 _ H2 : isBlocksPath _ = false).
    destruct (event_path event) as [| a [| b [| c [| d [| e rest]]]]]; try done.
    + cbn [blockPathId textPathId].
      destruct (bool_decide_reflect (a = "document")) as [-> |]; [| done].
      destruct (bool_decide_reflect (b = "blocks")) as [-> |]; [| done].
      by destruct (H3 c).
    + cbn [blockPathId textPathId].
      destruct (bool_decide_reflect (a = "document")) as [-> |]; [| done].
      destruct (bool_decide_reflect (b = "meta")) as [-> |]; [| done].
      destruct (bool_decide_reflect (c = "text_map")) as [-> |]; [| done].
      by destruct (H4 d).
Qed.

(** The nodes that adds of the given keys build, in their order. *)
Lemma processUpdates_appends root page keys todo :
  getBlock (getPageId root) root = Some page ->
  forall done editor keyPath,
    sharedRoot editor = root ->
    getChildrenArray (block_children page) root = done ++ todo ->
    NoDup (done ++ todo) ->
    List.length (children editor) = List.length done ->
    Forall (fun k =>
              (exists v, keys !! k = Some v /\ action v = "add")
              /\ exists block, getBlock k root = Some block
                               /\ block_parent block = getPageId root) todo ->
    fst (processUpdates editor keyPath (omap (updateOf keys) todo)) =
    with_children editor
      (children editor
       ++ omap (fun k => newBlockNode root <$> getBlock k root) todo).
Proof.
  intros Hpage. induction todo as [| k todo IH];
    intros done_ editor keyPath Hroot Hkids Hnd Hlen Hall.
  - cbn. rewrite app_nil_r. by destruct editor.
  - apply Forall_cons in Hall as [[(v & Hv & Hadd) (block & Hb & Hp)] Hall].
    cbn [omap list_omap]. unfold updateOf at 1. rewrite Hv, Hb. cbn [fmap option_fmap option_map].
    rewrite (processUpdates_cons deltaInsertToSlateNode dataStringTOJson).
    unfold processUpdate at 1 2. cbn [upd_action upd_key].
    rewrite Hadd, bool_decide_eq_true_2 by done.
    subst root.
    rewrite (handleNewBlock_top_level editor k keyPath block page Hb Hp Hpage).
    assert (Hk : k ∉ done_).
    { apply NoDup_app in Hnd as (_ & Hnot & _). intros Hin.
      apply (Hnot k Hin). apply list_elem_of_here. }
    assert (Hidx : sharedIndex (sharedRoot editor) page k
                   = Z.of_nat (List.length (children editor))).
    { unfold sharedIndex, findIndex. rewrite Hkids.
      rewrite findIndex_from_middle by done. lia. }
    rewrite Hidx, Z.ltb_irrefl. cbn [fst snd].
    assert (Hsplice : splice_insert (children editor)
                        (Z.of_nat (List.length (children editor)))
                        (newBlockNode (sharedRoot editor) block)
                      = children editor ++ [newBlockNode (sharedRoot editor) block]).
    { unfold splice_insert, splice_start.
      destruct (Z.ltb_spec (Z.of_nat (List.length (children editor))) 0); [lia |].
      rewrite Z.min_id, Nat2Z.id.
      by rewrite firstn_all, skipn_all. }
    rewrite Hsplice.
    rewrite (IH (done_ ++ [k])); cbn [sharedRoot children with_children]; try done.
    + by rewrite <- app_assoc.
    + by rewrite <- app_assoc.
    + by rewrite <- app_assoc.
    + rewrite !length_app. cbn [List.length]. lia.
Qed.

(** X12.  When the top level shows the first children of the page and a
    batch adds the remaining ones, listed in the order of the shared tree,
    the batch appends the nodes built for them in that order and logs
    nothing. *)
Theorem applyBlocksYEvent_appends_in_shared_order editor event page known :
  getBlock (getPageId (sharedRoot editor)) (sharedRoot editor) = Some page ->
  getChildrenArray (block_children page) (sharedRoot editor)
  = known ++ keysChanged event ->
  NoDup (known ++ keysChanged event) ->
  List.length (children editor) = List.length known ->
  Forall (fun k =>
            (exists v, changes_keys event !! k = Some v /\ action v = "add")
            /\ exists block, getBlock k (sharedRoot editor) = Some block
                 /\ block_parent block = getPageId (sharedRoot editor))
         (keysChanged event) ->
  children (applyBlocksYEvent editor event)
  = children editor
    ++ omap (fun k => newBlockNode (sharedRoot editor)
                        <$> getBlock k (sharedRoot editor))
            (keysChanged event)
  /\ console (applyBlocksYEvent editor event) = console editor.
Proof.
  intros Hpage Hkids Hnd Hlen Hall.
  enough (Heditor : applyBlocksYEvent editor event =
            with_children editor
              (children editor
               ++ omap (fun k => newBlockNode (sharedRoot editor)
                                   <$> getBlock k (sharedRoot editor))
                       (keysChanged event))) by (by rewrite Heditor).
  unfold applyBlocksYEvent.
  pose proof (collectUpdates_snd editor (changes_keys event) (keysChanged event))
    as Hsnd.
  pose proof (collectUpdates_all_found editor (changes_keys event)
                (keysChanged event)) as Hfst.
  destruct (collectUpdates editor (changes_keys event) (keysChanged event))
    as [editor1 updates]. cbn [fst snd] in *.
  rewrite Hfst, Hsnd; cycle 1.
  { eapply Forall_impl; [exact Hall |]. intros k [(v & -> & _) _]. eauto. }
  rewrite Array_sort_deleteFirst.
  assert (Hnone : Forall (fun u => isDelete u = false)
                    (omap (updateOf (changes_keys event)) (keysChanged event))).
  { apply Forall_forall. intros u Hu.
    apply list_elem_of_omap in Hu as (k & Hk & Hu).
    rewrite Forall_forall in Hall.
    destruct (Hall k Hk) as [(v & Hv & Hadd) _].
    unfold updateOf in Hu. rewrite Hv in Hu. injection Hu as <-.
    unfold isDelete. cbn [upd_action]. rewrite Hadd.
    by apply bool_decide_eq_false. }
  rewrite (filter_none isDelete _ Hnone).
  rewrite (filter_all (fun u => negb (isDelete u))); cycle 1.
  { eapply Forall_impl; [exact Hnone |]. by intros u ->. }
  cbn [app].
  by apply (processUpdates_appends (sharedRoot editor) page (changes_keys event)
              (keysChanged event) Hpage known).
Qed.

(** A forest that gained a node in some slot had no more matches before. *)
Lemma absent_before_insert m c pre x post :
  absent m (plug c (pre ++ x :: post)) ->
  absent m (plug c (pre ++ post)) /\ first_in_node m x = None.
Proof.
  intros H. split.
  - apply count_zero_absent. apply absent_count_zero in H.
    rewrite count_in_plug in *. rewrite !count_in_app in *.
    cbn [count_in] in H. lia.
  - apply absent_plug_inv in H as [_ H]. apply absent_app_inv in H as [_ H].
    by apply absent_cons_inv in H as [H _].
Qed.

Lemma handleNewBlock_cache_in_tree editor key keyPath :
  keyed_by_id (sharedRoot editor) ->
  cache_in_tree editor keyPath ->
  cache_in_tree (fst (handleNewBlock editor key keyPath))
                (snd (handleNewBlock editor key keyPath)).
Proof.
  intros Hid Hinv.
  destruct (handleNewBlock_cases editor key keyPath)
    as [[msg ->] | (block & c & pre & post & i & Hb & Hk & _ & _ & ->)];
    [done |].
  cbn [fst snd]. intros k Habs. cbn [children with_children] in Habs.
  apply absent_before_insert in Habs as [Habs Hnode].
  destruct (newBlockNode_element (sharedRoot editor) block) as [ks Hks].
  rewrite Hks, first_in_node_element in Hnode.
  destruct (decide (key = k)) as [<- | Hne].
  - rewrite hasBlockId_true in Hnode; [done |].
    cbn. f_equal. by apply Hid.
  - rewrite lookup_insert_ne by done. apply Hinv. by rewrite Hk.
Qed.

Lemma processUpdates_cache_in_tree os :
  Forall (fun o => isDelete o = false) os ->
  forall editor keyPath,
    keyed_by_id (sharedRoot editor) ->
    cache_in_tree editor keyPath ->
    cache_in_tree (fst (processUpdates editor keyPath os))
                  (snd (processUpdates editor keyPath os)).
Proof.
  induction 1 as [| o os Ho Hos IH]; intros editor keyPath Hid Hinv; [done |].
  rewrite (processUpdates_cons deltaInsertToSlateNode dataStringTOJson).
  apply IH.
  - by rewrite (processUpdate_sharedRoot (editor, keyPath)).
  - unfold processUpdate.
    destruct (bool_decide (upd_action o = "add"));
      [by apply handleNewBlock_cache_in_tree |].
    unfold isDelete in Ho. rewrite Ho.
    by destruct (bool_decide (upd_action o = "update")).
Qed.

Lemma processUpdates_deletes_cache ds :
  Forall (fun d => isDelete d = true) ds ->
  forall editor keyPath,
    snd (processUpdates editor keyPath ds) = keyPath.
Proof.
  induction 1 as [| d ds Hd Hds IH]; intros editor keyPath; [done |].
  rewrite (processUpdates_cons deltaInsertToSlateNode dataStringTOJson), IH.
  unfold processUpdate. unfold isDelete in Hd.
  apply bool_decide_eq_true in Hd.
  rewrite bool_decide_eq_false_2 by (rewrite Hd; done).
  by rewrite bool_decide_eq_true_2.
Qed.

(** With such a cache the editor an add produces is the one it produces
    with no cache at all. *)
Lemma handleNewBlock_without_cache editor key keyPath :
  cache_in_tree editor keyPath ->
  fst (handleNewBlock editor key keyPath) = fst (handleNewBlock editor key ∅).
Proof.
  intros Hinv. unfold handleNewBlock.
  destruct (getBlock key (sharedRoot editor)) as [block |]; [| done].
  destruct (getBlock (block_parent block) (sharedRoot editor)) as [parent |];
    [| done].
  assert (Hpath : forall index,
            newBlockPath editor keyPath (block_parent block)
              (getPageId (sharedRoot editor)) index
            = newBlockPath editor ∅ (block_parent block)
                (getPageId (sharedRoot editor)) index).
  { intros index. unfold newBlockPath.
    destruct (bool_decide (block_parent block <> getPageId (sharedRoot editor)));
      [| done].
    destruct (nodes_first _ _) as [[n p] |] eqn:Hf; [done |].
    pose proof (Hinv _ Hf) as Hnone. rewrite lookup_empty.
    by destruct (keyPath !! block_parent block). }
  rewrite Hpath.
  destruct (newBlockPath _ _ _ _ _) as [path |]; [| done].
  by destruct (insert_node _ _ _).
Qed.

(** X13.  When the block map stores every block under its own id, then at
    every point of a batch, processed in its sorted order from an empty
    cache, the editor that an add produces is the one it produces with an
    empty cache: the cached path is never what places a block. *)
Theorem processUpdates_cache_never_decides editor updates before after key :
  keyed_by_id (sharedRoot editor) ->
  Array_sort deleteFirst updates = before ++ after ->
  let state := processUpdates editor ∅ before in
  fst (handleNewBlock (fst state) key (snd state))
  = fst (handleNewBlock (fst state) key ∅).
Proof.
  intros Hid Hsplit state. apply handleNewBlock_without_cache. subst state.
  rewrite Array_sort_deleteFirst in Hsplit.
  pose proof (filter_isDelete_all updates) as Hds.
  pose proof (filter_notDelete_all updates) as Hos.
  revert Hsplit Hds Hos.
  generalize (List.filter isDelete updates) as ds.
  generalize (List.filter (fun u => negb (isDelete u)) updates) as os.
  intros os ds Hsplit Hds Hos. symmetry in Hsplit.
  apply app_eq_inv in Hsplit as [(k & -> & ->) | (k & -> & ->)].
  - apply Forall_app in Hos as [Hos _].
    rewrite processUpdates_app.
    pose proof (processUpdates_deletes_cache ds Hds editor ∅) as Hkp.
    pose proof (processUpdates_sharedRoot ds editor ∅) as Hroot.
    destruct (processUpdates editor ∅ ds) as [e kp]. cbn [fst snd] in *.
    subst kp. apply (processUpdates_cache_in_tree k Hos).
    + by rewrite Hroot.
    + by intros k'.
  - apply Forall_app in Hds as [Hds _].
    rewrite (processUpdates_deletes_cache before Hds). by intros k'.
Qed.

(** The node built for a block shows nothing, or the block's text alone. *)
Lemma newBlockNode_children sharedRoot block :
  parentHasTextNode (children_of (newBlockNode sharedRoot block)) = true
  /\ (List.length (children_of (newBlockNode sharedRoot block)) <= 1)%nat.
Proof.
  unfold newBlockNode.
  destruct (getText _ _) as [delta |]; cbn [children_of List.length];
    (split; [| lia]); [| done].
  unfold parentHasTextNode, textNodeOf. cbn. by apply bool_decide_eq_true.
Qed.

(** X14.  A block added at page level and then one of its children, added
    next, end up nested: the child becomes the last child of the parent's
    new node, behind the parent's text when it has one. *)
Theorem handleNewBlock_parent_then_child
    editor keyPath P K blockP blockK page :
  getBlock P (sharedRoot editor) = Some blockP ->
  block_id blockP = P ->
  block_parent blockP = getPageId (sharedRoot editor) ->
  getBlock (getPageId (sharedRoot editor)) (sharedRoot editor) = Some page ->
  getBlock K (sharedRoot editor) = Some blockK ->
  block_parent blockK = P ->
  P <> getPageId (sharedRoot editor) ->
  K ∈ getChildrenArray (block_children blockP) (sharedRoot editor) ->
  absent (hasBlockId P) (children editor) ->
  let index := sharedIndex (sharedRoot editor) page P in
  0 <= index <= Z.of_nat (List.length (children editor)) ->
  let added := handleNewBlock editor P keyPath in
  let result := fst (handleNewBlock (fst added) K (snd added)) in
  children result
  = take (Z.to_nat index) (children editor)
    ++ Element (blockToSlateNode blockP)
         (children_of (newBlockNode (sharedRoot editor) blockP)
          ++ [newBlockNode (sharedRoot editor) blockK])
    :: drop (Z.to_nat index) (children editor)
  /\ console result = console editor.
Proof.
  intros HbP HidP HpP Hpage HbK HpK Hne HK Habs index Hindex added result.
  enough (Heditor : result =
            with_children editor
              (take (Z.to_nat index) (children editor)
               ++ Element (blockToSlateNode blockP)
                    (children_of (newBlockNode (sharedRoot editor) blockP)
                     ++ [newBlockNode (sharedRoot editor) blockK])
               :: drop (Z.to_nat index) (children editor)))
    by (by rewrite Heditor).
  subst result added.
  rewrite (handleNewBlock_top_level editor P keyPath blockP page HbP HpP Hpage).
  fold index.
  destruct (Z.ltb_spec (Z.of_nat (List.length (children editor))) index);
    [lia |].
  cbn [fst snd].
  assert (Hsplice : splice_insert (children editor) index
                      (newBlockNode (sharedRoot editor) blockP)
                    = take (Z.to_nat index) (children editor)
                      ++ newBlockNode (sharedRoot editor) blockP
                      :: drop (Z.to_nat index) (children editor)).
  { unfold splice_insert, splice_start.
    destruct (Z.ltb_spec index 0); [lia |]. by rewrite Z.min_l by lia. }
  rewrite Hsplice.
  set (pre := take (Z.to_nat index) (children editor)).
  set (post := drop (Z.to_nat index) (children editor)).
  assert (Hpre : absent (hasBlockId P) pre).
  { rewrite <- (take_drop (Z.to_nat index) (children editor)) in Habs.
    by apply absent_app_inv in Habs as [Habs _]. }
  destruct (newBlockNode_children (sharedRoot editor) blockP) as [Htext Hlen].
  destruct (newBlockNode_element (sharedRoot editor) blockP) as [ks Hks].
  rewrite Hks in *. cbn [children_of] in *.
  unfold handleNewBlock. cbn [sharedRoot with_children].
  rewrite HbK, HpK, HbP. unfold newBlockPath.
  rewrite bool_decide_eq_true_2 by done.
  cbn [children with_children]. unfold nodes_first.
  rewrite (first_from_hit _ pre post (Element (blockToSlateNode blockP) ks)
             (Element (blockToSlateNode blockP) ks) []); [| done |]; cycle 1.
  { rewrite first_in_node_element, hasBlockId_true; [done |].
    cbn. by f_equal. }
  cbn [children_of]. rewrite Htext.
  pose proof (findIndex_from_found K _ 0 HK) as Hj.
  fold (findIndex (String.eqb K)
          (getChildrenArray (block_children blockP) (sharedRoot editor))) in Hj.
  rewrite Z.min_r by lia.
  rewrite Z.add_0_l. cbn [app].
  rewrite insert_node_step, at_index_middle.
  pose proof (insert_node_middle ks []
                (newBlockNode (sharedRoot editor) blockK)) as Hend.
  rewrite app_nil_r in Hend. rewrite Hend, insert_middle. done.
Qed.

(** X15.  Processed the other way round, the child is lost: its add is
    skipped with the error about the missing parent, and the parent that
    is added next shows no child. *)
Theorem handleNewBlock_child_before_parent
    editor keyPath P K blockP blockK page :
  getBlock P (sharedRoot editor) = Some blockP ->
  block_parent blockP = getPageId (sharedRoot editor) ->
  getBlock (getPageId (sharedRoot editor)) (sharedRoot editor) = Some page ->
  getBlock K (sharedRoot editor) = Some blockK ->
  block_parent blockK = P ->
  P <> getPageId (sharedRoot editor) ->
  absent (hasBlockId P) (children editor) ->
  keyPath !! P = None ->
  let index := sharedIndex (sharedRoot editor) page P in
  0 <= index <= Z.of_nat (List.length (children editor)) ->
  let skipped := handleNewBlock editor K keyPath in
  let result := handleNewBlock (fst skipped) P (snd skipped) in
  children (fst result)
  = take (Z.to_nat index) (children editor)
    ++ newBlockNode (sharedRoot editor) blockP
    :: drop (Z.to_nat index) (children editor)
  /\ console (fst result)
     = console editor ++ [Error "Parent block not found in Slate editor"]
  /\ snd result = <[P := [index]]> keyPath.
Proof.
  intros HbP HpP Hpage HbK HpK Hne Habs Hcache index Hindex skipped result.
  enough (Heditor : result =
            (with_children
               (Log_error editor "Parent block not found in Slate editor")
               (take (Z.to_nat index) (children editor)
                ++ newBlockNode (sharedRoot editor) blockP
                :: drop (Z.to_nat index) (children editor)),
             <[P := [index]]> keyPath)) by (by rewrite Heditor).
  subst result.
  assert (Hskip : skipped
            = (Log_error editor "Parent block not found in Slate editor",
               keyPath)).
  { subst skipped. unfold handleNewBlock. rewrite HbK, HpK, HbP.
    unfold newBlockPath. rewrite bool_decide_eq_true_2 by done.
    unfold absent in Habs. unfold nodes_first. rewrite Habs.
    unfold Path in *. by rewrite Hcache. }
  rewrite Hskip. cbn [fst snd].
  rewrite (handleNewBlock_top_level
             (Log_error editor "Parent block not found in Slate editor")
             P keyPath blockP page HbP HpP Hpage).
  cbn [sharedRoot children Log_error]. fold index.
  destruct (Z.ltb_spec (Z.of_nat (List.length (children editor))) index);
    [lia |].
  unfold splice_insert, splice_start.
  destruct (Z.ltb_spec index 0); [lia |]. by rewrite Z.min_l by lia.
Qed.

(** A predicate counted once in a filled position, and met by the node in
    the slot, is met nowhere else. *)
Lemma count_one_in_slot m c pre pr ks post :
  count_in m (plug c (pre ++ Element pr ks :: post)) = 1%nat ->
  m pr = true ->
  clean m c /\ absent m pre /\ absent m (plug c (pre ++ post)).
Proof.
  intros Hcount Hm. rewrite count_in_plug, count_in_app in Hcount.
  cbn [count_in] in Hcount. rewrite count_in_node_element, Hm in Hcount.
  assert (Hzero : count_in m (plug c (pre ++ post)) = 0%nat).
  { rewrite count_in_plug, count_in_app. lia. }
  apply count_zero_absent in Hzero. split; [| split; [| done]].
  - by apply absent_plug_inv in Hzero as [Hc _].
  - apply count_zero_absent. lia.
Qed.

(** X16.  Deleting a block and a block nested in it gives the same tree in
    either order, the tree without the outer block: when the outer block
    goes first, the delete of the inner one finds nothing. *)
Theorem handleDeleteNode_nested_either_order
    editor c pre prP post c' pre' prK ksK post' P K :
  children editor
  = plug c (pre ++ Element prP (plug c' (pre' ++ Element prK ksK :: post'))
                :: post) ->
  blockId prP = Some P ->
  blockId prK = Some K ->
  clean (hasBlockId P) c ->
  absent (hasBlockId P) pre ->
  count_in (hasBlockId K) (children editor) = 1%nat ->
  children (handleDeleteNode (handleDeleteNode editor P) K)
  = plug c (pre ++ post)
  /\ children (handleDeleteNode (handleDeleteNode editor K) P)
     = plug c (pre ++ post).
Proof.
  intros Hkids HP HK Hc Hpre Hone.
  set (inner := plug c' (pre' ++ Element prK ksK :: post')) in *.
  split.
  - rewrite (handleDeleteNode_plug editor c pre post prP inner P) by done.
    rewrite handleDeleteNode_absent; [done |].
    cbn [children with_children].
    apply count_zero_absent.
    assert (Hin : (1 <= count_in (hasBlockId K) inner)%nat).
    { unfold inner. rewrite count_in_plug, count_in_app. cbn [count_in].
      rewrite count_in_node_element, hasBlockId_true by done. lia. }
    rewrite Hkids, count_in_plug, count_in_app in Hone.
    cbn [count_in] in Hone. rewrite count_in_node_element in Hone.
    rewrite count_in_plug, count_in_app. lia.
  - assert (Hwhole : children editor
              = plug (ctx_app (Under c pre prP post) c')
                     (pre' ++ Element prK ksK :: post')).
    { by rewrite plug_ctx_app. }
    rewrite Hwhole in Hone.
    apply count_one_in_slot in Hone as (HcK & HpreK & _);
      [| by apply hasBlockId_true].
    rewrite (handleDeleteNode_plug editor _ pre' post' prK ksK K Hwhole)
      by done.
    rewrite plug_ctx_app. cbn [plug].
    by rewrite (handleDeleteNode_plug _ c pre post prP
                  (plug c' (pre' ++ post')) P).
Qed.

End TranslatorProperties.

(** ** Further properties of the commands *)

Section CommandProperties.

Variable LIST_BLOCK_TYPES : list BlockType.
Variable getBlockEntry : YjsEditor -> Point -> option (Node * Path).
Variable handleNonParagraphBlockBackspaceAndEnterWithTxn :
  YjsEditor -> YBlock -> Point -> YjsEditor.
Variable handleLiftBlockOnBackspaceAndEnterWithTxn :
  YjsEditor -> YBlock -> Point -> YjsEditor * bool.
Variable handleMergeBlockBackwardWithTxn : YjsEditor -> Node -> Point -> YjsEditor.
Variable handleMergeBlockForwardWithTxn : YjsEditor -> Node -> Point -> YjsEditor.
Variable removeRangeWithTxn : YjsEditor -> Range -> YjsEditor.
Variable Transforms_collapse_start : YjsEditor -> YjsEditor.
Variable getSelectionOrThrow : YjsEditor -> option Range -> option Range.
Variable getSelectionTexts : YjsEditor -> option (list TextObject).
Variable Editor_marks : YjsEditor -> option (option TextObject).

Local Abbreviation deleteBlockBackward :=
  (CustomEditor.deleteBlockBackward LIST_BLOCK_TYPES getBlockEntry
     handleNonParagraphBlockBackspaceAndEnterWithTxn
     handleLiftBlockOnBackspaceAndEnterWithTxn
     handleMergeBlockBackwardWithTxn removeRangeWithTxn
     Transforms_collapse_start getSelectionOrThrow).
Local Abbreviation deleteBlockForward :=
  (CustomEditor.deleteBlockForward getBlockEntry removeRangeWithTxn
     Transforms_collapse_start getSelectionOrThrow
     handleMergeBlockForwardWithTxn).
Local Abbreviation hasMark :=
  (CustomEditor.hasMark getSelectionTexts Editor_marks).
Local Abbreviation isMarkActive :=
  (CustomEditor.isMarkActive getSelectionTexts Editor_marks).
Local Abbreviation recombineSelection := CustomEditor.recombineSelection.
Local Abbreviation subPathBelow := CustomEditor.subPathBelow.
Local Abbreviation textCarries := CustomEditor.textCarries.

(** X17.  [deleteBlockForward] and [deleteBlockBackward] do the same thing
    unless the selection is a cursor whose block entry is found: both fail
    with [getSelectionOrThrow], both collapse to the start and remove an
    expanded range, both only warn when no block entry is found. *)
Theorem deleteBlockForward_as_backward editor at_ :
  (forall newAt,
     getSelectionOrThrow editor at_ = Some newAt ->
     anchor newAt = focus newAt ->
     getBlockEntry editor (anchor newAt) = None) ->
  deleteBlockForward editor at_ = deleteBlockBackward editor at_.
Proof.
  intros H.
  unfold CustomEditor.deleteBlockForward, CustomEditor.deleteBlockBackward,
    CustomEditor.deleteBlockBackward_step.
  destruct (getSelectionOrThrow editor at_) as [newAt |] eqn:Hsel; [| done].
  unfold isCollapsed.
  destruct (bool_decide_reflect (anchor newAt = focus newAt)) as [Heq |];
    [| done].
  by rewrite (H newAt eq_refl Heq).
Qed.

(** X18.  A mark that [isMarkActive] reports is one that [hasMark]
    reports, except for an expanded selection that covers no text node at
    all; and unless the selection is expanded the two answers are the
    same. *)
Theorem isMarkActive_hasMark editor key :
  (isMarkActive editor key = true ->
   snd (hasMark editor key) = true
   \/ (exists range,
         selection editor = Some range /\ anchor range <> focus range)
      /\ getSelectionTexts editor = Some [])
  /\ ((forall range,
         selection editor = Some range -> anchor range = focus range) ->
      snd (hasMark editor key) = isMarkActive editor key).
Proof.
  unfold CustomEditor.isMarkActive, CustomEditor.hasMark.
  destruct (selection editor) as [range |]; [| done].
  unfold isCollapsed.
  destruct (bool_decide_reflect (anchor range = focus range)) as [Heq | Hne];
    cbn [negb].
  - split; [| by destruct (Editor_marks editor) as [[marks |] |]].
    destruct (Editor_marks editor) as [[marks |] |]; [| done | done].
    intros ->. by left.
  - split; [| intros Hall; by destruct (Hne (Hall range eq_refl))].
    destruct (getSelectionTexts editor) as [texts |]; [| done].
    destruct texts as [| t texts]; [intros _; right; eauto |].
    intros Hall. left. cbn [snd forallb existsb] in *.
    apply andb_true_iff in Hall as [-> _]. done.
Qed.

(** X19.  Over an expanded selection whose text nodes all have empty
    text, every mark is active, and present as soon as there is one such
    node. *)
Theorem isMarkActive_empty_texts editor key range texts :
  selection editor = Some range ->
  anchor range <> focus range ->
  getSelectionTexts editor = Some texts ->
  Forall (fun node => Boolean (node !! "text") = false) texts ->
  isMarkActive editor key = true
  /\ (texts <> [] -> snd (hasMark editor key) = true).
Proof.
  intros Hsel Hne Htexts Hall.
  unfold CustomEditor.isMarkActive, CustomEditor.hasMark.
  rewrite Hsel. unfold isCollapsed.
  rewrite bool_decide_eq_false_2 by done. cbn [negb]. rewrite Htexts.
  split.
  - apply forallb_forall. intros node Hin.
    rewrite Forall_forall in Hall. apply list_elem_of_In in Hin.
    unfold CustomEditor.textCarries. by rewrite (Hall node Hin).
  - destruct texts as [| node texts]; [done |]. intros _.
    apply Forall_cons in Hall as [Hnode _]. cbn [snd existsb].
    unfold CustomEditor.textCarries at 1. by rewrite Hnode.
Qed.

(** X20.  The selection that [tabEvent] recombines after the operation
    lies within the document: both paths are the new block path followed
    by the captured sub-path, both exist, the text there can be read, and
    each offset is within that text, equal to the captured offset when
    that was within it. *)
Theorem recombineSelection_in_bounds editor
    newStartBlockPath newEndBlockPath startAtPath endAtPath
    startAtOffset endAtOffset range :
  recombineSelection editor newStartBlockPath newEndBlockPath
    startAtPath endAtPath startAtOffset endAtOffset = Some range ->
  (path (anchor range) = newStartBlockPath ++ startAtPath
   /\ hasPath (children editor) (path (anchor range)) = true
   /\ exists startText,
        SlateQuery.string_at (children editor) (path (anchor range))
        = Some startText
        /\ 0 <= offset (anchor range) <= Z.of_nat (String.length startText)
        /\ (0 <= startAtOffset <= Z.of_nat (String.length startText) ->
            offset (anchor range) = startAtOffset))
  /\ (path (focus range) = newEndBlockPath ++ endAtPath
      /\ hasPath (children editor) (path (focus range)) = true
      /\ exists endText,
           SlateQuery.string_at (children editor) (path (focus range))
           = Some endText
           /\ 0 <= offset (focus range) <= Z.of_nat (String.length endText)
           /\ (0 <= endAtOffset <= Z.of_nat (String.length endText) ->
               offset (focus range) = endAtOffset)).
Proof.
  unfold CustomEditor.recombineSelection.
  destruct (hasPath (children editor) (newStartBlockPath ++ startAtPath))
    eqn:Hs; [| done].
  destruct (hasPath (children editor) (newEndBlockPath ++ endAtPath))
    eqn:He; [| done].
  cbn [andb].
  destruct (SlateQuery.string_at _ (newStartBlockPath ++ startAtPath))
    as [startText |] eqn:Hst; [| done].
  destruct (SlateQuery.string_at _ (newEndBlockPath ++ endAtPath))
    as [endText |] eqn:Het; [| done].
  intros [= <-]. cbn [anchor focus path offset].
  split; (split; [done |]; split; [done |]).
  - exists startText. split; [done |]. split; lia.
  - exists endText. split; [done |]. split; lia.
Qed.

(** X21.  Capture and recombination are inverse on a selection that is
    still in place: with unchanged block paths, existing paths and offsets
    within the text, the recombined selection is the original one. *)
Theorem recombineSelection_round_trip editor point endPoint
    startBlockPath endBlockPath startText endText :
  startBlockPath `prefix_of` path point ->
  endBlockPath `prefix_of` path endPoint ->
  hasPath (children editor) (path point) = true ->
  hasPath (children editor) (path endPoint) = true ->
  SlateQuery.string_at (children editor) (path point) = Some startText ->
  SlateQuery.string_at (children editor) (path endPoint) = Some endText ->
  0 <= offset point <= Z.of_nat (String.length startText) ->
  0 <= offset endPoint <= Z.of_nat (String.length endText) ->
  recombineSelection editor startBlockPath endBlockPath
    (subPathBelow point startBlockPath) (subPathBelow endPoint endBlockPath)
    (offset point) (offset endPoint)
  = Some {| anchor := point; focus := endPoint |}.
Proof.
  intros [q1 Hq1] [q2 Hq2] Hp1 Hp2 Ht1 Ht2 Ho1 Ho2.
  destruct point as [p1 o1], endPoint as [p2 o2]. cbn [path offset] in *.
  subst p1 p2.
  unfold CustomEditor.recombineSelection, CustomEditor.subPathBelow.
  cbn [path]. rewrite !drop_app_length.
  rewrite Hp1, Hp2, Ht1, Ht2. cbn [andb].
  rewrite (Z.min_l o1), (Z.min_l o2) by lia.
  by rewrite !Z.max_r by lia.
Qed.

End CommandProperties.

Section CursorProperties.

Variable getPreviousSiblingBlock : YSharedRoot -> option YBlock -> option string.

Local Abbreviation deleteBlockCursor :=
  (CustomEditor.deleteBlockCursor getPreviousSiblingBlock).

Lemma entry_getOrRoot editor id node entryPath :
  findSlateEntryByBlockId editor id = Some (node, entryPath) ->
  SlateQuery.getOrRoot (children editor) entryPath = Some node.
Proof.
  intros Hentry. apply nodes_first_get in Hentry as [Hget Hne].
  by destruct entryPath.
Qed.

(** An edge point of the entry found for a block id lies at a text leaf
    below that entry. *)
Lemma entry_edge_point editor id node entryPath leaf x q :
  findSlateEntryByBlockId editor id = Some (node, entryPath) ->
  (leaf = SlateQuery.first_leaf \/ leaf = SlateQuery.last_leaf) ->
  leaf node = (x, q) -> isText x = true ->
  q <> []
  /\ exists t marks,
       x = Text t marks
       /\ get (children editor) (entryPath ++ q) = Some (Text t marks).
Proof.
  intros Hentry Hleaf Hx Htext. unfold findSlateEntryByBlockId in Hentry.
  pose proof (nodes_first_get _ _ _ _ Hentry) as [Hget Hne].
  apply nodes_first_located in Hentry
    as (_ & _ & _ & _ & _ & _ & _ & pr & ks & -> & _).
  destruct (edge_point_inside _ _ _ _ leaf x q Hget Hleaf Hx Htext)
    as [Hq Hread].
  split; [done |].
  destruct x as [t marks | pr' ks']; [| done]. by exists t, marks.
Qed.

(** X22.  The cursor that [deleteBlock] computes before deleting lies
    inside the node of the previous sibling, at the end of its last text,
    or, without previous sibling and below a parent that is not the page,
    inside the node of the parent, at the start of its first text. *)
Theorem deleteBlockCursor_target_inside_entry editor blockId parent point :
  deleteBlockCursor editor blockId parent = CustomEditor.Target (Some point) ->
  exists id node entryPath q t marks,
    findSlateEntryByBlockId editor id = Some (node, entryPath)
    /\ path point = entryPath ++ q /\ q <> []
    /\ get (children editor) (path point) = Some (Text t marks)
    /\ match getPreviousSiblingBlock (sharedRoot editor)
               (getBlock blockId (sharedRoot editor)) with
       | Some prevBlockId =>
           id = prevBlockId /\ offset point = Z.of_nat (String.length t)
       | None =>
           block_type parent <> Page /\ id = block_id parent
           /\ offset point = 0
       end.
Proof.
  unfold CustomEditor.deleteBlockCursor.
  destruct (getPreviousSiblingBlock _ _) as [prevBlockId |].
  - destruct (findSlateEntryByBlockId editor prevBlockId)
      as [[node entryPath] |] eqn:Hentry; [| done].
    unfold SlateQuery.end_. rewrite (entry_getOrRoot _ _ _ _ Hentry).
    destruct (SlateQuery.last_leaf node) as [x q] eqn:Hx.
    destruct (isText x) eqn:Htext; [| done].
    destruct (entry_edge_point editor prevBlockId node entryPath
                SlateQuery.last_leaf x q Hentry (or_intror eq_refl) Hx Htext)
      as (Hq & t & marks & -> & Hread).
    intros [= <-].
    exists prevBlockId, node, entryPath, q, t, marks. done.
  - destruct (bool_decide_reflect (block_type parent <> Page)) as [Hpage |];
      [| done].
    destruct (findSlateEntryByBlockId editor (block_id parent))
      as [[node entryPath] |] eqn:Hentry; [| done].
    unfold SlateQuery.start. rewrite (entry_getOrRoot _ _ _ _ Hentry).
    destruct (SlateQuery.first_leaf node) as [x q] eqn:Hx.
    destruct (isText x) eqn:Htext; [| done].
    destruct (entry_edge_point editor (block_id parent) node entryPath
                SlateQuery.first_leaf x q Hentry (or_introl eq_refl) Hx Htext)
      as (Hq & t & marks & -> & Hread).
    intros [= <-].
    exists (block_id parent), node, entryPath, q, t, marks. done.
Qed.

End CursorProperties.

(** ** Concrete runs *)

Import Fixtures.

(** C1.  The page held [X; A; Z]; one transaction deleted [X] and [A] and
    created [B] and [Y], so that the shared tree holds [Y; B; Z], with [B]
    at index 1, the index [A] occupied.  The batch is processed with its
    deletes first, and yet the editable tree ends as [Y; Z; B]: [B] sits at
    index 2 and not at index 1, and the tree differs from the shared
    order. *)
Theorem applyBlocksYEvent_interleaved_adds_misplace :
  let result :=
    applyBlocksYEvent runOf rawData interleavedEditor interleavedEvent in
  blockIds (children interleavedEditor) = [Some "X"; Some "A"; Some "Z"]
  /\ keysChanged interleavedEvent = ["X"; "A"; "B"; "Y"]
  /\ action <$> changes_keys interleavedEvent !! "A" = Some "delete"
  /\ action <$> changes_keys interleavedEvent !! "B" = Some "add"
  /\ getChildrenArray "page" interleavedRoot = ["Y"; "B"; "Z"]
  /\ upd_key <$> Array_sort deleteFirst
                   (omap (updateOf (changes_keys interleavedEvent))
                         (keysChanged interleavedEvent))
     = ["X"; "A"; "B"; "Y"]
  /\ blockIds (children result) = [Some "Y"; Some "Z"; Some "B"]
  /\ blockIds (children result) !! 1%nat <> Some (Some "B")
  /\ blockIds (children result)
     <> Some <$> getChildrenArray "page" interleavedRoot.
Proof. vm_compute. repeat split; congruence. Qed.

(** X23, witness: [A] replaced by [B] below the text of a toggle list, in
    a batch that lists the add first. *)
Lemma applyBlocksYEvent_deletes_first_witness :
  children (applyBlocksYEvent runOf rawData swapEditor swapEvent) =
  [Element swapProps
     [textElement "tP" "p";
      newBlockNode runOf rawData swapRoot (block "B" Paragraph "P" (Some "tB"));
      paragraph "Z" "z"]].
Proof.
  apply (proj2 (applyBlocksYEvent_deletes_first runOf rawData)
           swapEditor swapEvent (Under Top [] swapProps [])
           [textElement "tP" "p"] [paragraph "Z" "z"]
           {| type := BlockNode Paragraph; blockId := Some "A"; textId := None;
              data := [] |}
           [textElement "tA" "a"] "A" "B"
           (block "B" Paragraph "P" (Some "tB"))
           (block "P" ToggleListBlock "page" (Some "tP"))).
  - reflexivity.
  - reflexivity.
  - simpl. repeat split; reflexivity.
  - reflexivity.
  - vm_compute. reflexivity.
  - vm_compute. reflexivity.
  - vm_compute. reflexivity.
  - simpl. repeat split; vm_compute; congruence.
Defined.


(** C4, counterexample.  The tree already shows [B]; translating the add of
    [B] once more inserts a second node for it. *)
Lemma translateYEvents_readd_counterexample :
  blockIds (children (singleEditor "")) = [Some "B"]
  /\ blockIds (children (translateYEvents runOf rawData ignoreText
                          (singleEditor "") [blocksEvent [("B", "add")]]))
     = [Some "B"; Some "B"].
Proof. vm_compute. split; reflexivity. Qed.

(** C4, witness: a batch that deletes [X] and [A] and updates [U], with
    the events of the page's child sequence and of the text map that come
    with it, translated twice over a tree with distinct block ids. *)
Lemma translateYEvents_deletes_idempotent_witness :
  let batch :=
    [blocksEvent [("X", "delete"); ("U", "update"); ("A", "delete")];
     childrenEvent "page";
     textMapEvent [("tX", "delete"); ("tA", "delete")]] in
  let once := translateYEvents runOf rawData ignoreText interleavedEditor batch in
  blockIds (children once) = [Some "Z"]
  /\ children (translateYEvents runOf rawData ignoreText once batch)
     = children once.
Proof.
  split; [reflexivity |].
  apply (proj1 (proj2 (translateYEvents_deletes_idempotent runOf rawData
                         ignoreText))
           interleavedEditor
           [blocksEvent [("X", "delete"); ("U", "update"); ("A", "delete")];
            childrenEvent "page";
            textMapEvent [("tX", "delete"); ("tA", "delete")]]).
  - constructor; [| constructor; [| constructor; [| constructor]]].
    + left. split; [reflexivity |]. repeat constructor; discriminate.
    + right. split; [discriminate |]. split; intros id; discriminate.
    + right. split; [discriminate |]. split; intros id; discriminate.
  - intros k. cbn. unfold hasBlockId. cbn.
    repeat case_bool_decide; simplify_eq; lia.
Defined.

(** C6, counterexample.  The shared block [B] carries data, the change is
    tagged 'update', and the node keeps its old, empty data. *)
Lemma applyBlocksYEvent_update_counterexample :
  let editor := editorOf [paragraph "B" ""] (singleRoot "checked") in
  let result := applyBlocksYEvent runOf rawData editor (blocksEvent [("B", "update")]) in
  rawData "checked" = [("json", "checked")]
  /\ children result = [paragraph "B" ""]
  /\ (data <$> (match children result !! 0%nat with
                | Some (Element pr _) => Some pr
                | _ => None
                end)) = Some []
  /\ (data <$> (match children result !! 0%nat with
                | Some (Element pr _) => Some pr
                | _ => None
                end)) <> Some (rawData "checked").
Proof. vm_compute. repeat split; congruence. Qed.

(** C6, witness: a batch of one 'update'. *)
Lemma applyBlocksYEvent_skips_updates_witness :
  applyBlocksYEvent runOf rawData (singleEditor "checked")
    (blocksEvent [("B", "update")])
  = singleEditor "checked".
Proof.
  apply (proj1 (proj2 (proj2 (applyBlocksYEvent_skips_updates runOf rawData)))).
  - constructor; [reflexivity | constructor].
  - constructor; [by eexists | constructor].
Defined.

(** C8, witness: [K] is added while its parent [P] is neither shown nor
    cached. *)
Lemma handleNewBlock_parent_not_in_tree_witness :
  handleNewBlock runOf rawData orphanEditor "K" ∅
  = (Log_error orphanEditor "Parent block not found in Slate editor", ∅).
Proof.
  refine (proj1 (handleNewBlock_parent_not_in_tree runOf rawData orphanEditor
                   "K" ∅ (block "K" Paragraph "P" None)
                   (block "P" ToggleListBlock "page" None)
                   eq_refl eq_refl _ eq_refl)).
  discriminate.
Defined.

(** C9, counterexample.  [K] names the parent [Q] but is not among [Q]'s
    shared children; the parent shows one block and no text element, and
    the child index computed for [K] is [-1]. *)
Lemma handleNewBlock_unlisted_counterexample :
  sharedIndex unlistedRoot (block "Q" (OtherBlock "columns") "page" None) "K" = -1
  /\ newBlockPath unlistedEditor ∅ "Q" "page" (-1) = Some [0; -1]
  /\ snd (handleNewBlock runOf rawData unlistedEditor "K" ∅) !! "K"
     = Some [0; -1]
  /\ ~ (0 <= -1).
Proof. vm_compute. repeat split; congruence. Qed.

(** C9, witness: [C] under the toggle list [T], which shows its text first. *)
Lemma handleNewBlock_nested_index_in_bounds_witness :
  0 <= 1 <= 2
  /\ exists ks,
       insert_node (children nestedEditor) [0; 1]
         (newBlockNode runOf rawData nestedRoot (block "C" Paragraph "T" (Some "tC")))
       = Some ks
       /\ handleNewBlock runOf rawData nestedEditor "C" ∅
          = (with_children nestedEditor ks, <["C" := [0; 1]]> ∅).
Proof.
  refine (handleNewBlock_nested_index_in_bounds runOf rawData nestedEditor "C" ∅
            (block "C" Paragraph "T" (Some "tC"))
            (block "T" ToggleListBlock "page" (Some "tT"))
            (blockElement "T" ToggleListBlock
               [textElement "tT" "t"; paragraph "C" "c"])
            [0] eq_refl eq_refl _ eq_refl _).
  - discriminate.
  - apply list_elem_of_here.
Defined.

(** C2, witness: the cursor is in the paragraph [C] below [T]; no special
    case applies and the lift handler lifts. *)
Lemma deleteBlockBackward_guard_priority_witness :
  CustomEditor.deleteBlockBackward_step listTypes blockEntry convertHandler
    liftHandler mergeHandler rangeHandler collapseStart givenOrSelection
    nestedEditor (Some (cursorAt [0; 1; 0; 0] 0))
  = Some (Log_warn nestedEditor "lifted", CustomEditor.Lifted).
Proof.
  refine (proj1 (proj2
    (deleteBlockBackward_guard_priority listTypes blockEntry convertHandler
       liftHandler mergeHandler rangeHandler collapseStart givenOrSelection
       nestedEditor (Some (cursorAt [0; 1; 0; 0] 0)) (cursorAt [0; 1; 0; 0] 0)
       (paragraph "C" "c") [0; 1] (block "C" Paragraph "T" (Some "tC"))
       eq_refl eq_refl eq_refl eq_refl)) _ _).
  - intros [H _]. by apply H.
  - split; [reflexivity | reflexivity].
Defined.

(** C10, witness: the cursor points below a top-level node that does not
    exist. *)
Lemma deleteBlockBackward_unresolved_returns_witness :
  exists result msg,
    CustomEditor.deleteBlockBackward listTypes blockEntry convertHandler
      liftHandler mergeHandler rangeHandler collapseStart givenOrSelection
      lonelyEditor (Some (cursorAt [5; 0] 0)) = Some result
    /\ children result = children lonelyEditor
    /\ sharedRoot result = sharedRoot lonelyEditor
    /\ selection result = selection lonelyEditor
    /\ console result = console lonelyEditor ++ [Warn msg].
Proof.
  apply (deleteBlockBackward_unresolved_returns listTypes blockEntry
           convertHandler liftHandler mergeHandler rangeHandler collapseStart givenOrSelection
           lonelyEditor (Some (cursorAt [5; 0] 0)) (cursorAt [5; 0] 0)
           eq_refl eq_refl).
  left. reflexivity.
Defined.

(** C7, witness: in a document without any node no strategy yields a
    selection; the start of the block cannot be read, the selection stays
    unset, and the three warnings are logged. *)
Lemma restoreTabSelection_fallback_order_witness :
  let result :=
    CustomEditor.restoreTabSelection nearestOrStart pathsExist emptyEditor
      [0] [0] [0; 0] [0; 0] 0 0 (cursorAt [0; 0; 0] 0) in
  selection result = None
  /\ console result
     = [Warn "Calculated selection invalid";
        Warn "Failed to select start of block";
        Warn "Could not establish any valid selection"].
Proof.
  split; [| reflexivity].
  refine (proj1 (proj2 (proj2
            (restoreTabSelection_fallback_order nearestOrStart pathsExist
               emptyEditor [0] [0] [0; 0] [0; 0] 0 0 (cursorAt [0; 0; 0] 0)
               _ _ eq_refl _ _)))).
  - intros e msg candidate. reflexivity.
  - intros e msg range. reflexivity.
  - discriminate.
  - intros sel H. discriminate H.
Defined.

(** C5, counterexample.  [C] is the only child of the toggle list [T];
    after [deleteBlock] the parent [T] is still in the document with zero
    children, and no block was added. *)
Lemma deleteBlock_nested_parent_counterexample :
  let result :=
    CustomEditor.deleteBlock StoreModel.getPreviousSiblingBlock (fun _ _ => true)
      (StoreModel.executeDeleteBlock runOf rawData ignoreText)
      (StoreModel.addBlock runOf rawData ignoreText emptyStringify "new")
      nestedEditor "C" in
  getChildrenArray "T" nestedRoot = ["C"]
  /\ getBlock "C" (sharedRoot result) = None
  /\ is_Some (getBlock "T" (sharedRoot result))
  /\ getChildrenArray "T" (sharedRoot result) = []
  /\ getBlock "new" (sharedRoot result) = None
  /\ children result
     = [blockElement "T" ToggleListBlock [textElement "tT" "t"]].
Proof. vm_compute. repeat split; try reflexivity. by eexists. Qed.

(** C5, witness: [B] is the only block of the page; once it is deleted the
    tree is empty and the page receives the paragraph. *)
Lemma deleteBlock_placeholder_when_tree_empty_witness :
  let result :=
    CustomEditor.deleteBlock StoreModel.getPreviousSiblingBlock (fun _ _ => true)
      (StoreModel.executeDeleteBlock runOf rawData ignoreText)
      (StoreModel.addBlock runOf rawData ignoreText emptyStringify "new")
      lonelyEditor "B" in
  getChildrenArray "page" (sharedRoot result) = ["new"]
  /\ block_type <$> getBlock "new" (sharedRoot result) = Some Paragraph
  /\ blockIds (children result) = [Some "new"].
Proof.
  intros result.
  assert (H : result =
    fst (StoreModel.addBlock runOf rawData ignoreText emptyStringify "new"
           (StoreModel.executeDeleteBlock runOf rawData ignoreText
              (CustomEditor.placeCursor (fun _ _ => true) lonelyEditor
                 (CustomEditor.deleteBlockCursor
                    StoreModel.getPreviousSiblingBlock lonelyEditor "B"
                    (block "page" Page "" None))) "B")
           Paragraph [] (block "page" Page "" None) 0)).
  { apply (deleteBlock_placeholder_when_tree_empty
             StoreModel.getPreviousSiblingBlock (fun _ _ => true)
             (StoreModel.executeDeleteBlock runOf rawData ignoreText)
             (StoreModel.addBlock runOf rawData ignoreText emptyStringify "new")
             lonelyEditor "B" (block "page" Page "" None) eq_refl).
    - discriminate.
    - reflexivity. }
  rewrite H. vm_compute. repeat split; reflexivity.
Defined.

(** ** Concrete runs of the further properties *)

(** X3, witness: [B] is added to a tree that shows [X; A; Z] and deleted again. *)
Lemma handleNewBlock_then_delete_restores_witness :
  children (handleDeleteNode
              (fst (handleNewBlock runOf rawData interleavedEditor "B" ∅)) "B")
  = children interleavedEditor.
Proof.
  apply (handleNewBlock_then_delete_restores runOf rawData interleavedEditor
           "B" ∅).
  - intros b Hb. vm_compute in Hb. by injection Hb as <-.
  - reflexivity.
Defined.

(** X4, witness: the page lists [B] at index 1 of three top-level nodes. *)
Lemma handleNewBlock_page_level_position_witness :
  let result := handleNewBlock runOf rawData interleavedEditor "B" ∅ in
  children (fst result)
  = [paragraph "X" "x"; paragraph "B" "b"; paragraph "A" "a";
     paragraph "Z" "z"]
  /\ console (fst result) = []
  /\ snd result = <["B" := [1]]> ∅.
Proof.
  apply (proj1 (handleNewBlock_page_level_position runOf rawData
                  interleavedEditor "B" ∅
                  (block "B" Paragraph "page" (Some "tB"))
                  (block "page" Page "" None) eq_refl eq_refl eq_refl)).
  vm_compute. split; discriminate.
Defined.

(** X5, witness: the path cached for [B] reads [B] back. *)
Lemma handleNewBlock_cached_path_reads_back_witness :
  exists path,
    snd (handleNewBlock runOf rawData interleavedEditor "B" ∅)
    = <["B" := path]> ∅
    /\ (0 <= last_index path ->
        get (children (fst (handleNewBlock runOf rawData interleavedEditor "B" ∅)))
            path
        = Some (paragraph "B" "b"))
    /\ (last_index path < 0 ->
        get (children (fst (handleNewBlock runOf rawData interleavedEditor "B" ∅)))
            path
        = None).
Proof.
  exact (handleNewBlock_cached_path_reads_back runOf rawData interleavedEditor
           "B" ∅ (block "B" Paragraph "page" (Some "tB")) eq_refl eq_refl).
Defined.

(** X6, witness: the data of the paragraph [B] is replaced. *)
Lemma applyUpdateBlockYEvent_only_sets_data_witness :
  applyUpdateBlockYEvent rawData (singleEditor "")
    "B" (updateEvent {| block_id := "B"; block_type := Paragraph;
                        block_parent := "page"; block_children := "B";
                        block_external_id := Some "tB";
                        block_data := "checked" |})
  = with_children (singleEditor "")
      [Element {| type := BlockNode Paragraph; blockId := Some "B";
                  textId := None; data := [("json", "checked")] |}
               [textElement "tB" ""]].
Proof.
  destruct (applyUpdateBlockYEvent_only_sets_data rawData (singleEditor "") "B"
              (updateEvent {| block_id := "B"; block_type := Paragraph;
                              block_parent := "page"; block_children := "B";
                              block_external_id := Some "tB";
                              block_data := "checked" |})
              _ eq_refl)
    as [[Habsent _] | (c & pre & pr & ks & post & _ & _ & _ & _ & _)].
  - discriminate Habsent.
  - reflexivity.
Defined.

(** X8, witness: a batch that deletes [X] and [A] and updates [U]. *)
Lemma applyBlocksYEvent_deleted_block_gone_witness :
  absent (hasBlockId "A")
    (children (applyBlocksYEvent runOf rawData interleavedEditor
                 (blocksEvent [("X", "delete"); ("U", "update"); ("A", "delete")]))).
Proof.
  apply (applyBlocksYEvent_deleted_block_gone runOf rawData interleavedEditor
           (blocksEvent [("X", "delete"); ("U", "update"); ("A", "delete")])
           "A" {| action := "delete"; oldValue := None |}).
  - vm_compute. repeat constructor; discriminate.
  - vm_compute. repeat constructor.
  - reflexivity.
  - reflexivity.
  - vm_compute. lia.
Defined.

(** X10, witness: a batch of two deletes and two adds. *)
Lemma translateYEvents_keeps_shared_root_witness :
  sharedRoot (translateYEvents runOf rawData ignoreText interleavedEditor
                [interleavedEvent])
  = interleavedRoot.
Proof.
  apply (translateYEvents_keeps_shared_root runOf rawData ignoreText
           interleavedEditor [interleavedEvent]).
  intros e textId event. reflexivity.
Defined.

(** X11, witness: a block-map event. *)
Lemma translateYEvent_routes_witness :
  translateYEvent runOf rawData ignoreText interleavedEditor interleavedEvent
  = applyBlocksYEvent runOf rawData interleavedEditor interleavedEvent.
Proof.
  apply (proj1 (translateYEvent_routes runOf rawData ignoreText
                  interleavedEditor interleavedEvent)).
  reflexivity.
Defined.

(** X12, witness: the tree shows [Y]; the batch adds [B] and [Z]. *)
Lemma applyBlocksYEvent_appends_in_shared_order_witness :
  children (applyBlocksYEvent runOf rawData grownEditor
              (blocksEvent [("B", "add"); ("Z", "add")]))
  = [paragraph "Y" "y"; paragraph "B" "b"; paragraph "Z" "z"]
  /\ console (applyBlocksYEvent runOf rawData grownEditor
                (blocksEvent [("B", "add"); ("Z", "add")]))
     = [].
Proof.
  apply (applyBlocksYEvent_appends_in_shared_order runOf rawData grownEditor
           (blocksEvent [("B", "add"); ("Z", "add")])
           (block "page" Page "" None) ["Y"]).
  - reflexivity.
  - reflexivity.
  - apply (bool_decide_unpack _). vm_compute. exact I.
  - reflexivity.
  - repeat constructor; eexists; split; reflexivity.
Defined.

(** X13, witness: after two deletes and the add of [B], the cache holds [B]; the add of [Y] does not look at it. *)
Lemma processUpdates_cache_never_decides_witness :
  let updates :=
    omap (updateOf (changes_keys interleavedEvent)) (keysChanged interleavedEvent) in
  let state :=
    processUpdates runOf rawData interleavedEditor ∅
      (take 3 (Array_sort deleteFirst updates)) in
  snd state = <["B" := [1]]> ∅
  /\ fst (handleNewBlock runOf rawData (fst state) "Y" (snd state))
     = fst (handleNewBlock runOf rawData (fst state) "Y" ∅).
Proof.
  split; [reflexivity |].
  apply (processUpdates_cache_never_decides runOf rawData interleavedEditor
           (omap (updateOf (changes_keys interleavedEvent))
                 (keysChanged interleavedEvent))
           (take 3 (Array_sort deleteFirst
                      (omap (updateOf (changes_keys interleavedEvent))
                            (keysChanged interleavedEvent))))
           (drop 3 (Array_sort deleteFirst
                      (omap (updateOf (changes_keys interleavedEvent))
                            (keysChanged interleavedEvent))))
           "Y").
  - change (map_Forall (fun key block => block_id block = key)
              (blocks interleavedRoot)).
    apply (bool_decide_unpack _). vm_compute. exact I.
  - symmetry. apply take_drop.
Defined.

(** X17, witness: an expanded range. *)
Lemma deleteBlockForward_as_backward_witness :
  CustomEditor.deleteBlockForward blockEntry rangeHandler collapseStart
    givenOrSelection mergeForwardHandler nestedEditor
    (Some (rangeOver [0; 0; 0] 0 1))
  = CustomEditor.deleteBlockBackward listTypes blockEntry convertHandler
      liftHandler mergeHandler rangeHandler collapseStart givenOrSelection
      nestedEditor (Some (rangeOver [0; 0; 0] 0 1)).
Proof.
  apply (deleteBlockForward_as_backward listTypes blockEntry convertHandler
           liftHandler mergeHandler mergeForwardHandler rangeHandler
           collapseStart givenOrSelection nestedEditor
           (Some (rangeOver [0; 0; 0] 0 1))).
  intros newAt Hsel Hcollapsed. injection Hsel as <-. discriminate Hcollapsed.
Defined.

(** X18, witness: a bold run and a run without text. *)
Lemma isMarkActive_hasMark_witness :
  let editor :=
    with_selection nestedEditor (Some (rangeOver [0; 0; 0] 0 1)) in
  snd (CustomEditor.hasMark (selectedTexts [boldRun; emptyRun]) noMarks
         editor "bold") = true
  \/ (exists range, selection editor = Some range /\ anchor range <> focus range)
     /\ selectedTexts [boldRun; emptyRun] editor = Some [].
Proof.
  apply (proj1 (isMarkActive_hasMark (selectedTexts [boldRun; emptyRun])
                  noMarks
                  (with_selection nestedEditor (Some (rangeOver [0; 0; 0] 0 1)))
                  "bold")).
  reflexivity.
Defined.

(** X19, witness: a single run without text. *)
Lemma isMarkActive_empty_texts_witness :
  let editor :=
    with_selection nestedEditor (Some (rangeOver [0; 0; 0] 0 1)) in
  CustomEditor.isMarkActive (selectedTexts [emptyRun]) noMarks editor "bold"
  = true
  /\ ([emptyRun] <> [] ->
      snd (CustomEditor.hasMark (selectedTexts [emptyRun]) noMarks editor "bold")
      = true).
Proof.
  apply (isMarkActive_empty_texts (selectedTexts [emptyRun]) noMarks
           (with_selection nestedEditor (Some (rangeOver [0; 0; 0] 0 1)))
           "bold" (rangeOver [0; 0; 0] 0 1) [emptyRun]).
  - reflexivity.
  - intros H. discriminate H.
  - reflexivity.
  - constructor; [reflexivity | constructor].
Defined.

(** X20, witness: offsets 3 and -2 are clamped to the texts found. *)
Lemma recombineSelection_in_bounds_witness :
  CustomEditor.recombineSelection nestedEditor [0] [0; 1] [0; 0] [0; 0] 3 (-2)
  = Some {| anchor := {| path := [0; 0; 0]; offset := 1 |};
            focus := {| path := [0; 1; 0; 0]; offset := 0 |} |}
  /\ exists startText,
       SlateQuery.string_at (children nestedEditor) [0; 0; 0] = Some startText
       /\ 0 <= 1 <= Z.of_nat (String.length startText).
Proof.
  split; [reflexivity |].
  destruct (recombineSelection_in_bounds nestedEditor [0] [0; 1] [0; 0] [0; 0]
              3 (-2)
              {| anchor := {| path := [0; 0; 0]; offset := 1 |};
                 focus := {| path := [0; 1; 0; 0]; offset := 0 |} |}
              eq_refl)
    as [(_ & _ & startText & Htext & Hbounds & _) _].
  exists startText. split; [exact Htext | exact Hbounds].
Defined.

(** X21, witness: a range inside the paragraph [C]. *)
Lemma recombineSelection_round_trip_witness :
  CustomEditor.recombineSelection nestedEditor [0; 1] [0; 1]
    (CustomEditor.subPathBelow {| path := [0; 1; 0; 0]; offset := 0 |} [0; 1])
    (CustomEditor.subPathBelow {| path := [0; 1; 0; 0]; offset := 1 |} [0; 1])
    0 1
  = Some (rangeOver [0; 1; 0; 0] 0 1).
Proof.
  apply (recombineSelection_round_trip nestedEditor
           {| path := [0; 1; 0; 0]; offset := 0 |}
           {| path := [0; 1; 0; 0]; offset := 1 |} [0; 1] [0; 1] "c" "c").
  - by exists [0; 0].
  - by exists [0; 0].
  - reflexivity.
  - reflexivity.
  - reflexivity.
  - reflexivity.
  - cbn. lia.
  - cbn. lia.
Defined.

(** X14, witness: the toggle list [P], then its child [B]. *)
Lemma handleNewBlock_parent_then_child_witness :
  let added := handleNewBlock runOf rawData (editorOf [] swapRoot) "P" ∅ in
  let result := fst (handleNewBlock runOf rawData (fst added) "B" (snd added)) in
  children result
  = [blockElement "P" ToggleListBlock
       [textElement "tP" "p"; paragraph "B" ""]]
  /\ console result = [].
Proof.
  apply (handleNewBlock_parent_then_child runOf rawData (editorOf [] swapRoot)
           ∅ "P" "B" (block "P" ToggleListBlock "page" (Some "tP"))
           (block "B" Paragraph "P" (Some "tB")) (block "page" Page "" None)).
  - reflexivity.
  - reflexivity.
  - reflexivity.
  - reflexivity.
  - reflexivity.
  - reflexivity.
  - discriminate.
  - vm_compute. repeat constructor.
  - reflexivity.
  - vm_compute. split; discriminate.
Defined.

(** X15, witness: [B] first, then its parent [P]. *)
Lemma handleNewBlock_child_before_parent_witness :
  let skipped := handleNewBlock runOf rawData (editorOf [] swapRoot) "B" ∅ in
  let result := handleNewBlock runOf rawData (fst skipped) "P" (snd skipped) in
  children (fst result)
  = [blockElement "P" ToggleListBlock [textElement "tP" "p"]]
  /\ console (fst result) = [Error "Parent block not found in Slate editor"]
  /\ snd result = <["P" := [0]]> ∅.
Proof.
  apply (handleNewBlock_child_before_parent runOf rawData
           (editorOf [] swapRoot) ∅ "P" "B"
           (block "P" ToggleListBlock "page" (Some "tP"))
           (block "B" Paragraph "P" (Some "tB")) (block "page" Page "" None)).
  - reflexivity.
  - reflexivity.
  - reflexivity.
  - reflexivity.
  - reflexivity.
  - discriminate.
  - reflexivity.
  - reflexivity.
  - vm_compute. split; discriminate.
Defined.

(** X16, witness: the toggle list [T] and the paragraph [C] in it. *)
Lemma handleDeleteNode_nested_either_order_witness :
  children (handleDeleteNode (handleDeleteNode nestedEditor "T") "C") = []
  /\ children (handleDeleteNode (handleDeleteNode nestedEditor "C") "T") = [].
Proof.
  apply (handleDeleteNode_nested_either_order nestedEditor Top []
           {| type := BlockNode ToggleListBlock; blockId := Some "T";
              textId := None; data := [] |}
           [] Top [textElement "tT" "t"]
           {| type := BlockNode Paragraph; blockId := Some "C";
              textId := None; data := [] |}
           [textElement "tC" "c"] [] "T" "C").
  - reflexivity.
  - reflexivity.
  - reflexivity.
  - exact I.
  - reflexivity.
  - reflexivity.
Defined.

(** X22, witness: [B] is deleted while its previous sibling [Y] is shown;
    the cursor goes to the end of the text of [Y]. *)
Lemma deleteBlockCursor_target_inside_entry_witness :
  exists id node entryPath q t marks,
    findSlateEntryByBlockId grownEditor id = Some (node, entryPath)
    /\ [0; 0; 0] = entryPath ++ q /\ q <> []
    /\ get (children grownEditor) [0; 0; 0] = Some (Text t marks)
    /\ id = "Y" /\ 1 = Z.of_nat (String.length t).
Proof.
  exact (deleteBlockCursor_target_inside_entry
           StoreModel.getPreviousSiblingBlock grownEditor "B"
           (block "page" Page "" None)
           {| path := [0; 0; 0]; offset := 1 |} eq_refl).
Defined.
